(** * File upload service: download-then-upload pipeline

    A shallow embedding of the NestJS file service of the repository
    (file.service.ts in its two variants, upload-files.dto.ts,
    file.controller.ts, google-drive.service.ts, google-auth.service.ts).

    JavaScript strings are modelled as Rocq byte strings (ASCII case
    mapping and ASCII white space), numbers as [Z], arrays as lists,
    thrown values as [Js.Error] records.  Asynchronous code is modelled in
    a state-and-exception monad over a [World] that records the file
    system with the opens still pending, the database table, the timers
    awaited, the log, the credentials, the read streams and how far they
    have been read, and what the provider was sent; what the outside
    world answers (HTTP servers, the Drive API, the OAuth endpoint, the
    database, the random generator) is read from an [Env] of oracles
    indexed by call number. *)

From stdpp Require Import base numbers strings gmap list sorting.
From Stdlib Require Import Ascii DecimalString.

Open Scope string_scope.
Open Scope list_scope.
Open Scope Z_scope.

(** ** JavaScript values and built-ins *)

Module Js.

(** The value of [error.code]: axios and Node use strings
    ('ECONNRESET'), the Google API client uses numbers (401). *)
Inductive Code :=
| CodeStr (s : string)
| CodeNum (n : Z).

(** The value of [error.response]: an axios response object (of which
    only [status] is read), or the response of a Nest [HttpException],
    which is the string or the object body given to its constructor. *)
Inductive Response :=
| AxiosResponse (status : Z)
| BodyString (s : string)
| BodyObject (status : option Z).

(** A thrown value.  [http_status] is [Some s] exactly for instances of
    [HttpException]; [details] is the itemised list of an object body
    ([details] or [failedUploads]). *)
Record Error := mkError {
  message : string;
  code : option Code;
  response : option Response;
  request : bool;
  isAxiosError : bool;
  http_status : option Z;
  details : list (string * string)
}.

(** [new Error(msg)] *)
Definition newError (msg : string) : Error :=
  mkError msg None None false false None [].

(** [new HttpException(msg, status)] with a string response: Nest keeps
    the string as [response] and as [message]. *)
Definition HttpException (msg : string) (status : Z) : Error :=
  mkError msg None (Some (BodyString msg)) false false (Some status) [].

(** [new HttpException({ message, <items> }, status)] with an object
    response whose [message] field becomes the message. *)
Definition HttpExceptionObj (msg : string) (items : list (string * string))
    (status : Z) : Error :=
  mkError msg None (Some (BodyObject None)) false false (Some status) items.

Definition BAD_REQUEST : Z := 400.
Definition INTERNAL_SERVER_ERROR : Z := 500.

(** Outcome of running a piece of code: a value, a thrown error, or no
    outcome at all (the recursion budget of the model ran out, which
    stands for a call that never settles). *)
Inductive Res (A : Type) :=
| Ok (a : A)
| Throw (e : Error)
| Diverge.
Arguments Ok {A} a.
Arguments Throw {A} e.
Arguments Diverge {A}.

Definition lower (c : ascii) : ascii :=
  let n := nat_of_ascii c in
  if ((65 <=? n)%nat && (n <=? 90)%nat)%bool then ascii_of_nat (n + 32) else c.

(** [String.prototype.toLowerCase] *)
Fixpoint toLowerCase (s : string) : string :=
  match s with
  | EmptyString => EmptyString
  | String c s' => String (lower c) (toLowerCase s')
  end.

Definition is_space (c : ascii) : bool :=
  let n := nat_of_ascii c in
  ((9 <=? n)%nat && (n <=? 13)%nat)%bool || (n =? 32)%nat.

Fixpoint trimStart (s : string) : string :=
  match s with
  | String c s' => if is_space c then trimStart s' else s
  | EmptyString => EmptyString
  end.

Fixpoint trimEnd (s : string) : string :=
  match s with
  | EmptyString => EmptyString
  | String c s' =>
      match trimEnd s' with
      | EmptyString => if is_space c then EmptyString else String c EmptyString
      | t => String c t
      end
  end.

(** [String.prototype.trim] *)
Definition trim (s : string) : string := trimEnd (trimStart s).

(** [String.prototype.split] with a one-character separator: never
    returns the empty array. *)
Fixpoint split (sep : ascii) (s : string) : list string :=
  match s with
  | EmptyString => [EmptyString]
  | String c s' =>
      if Ascii.eqb c sep then EmptyString :: split sep s'
      else match split sep s' with
           | h :: t => String c h :: t
           | [] => [String c EmptyString]
           end
  end.

(** [Array.prototype.pop], as far as its result goes: the last element,
    [undefined] (here [None]) on the empty array. *)
Definition pop (l : list string) : option string := last l.

(** [Array.prototype.includes] on an array of strings, asked about a
    value that may be [undefined]. *)
Definition includes (l : list string) (x : option string) : bool :=
  match x with
  | Some s => existsb (String.eqb s) l
  | None => false
  end.

Definition includesZ (l : list Z) (x : Z) : bool := existsb (Z.eqb x) l.

Fixpoint startsWith (p s : string) : bool :=
  match p, s with
  | EmptyString, _ => true
  | String a p', String b s' => Ascii.eqb a b && startsWith p' s'
  | String _ _, EmptyString => false
  end.

(** [String.prototype.includes]: substring search. *)
Fixpoint str_includes (needle s : string) : bool :=
  startsWith needle s ||
  match s with
  | EmptyString => false
  | String _ s' => str_includes needle s'
  end.

(** Template-literal rendering of a number and of a possibly undefined
    string. *)
Definition showZ (z : Z) : string := NilZero.string_of_int (Z.to_int z).
Definition showOpt (x : option string) : string := default "undefined" x.

Definition dquote : string := String "034"%char EmptyString.

(** [Array.prototype.map] with a callback that may throw: the first
    throw aborts the map. *)
Fixpoint mapThrow {A B} (f : A -> Res B) (l : list A) : Res (list B) :=
  match l with
  | [] => Ok []
  | x :: l' =>
      match f x with
      | Ok y => match mapThrow f l' with
                | Ok ys => Ok (y :: ys)
                | Throw e => Throw e
                | Diverge => Diverge
                end
      | Throw e => Throw e
      | Diverge => Diverge
      end
  end.

End Js.

(** ** upload-files.dto.ts *)

Module Dto.
Import Js.

Definition SUPPORTED_FILE_EXTENSIONS : list string :=
  ["pdf"; "doc"; "docx"; "xls"; "xlsx"; "ppt"; "pptx"; "txt"; "csv";
   "jpg"; "jpeg"; "png"; "gif"; "bmp"; "svg"; "webp";
   "mp3"; "mp4"; "avi"; "mov"; "wmv"; "zip"; "rar"; "tar"; "gz"].

Definition DANGEROUS_FILE_EXTENSIONS : list string :=
  ["exe"; "bat"; "cmd"; "sh"; "php"; "js"; "jar"; "dll"; "vbs"; "ps1"].

(** The extension the transform looks at: the last dot-separated
    segment of the whole trimmed, lowercased URL string. *)
Definition urlExtension (url : string) : option string :=
  let lowercaseUrl := toLowerCase (trim url) in
  pop (split "." lowercaseUrl).

(** The callback of [value.map] inside [@Transform]. *)
Definition transformUrl (url : string) : Res string :=
  let url := trim url in
  let lowercaseUrl := toLowerCase url in
  let extension := pop (split "." lowercaseUrl) in
  if includes DANGEROUS_FILE_EXTENSIONS extension then
    Throw (newError ("File extension " +:+ dquote +:+ showOpt extension +:+ dquote
                     +:+ " is not allowed for security reasons"))
  else if negb (includes SUPPORTED_FILE_EXTENSIONS extension) then
    Throw (newError ("File extension " +:+ dquote +:+ showOpt extension +:+ dquote
                     +:+ " is not supported"))
  else Ok url.

(** [@Transform(({ value }) => ...)] on a body whose [fileUrls] is an
    array of strings. *)
Definition Transform (value : list string) : Res (list string) :=
  mapThrow transformUrl value.

End Dto.

(** ** The world the service runs in *)

Module Sys.
Import Js.

(** The bytes of a file, kept opaque: the pipeline observes their
    length through [fs.stat] and hands them on unchanged. *)
Record Bytes := mkBytes { digest : string; byteLength : Z }.

Definition noBytes : Bytes := mkBytes "" 0.

(** google-drive.service.ts, [FileMetadata] and [UploadFileResult] *)
Record FileMetadata := mkMeta { name : string; mimeType : string; size : Z }.
Record UploadFileResult := mkUpload { id : string; url : string }.

(** The Prisma [File] model (the FileRecord of the specification). *)
Record File := mkFile {
  file_id : string;
  file_name : string;
  file_mimeType : string;
  file_size : Z;
  driveFileId : string;
  driveUrl : string;
  createdAt : Z;
  updatedAt : Z
}.

(** A readable stream opened by [createReadStream]: its identity (the
    number of streams opened before it) and the path it reads.  Whether
    it has been read is part of the state ([streams] below). *)
Record Stream := ReadStream { stream_id : nat; stream_path : string }.

(** The argument of [drive.files.create]; the media body is the stream
    handed to the client library. *)
Record DriveRequest := mkRequest {
  requestBody_name : string;
  requestBody_mimeType : string;
  media_mimeType : string;
  media_body : Stream
}.

Record Credentials := mkCred {
  access_token : option string;
  refresh_token : option string
}.

Inductive Level := LOG | WARN | ERROR.

(** *** Answers of the outside world *)

(** How the body of a 2xx response reaches the temp file. *)
Inductive BodyOutcome :=
| BodyFinish (data : Bytes)
| BodyStreamError (e : Error) (written : Bytes)
| BodyWriteError (e : Error) (written : Bytes).

(** What a call of [axios] meets: a request that gets no response, a
    response, or a rejection before any request goes out (a URL the
    client cannot use), with the error it rejects with.  The declared
    content length stands for [parseInt(headers['content-length'] || '0')]. *)
Inductive HttpOutcome :=
| NoResponse (errno : string)
| HttpResponse (status : Z) (contentType : option string)
    (contentLength : option Z) (body : BodyOutcome)
| NotSent (error : Error).

Inductive CreateOutcome :=
| CreateResponse (data_id : option string)
| CreateError (e : Error).

Inductive RefreshOutcome :=
| RefreshError (e : Error)
| RefreshTokens (tokens : option Credentials).

Inductive DbOutcome :=
| DbRow (row_id : string) (now : Z)
| DbError (e : Error).

(** The configuration and the oracles.  Each external call reads the
    answer at the number of calls of its kind made so far.  The last
    three fields are platform functions that the repository uses but does
    not define: the WHATWG [URL] parser (pathname of a URL, [None] when
    the constructor throws), Node's [path.extname] and validator.js's
    [isURL] with the options of the DTO. *)
Record Env := mkEnv {
  MAX_CONCURRENT_UPLOADS : nat;
  tmpdir : string;
  randomBytesHex : nat -> string;
  http_get : nat -> string -> HttpOutcome;
  files_create : nat -> CreateOutcome;
  oauth_refresh : nat -> RefreshOutcome;
  token_write : nat -> option Error;
  prisma_create : nat -> DbOutcome;
  URL_pathname : string -> option string;
  extname : string -> string;
  isURL : string -> bool
}.

(** The state.  [http_requests] lists the URLs handed to [axios], one
    for each call, whether or not a request went out.  [refreshes] counts
    the calls of [GoogleAuthService.refreshAccessToken] and [uploads] the
    calls of [GoogleDriveService.uploadFile]; the other counters index
    the oracles.  [opening] holds the paths of the write streams whose
    file the event loop has still to open, [streams] tells of each read
    stream opened so far whether it has been read, and [drive_bodies]
    holds, request by request, what the provider was sent as media body
    ([None] when the stream had nothing to read from). *)
Record World := mkWorld {
  fs : gmap string Bytes;
  table : list File;
  timers : list Z;
  log : list (Level * string);
  http_requests : list string;
  drive_requests : list DriveRequest;
  credentials : Credentials;
  drive_ready : bool;
  oauth_calls : nat;
  refreshes : nat;
  uploads : nat;
  db_calls : nat;
  rand_calls : nat;
  opening : list string;
  streams : list bool;
  drive_bodies : list (option Bytes)
}.

Definition with_fs (f : gmap string Bytes -> gmap string Bytes) (w : World) : World :=
  mkWorld (f (fs w)) (table w) (timers w) (log w) (http_requests w) (drive_requests w)
    (credentials w) (drive_ready w) (oauth_calls w) (refreshes w) (uploads w)
    (db_calls w) (rand_calls w) (opening w) (streams w) (drive_bodies w).
Definition with_table (x : list File) (w : World) : World :=
  mkWorld (fs w) x (timers w) (log w) (http_requests w) (drive_requests w)
    (credentials w) (drive_ready w) (oauth_calls w) (refreshes w) (uploads w)
    (db_calls w) (rand_calls w) (opening w) (streams w) (drive_bodies w).
Definition with_db_call (w : World) : World :=
  mkWorld (fs w) (table w) (timers w) (log w) (http_requests w) (drive_requests w)
    (credentials w) (drive_ready w) (oauth_calls w) (refreshes w) (uploads w)
    (S (db_calls w)) (rand_calls w) (opening w) (streams w) (drive_bodies w).
Definition with_timer (d : Z) (w : World) : World :=
  mkWorld (fs w) (table w) (timers w ++ [d]) (log w) (http_requests w)
    (drive_requests w) (credentials w) (drive_ready w) (oauth_calls w) (refreshes w)
    (uploads w) (db_calls w) (rand_calls w) (opening w) (streams w) (drive_bodies w).
Definition with_log (l : Level) (msg : string) (w : World) : World :=
  mkWorld (fs w) (table w) (timers w) (log w ++ [(l, msg)]) (http_requests w)
    (drive_requests w) (credentials w) (drive_ready w) (oauth_calls w) (refreshes w)
    (uploads w) (db_calls w) (rand_calls w) (opening w) (streams w) (drive_bodies w).
Definition with_http_request (u : string) (w : World) : World :=
  mkWorld (fs w) (table w) (timers w) (log w) (http_requests w ++ [u])
    (drive_requests w) (credentials w) (drive_ready w) (oauth_calls w) (refreshes w)
    (uploads w) (db_calls w) (rand_calls w) (opening w) (streams w) (drive_bodies w).
Definition with_drive_request (r : DriveRequest) (w : World) : World :=
  mkWorld (fs w) (table w) (timers w) (log w) (http_requests w)
    (drive_requests w ++ [r]) (credentials w) (drive_ready w) (oauth_calls w)
    (refreshes w) (uploads w) (db_calls w) (rand_calls w) (opening w) (streams w)
    (drive_bodies w).
Definition with_credentials (c : Credentials) (w : World) : World :=
  mkWorld (fs w) (table w) (timers w) (log w) (http_requests w) (drive_requests w) c
    (drive_ready w) (oauth_calls w) (refreshes w) (uploads w) (db_calls w)
    (rand_calls w) (opening w) (streams w) (drive_bodies w).
Definition with_drive_ready (w : World) : World :=
  mkWorld (fs w) (table w) (timers w) (log w) (http_requests w) (drive_requests w)
    (credentials w) true (oauth_calls w) (refreshes w) (uploads w) (db_calls w)
    (rand_calls w) (opening w) (streams w) (drive_bodies w).
Definition with_oauth_call (w : World) : World :=
  mkWorld (fs w) (table w) (timers w) (log w) (http_requests w) (drive_requests w)
    (credentials w) (drive_ready w) (S (oauth_calls w)) (refreshes w) (uploads w)
    (db_calls w) (rand_calls w) (opening w) (streams w) (drive_bodies w).
Definition with_refresh (w : World) : World :=
  mkWorld (fs w) (table w) (timers w) (log w) (http_requests w) (drive_requests w)
    (credentials w) (drive_ready w) (oauth_calls w) (S (refreshes w)) (uploads w)
    (db_calls w) (rand_calls w) (opening w) (streams w) (drive_bodies w).
Definition with_upload (w : World) : World :=
  mkWorld (fs w) (table w) (timers w) (log w) (http_requests w) (drive_requests w)
    (credentials w) (drive_ready w) (oauth_calls w) (refreshes w) (S (uploads w))
    (db_calls w) (rand_calls w) (opening w) (streams w) (drive_bodies w).
Definition with_rand_call (w : World) : World :=
  mkWorld (fs w) (table w) (timers w) (log w) (http_requests w) (drive_requests w)
    (credentials w) (drive_ready w) (oauth_calls w) (refreshes w) (uploads w)
    (db_calls w) (S (rand_calls w)) (opening w) (streams w) (drive_bodies w).
Definition with_opening (f : list string -> list string) (w : World) : World :=
  mkWorld (fs w) (table w) (timers w) (log w) (http_requests w) (drive_requests w)
    (credentials w) (drive_ready w) (oauth_calls w) (refreshes w) (uploads w)
    (db_calls w) (rand_calls w) (f (opening w)) (streams w) (drive_bodies w).
Definition with_streams (f : list bool -> list bool) (w : World) : World :=
  mkWorld (fs w) (table w) (timers w) (log w) (http_requests w) (drive_requests w)
    (credentials w) (drive_ready w) (oauth_calls w) (refreshes w) (uploads w)
    (db_calls w) (rand_calls w) (opening w) (f (streams w)) (drive_bodies w).
Definition with_drive_body (b : option Bytes) (w : World) : World :=
  mkWorld (fs w) (table w) (timers w) (log w) (http_requests w) (drive_requests w)
    (credentials w) (drive_ready w) (oauth_calls w) (refreshes w) (uploads w)
    (db_calls w) (rand_calls w) (opening w) (streams w) (drive_bodies w ++ [b]).

(** The event loop completes the pending open of [path]: the file is
    created, or truncated, and is empty. *)
Definition open_completes (path : string) (w : World) : World :=
  with_fs (insert path noBytes) (with_opening (filter (fun p => p <> path)) w).

(** The event loop has nothing left to do: every pending open has
    completed. *)
Definition quiescent (w : World) : World :=
  with_opening (fun _ => [])
    (with_fs (fun files => foldr (fun path files => <[path := noBytes]> files) files
                             (opening w)) w).

(** *** The monad of asynchronous code

    A thrown error keeps the state reached so far: JavaScript undoes
    nothing when a promise rejects. *)
Definition M (A : Type) : Type := World -> Res A * World.

#[export] Instance M_ret : MRet M := fun A a w => (Ok a, w).
#[export] Instance M_bind : MBind M := fun A B f c w =>
  match c w with
  | (Ok a, w') => f a w'
  | (Throw e, w') => (Throw e, w')
  | (Diverge, w') => (Diverge, w')
  end.

Definition throw {A} (e : Error) : M A := fun w => (Throw e, w).
Definition diverge {A} : M A := fun w => (Diverge, w).

(** [try { c } catch (error) { h error }] *)
Definition try_catch {A} (c : M A) (h : Error -> M A) : M A := fun w =>
  match c w with
  | (Ok a, w') => (Ok a, w')
  | (Throw e, w') => h e w'
  | (Diverge, w') => (Diverge, w')
  end.

(** A promise observed through [.then] and [.catch]: its value or the
    error it rejected with. *)
Definition settled {A} (c : M A) : M (Error + A) := fun w =>
  match c w with
  | (Ok a, w') => (Ok (inr a), w')
  | (Throw e, w') => (Ok (inl e), w')
  | (Diverge, w') => (Diverge, w')
  end.

Definition modify (f : World -> World) : M unit := fun w => (Ok tt, f w).
Definition gets {A} (f : World -> A) : M A := fun w => (Ok (f w), w).

Definition logger (l : Level) (msg : string) : M unit := modify (with_log l msg).

(** [await new Promise(resolve => setTimeout(resolve, delay))] *)
Definition sleep (delay : Z) : M unit := modify (with_timer delay).

(** JavaScript truthiness of a possibly missing string. *)
Definition truthy (x : option string) : bool :=
  match x with
  | Some s => negb (String.eqb s "")
  | None => false
  end.

(** [createWriteStream(path)]: the stream is returned at once; the file
    is opened (created or truncated) by the event loop afterwards, and
    nothing in the program awaits that. *)
Definition createWriteStream (path : string) : M unit :=
  modify (with_opening (fun pending => pending ++ [path])).

(** [createReadStream(path)]: a new stream, not yet read. *)
Definition createReadStream (path : string) : M Stream :=
  sid ← gets (fun w => length (streams w));
  modify (with_streams (fun states => states ++ [false]));;
  mret (ReadStream sid path).

(** What [fileStream] has left to give: the file as it is, when the
    stream has not been read; nothing more, when it has ([None] when there
    is no such stream or no such file). *)
Definition remaining (fileStream : Stream) (w : World) : option Bytes :=
  match streams w !! stream_id fileStream with
  | Some true => Some noBytes
  | Some false => fs w !! stream_path fileStream
  | None => None
  end.

(** A request that carries [fileStream] as its body reads it to its
    end. *)
Definition readToEnd (fileStream : Stream) : M (option Bytes) :=
  body ← gets (remaining fileStream);
  modify (with_streams (fun states => <[stream_id fileStream := true]> states));;
  mret body.

End Sys.

(** ** google-auth.service.ts *)

Module GoogleAuthService.
Import Js Sys.

(** [saveTokens]: the write of token.json may fail; the error is logged
    and rethrown. *)
Definition saveTokens (env : Env) (call : nat) : M unit :=
  match token_write env call with
  | Some error =>
      logger ERROR "Failed to save tokens";;
      throw error
  | None => logger LOG "Tokens saved to token.json"
  end.

(** [getAuthClient] *)
Definition getAuthClient : M unit :=
  credentials ← gets credentials;
  if negb (truthy (access_token credentials)) then
    logger LOG "No access token available, authentication required";;
    throw (newError "Authentication required. Please visit /auth/google to authenticate.")
  else mret tt.

(** [refreshAccessToken]: the promise around
    [oauth2Client.refreshAccessToken(callback)]. *)
Definition refreshAccessToken (env : Env) : M string :=
  modify with_refresh;;
  credentials ← gets credentials;
  if negb (truthy (refresh_token credentials)) then
    throw (newError "No refresh token available, re-authentication required")
  else
    call ← gets oauth_calls;
    modify with_oauth_call;;
    match oauth_refresh env call with
    | RefreshError err =>
        logger ERROR "Error refreshing access token";;
        throw err
    | RefreshTokens tokens =>
        match tokens with
        | Some tokens =>
            if truthy (access_token tokens) then
              modify (with_credentials tokens);;
              try_catch (saveTokens env call)
                (fun saveErr => logger WARN "Failed to save refreshed tokens");;
              mret (default "" (access_token tokens))
            else throw (newError "No access token returned")
        | None => throw (newError "No access token returned")
        end
    end.

End GoogleAuthService.

(** ** google-drive.service.ts *)

Module GoogleDriveService.
Import Js Sys.

(** [initializeDriveClient] *)
Definition initializeDriveClient : M unit :=
  try_catch
    (GoogleAuthService.getAuthClient;;
     modify with_drive_ready;;
     logger LOG "Google Drive API initialized successfully")
    (fun error =>
       logger WARN "Drive client initialization deferred - authentication required";;
       throw error).

(** [getDriveClient] *)
Definition getDriveClient : M unit :=
  ready ← gets drive_ready;
  if negb ready then initializeDriveClient else mret tt.

(** [drive.files.create(...)]: the request is recorded with what its
    media body had left to give, and the provider's answer is taken from
    the oracle; [data_id] is [driveResponse.data.id]. *)
Definition files_create_call (env : Env) (fileStream : Stream) (metadata : FileMetadata)
    : M (option string) :=
  call ← gets (fun w => length (drive_requests w));
  body ← readToEnd fileStream;
  modify (with_drive_request
            (mkRequest (name metadata) (mimeType metadata) (mimeType metadata) fileStream));;
  modify (with_drive_body body);;
  match files_create env call with
  | CreateResponse data_id => mret data_id
  | CreateError e => throw e
  end.

(** The test of the catch block: is this an auth-related error? *)
Definition isAuthError (error : Error) : bool :=
  match code error with Some (CodeNum 401) => true | _ => false end
  || str_includes "auth" (message error)
  || str_includes "token" (message error)
  || str_includes "Authentication required" (message error).

Definition reauthenticationRequired : Error :=
  newError "Authentication expired. Please visit /auth/google to re-authenticate with Google Drive.".

(** The body of the [try] block of [uploadFile]. *)
Definition tryUpload (env : Env) (fileStream : Stream) (metadata : FileMetadata)
    : M UploadFileResult :=
  getDriveClient;;
  logger LOG ("Uploading file to Google Drive: " +:+ name metadata);;
  data_id ← files_create_call env fileStream metadata;
  if negb (truthy data_id) then
    throw (newError "File ID was not returned from Google Drive")
  else
    let id := default "" data_id in
    logger LOG ("Successfully uploaded file to Google Drive: " +:+ name metadata
                +:+ ", ID: " +:+ id);;
    mret (mkUpload id ("https://drive.google.com/file/d/" +:+ id +:+ "/view")).

(** [uploadFile].  The retry is [return this.uploadFile(...)]: the
    promise of the recursive call is returned without being awaited, so
    the inner [try] covers the refresh and the re-initialisation only,
    and the outcome of the recursive call is the outcome of this call.
    [fuel] bounds the depth of the recursion. *)
Fixpoint uploadFile (env : Env) (fuel : nat) (fileStream : Stream)
    (metadata : FileMetadata) : M UploadFileResult :=
  match fuel with
  | O => diverge
  | S fuel' =>
      modify with_upload;;
      try_catch (tryUpload env fileStream metadata)
        (fun error =>
           logger ERROR ("Failed to upload file to Google Drive: " +:+ name metadata);;
           if isAuthError error then
             refreshed ← try_catch
               (logger LOG "Attempting to refresh authentication";;
                GoogleAuthService.refreshAccessToken env;;
                initializeDriveClient;;
                logger LOG "Retrying upload with refreshed token";;
                mret true)
               (fun refreshError =>
                  logger ERROR "Token refresh failed, re-authentication required";;
                  mret false);
             if (refreshed : bool) then uploadFile env fuel' fileStream metadata
             else throw reauthenticationRequired
           else throw error)
  end.

End GoogleDriveService.

(** ** file.service.ts: the code the two variants share *)

Module FileService.
Import Js Sys.

Definition MAX_RETRIES : Z := 3.
Definition INITIAL_BACKOFF_TIME : Z := 1000.
Definition MAX_BACKOFF_TIME : Z := 60000.
Definition CHUNK_SIZE : Z := 5 * 1024 * 1024.

(** [isAxiosError] *)
Definition isAxiosError (error : Error) : bool := Js.isAxiosError error.

(** Truthiness of [error.response] and the value of
    [error.response.status]. *)
Definition responseTruthy (r : option Response) : bool :=
  match r with
  | Some (AxiosResponse _) => true
  | Some (BodyString s) => negb (String.eqb s "")
  | Some (BodyObject _) => true
  | None => false
  end.

Definition responseStatus (r : option Response) : option Z :=
  match r with
  | Some (AxiosResponse status) => Some status
  | Some (BodyObject status) => status
  | _ => None
  end.

(** [createTempFilePath] *)
Definition createTempFilePath (env : Env) : M string :=
  call ← gets rand_calls;
  modify with_rand_call;;
  mret (tmpdir env +:+ "/upload-" +:+ randomBytesHex env call).

(** [extractFileNameFromUrl] *)
Definition extractFileNameFromUrl (env : Env) (url : string) : M string :=
  match URL_pathname env url with
  | Some urlPath =>
      let fileName := pop (split "/" urlPath) in
      mret (if truthy fileName then default "" fileName else "unknown-file")
  | None =>
      logger WARN ("Failed to parse URL " +:+ url);;
      mret "unknown-file"
  end.

(** The error with which [axios] rejects. *)
Definition axiosNoResponse (errno : string) : Error :=
  mkError errno (Some (CodeStr errno)) None true true None [].

Definition axiosBadStatus (status : Z) : Error :=
  mkError ("Request failed with status code " +:+ showZ status)
    (if (400 <=? status) && (status <? 500) then Some (CodeStr "ERR_BAD_REQUEST")
     else if (500 <=? status) && (status <? 600) then Some (CodeStr "ERR_BAD_RESPONSE")
     else None)
    (Some (AxiosResponse status)) true true None [].

(** [fs.stat], [fs.access] and [fs.unlink] on the modelled file system:
    each rejects with ENOENT when the path does not exist. *)
Definition ENOENT (path : string) : Error :=
  mkError ("ENOENT: no such file or directory, " +:+ path)
    (Some (CodeStr "ENOENT")) None false false None [].

Definition fs_stat (path : string) : M Z :=
  file ← gets (fun w => fs w !! path);
  match file with
  | Some b => mret (byteLength b)
  | None => throw (ENOENT path)
  end.

Definition fs_access (path : string) : M unit :=
  file ← gets (fun w => fs w !! path);
  match file with
  | Some _ => mret tt
  | None => throw (ENOENT path)
  end.

Definition fs_unlink (path : string) : M unit :=
  file ← gets (fun w => fs w !! path);
  match file with
  | Some _ => modify (with_fs (delete path))
  | None => throw (ENOENT path)
  end.

(** [downloadFile].  The open of the temp file is pending when [axios]
    is called.  A call that rejects before any request goes out rejects
    at once, with the open still pending; a request that goes out takes
    long enough for the event loop to have opened the file by the time
    its outcome is known.  The bytes piped before the stream finishes or
    fails are what the file then holds. *)
Definition downloadFile (env : Env) (url tempFilePath : string)
    : M (Stream * FileMetadata) :=
  createWriteStream tempFilePath;;
  call ← gets (fun w => length (http_requests w));
  modify (with_http_request url);;
  match http_get env call url with
  | NotSent error => throw error
  | NoResponse errno =>
      modify (open_completes tempFilePath);;
      throw (axiosNoResponse errno)
  | HttpResponse status contentTypeHeader contentLengthHeader body =>
      modify (open_completes tempFilePath);;
      if (200 <=? status) && (status <? 300) then
        let contentType :=
          if truthy contentTypeHeader then default "" contentTypeHeader
          else "application/octet-stream" in
        let contentLength := default 0 contentLengthHeader in
        fileName ← extractFileNameFromUrl env url;
        let fileMetadata := mkMeta fileName contentType contentLength in
        match body with
        | BodyStreamError error written =>
            modify (with_fs (insert tempFilePath written));;
            throw error
        | BodyWriteError error written =>
            modify (with_fs (insert tempFilePath written));;
            throw error
        | BodyFinish data =>
            modify (with_fs (insert tempFilePath data));;
            stats_size ← fs_stat tempFilePath;
            let fileMetadata := mkMeta (name fileMetadata) (mimeType fileMetadata) stats_size in
            fileStream ← createReadStream tempFilePath;
            mret (fileStream, fileMetadata)
        end
      else throw (axiosBadStatus status)
  end.

(** [uploadLargeFile] *)
Definition uploadLargeFile (env : Env) (fuel : nat) (filePath : string)
    (metadata : FileMetadata) : M UploadFileResult :=
  fileStream ← createReadStream filePath;
  GoogleDriveService.uploadFile env fuel fileStream metadata.

(** [saveToDB]: [prisma.file.create] *)
Definition saveToDB (env : Env) (fileName : string) (metadata : FileMetadata)
    (uploadResult : UploadFileResult) : M File :=
  call ← gets db_calls;
  modify with_db_call;;
  match prisma_create env call with
  | DbRow row_id now =>
      let file := mkFile row_id fileName (mimeType metadata) (size metadata)
                    (id uploadResult) (url uploadResult) now now in
      rows ← gets table;
      modify (with_table (rows ++ [file]));;
      mret file
  | DbError e => throw e
  end.

(** The inner [try] block of [uploadSingleFile], after the temp path
    has been chosen. *)
Definition transfer (env : Env) (fuel : nat) (url tempFilePath : string) : M File :=
  '(fileStream, fileMetadata) ← downloadFile env url tempFilePath;
  fileName ← extractFileNameFromUrl env url;
  uploadResult ←
    (if CHUNK_SIZE <? size fileMetadata then
       logger LOG ("Using chunked upload for large file: " +:+ fileName +:+ " ("
                   +:+ showZ (size fileMetadata) +:+ " bytes)");;
       uploadLargeFile env fuel tempFilePath fileMetadata
     else GoogleDriveService.uploadFile env fuel fileStream fileMetadata);
  file ← saveToDB env fileName fileMetadata uploadResult;
  logger LOG ("Successfully uploaded file: " +:+ fileName);;
  try_catch (fs_unlink tempFilePath)
    (fun err => logger WARN ("Failed to delete temp file " +:+ tempFilePath +:+ ": "
                             +:+ message err));;
  mret file.

(** The inner [catch] block: remove the temp file if it exists, then
    rethrow. *)
Definition cleanup {A} (tempFilePath : string) (error : Error) : M A :=
  try_catch (fs_access tempFilePath;; fs_unlink tempFilePath) (fun _ => mret tt);;
  throw error.

(** The outer [catch] block: every error leaves as an [HttpException]
    with status 400. *)
Definition rethrowAsHttp {A} (url : string) (error : Error) : M A :=
  logger ERROR ("Error processing file from URL: " +:+ url);;
  if isAxiosError error && responseTruthy (response error) then
    throw (HttpException
             ("Failed to download file: Server responded with status "
              +:+ default "undefined" (showZ <$> responseStatus (response error)))
             BAD_REQUEST)
  else if isAxiosError error && request error then
    throw (HttpException "Failed to download file: No response received from server"
             BAD_REQUEST)
  else
    throw (HttpException ("Failed to upload file: " +:+ message error) BAD_REQUEST).

(** [uploadSingleFile] *)
Definition uploadSingleFile (env : Env) (fuel : nat) (url : string) : M File :=
  try_catch
    (tempFilePath ← createTempFilePath env;
     try_catch (transfer env fuel url tempFilePath) (cleanup tempFilePath))
    (rethrowAsHttp url).

(** The test of the retry loop. *)
Definition isRetryable (error : Error) : bool :=
  match code error with
  | Some (CodeStr c) => String.eqb c "ECONNRESET" || String.eqb c "ETIMEDOUT"
  | _ => false
  end
  || (responseTruthy (response error)
      && match responseStatus (response error) with
         | Some status => includesZ [429; 500; 502; 503; 504] status
         | None => false
         end).

(** [throw lastError]; [lastError] is still [null] only if the loop
    body never ran. *)
Definition throwLast {A} (lastError : option Error) : M A :=
  throw (default (newError "null") lastError).

(** The [while] loop of [processFileUpload] (named
    [uploadSingleFileWithRetry] in the other variant), for any upload
    action in the place of [this.uploadSingleFile(url)].  [fuel] bounds
    the number of iterations. *)
Fixpoint retryWhile (fuel : nat) (upload : M File) (url : string)
    (attempt delay : Z) (lastError : option Error) : M File :=
  if attempt <? MAX_RETRIES then
    match fuel with
    | O => diverge
    | S fuel' =>
        try_catch upload
          (fun error =>
             let lastError := Some error in
             if negb (isRetryable error) then throwLast lastError
             else
               let attempt := attempt + 1 in
               if attempt <? MAX_RETRIES then
                 logger WARN ("Retrying upload (attempt " +:+ showZ attempt +:+ "/"
                              +:+ showZ MAX_RETRIES +:+ ") for URL: " +:+ url);;
                 sleep delay;;
                 retryWhile fuel' upload url attempt
                   (Z.min (delay * 2) MAX_BACKOFF_TIME) lastError
               else retryWhile fuel' upload url attempt delay lastError)
    end
  else throwLast lastError.

Definition retry (upload : M File) (url : string) : M File :=
  retryWhile (Z.to_nat MAX_RETRIES) upload url 0 INITIAL_BACKOFF_TIME None.

(** [processFileUpload] / [uploadSingleFileWithRetry] *)
Definition processFileUpload (env : Env) (fuel : nat) (fileUrl : string) : M File :=
  retry (uploadSingleFile env fuel fileUrl) fileUrl.

End FileService.

(** ** file.service.ts, variant with sequentially awaited batches

    Every batch promise is created, and so every upload started, before
    the first [await]; the uploads settle in an order the code does not
    control.  The model runs each upload to its end, one after the other,
    in a completion order [order] (indices into the URLs of the batches,
    taken in sequence). *)

Module Batched.
Import Js Sys FileService.

(** The [for] loop that cuts [fileUrls] in slices of [batchSize]; [fuel]
    bounds the number of slices. *)
Fixpoint slices (fuel batchSize : nat) (fileUrls : list string) : list (list string) :=
  match fuel, fileUrls with
  | _, [] => []
  | O, _ => []
  | S fuel', _ => take batchSize fileUrls :: slices fuel' batchSize (drop batchSize fileUrls)
  end.

Definition pick (order : list nat) (urls : list string) : list string :=
  omap (fun i => urls !! i) order.

(** The uploads started by the loop, in completion order. *)
Definition tasks (env : Env) (order : list nat) (fileUrls : list string) : list string :=
  pick order (concat (slices (length fileUrls) (MAX_CONCURRENT_UPLOADS env) fileUrls)).

(** The [.then] and [.catch] callbacks attached to each upload, run as
    the uploads settle. *)
Fixpoint settle (env : Env) (fuel : nat) (tasks : list string)
    (uploadedFiles : list File) (failedUploads : list (string * string))
    : M (list File * list (string * string)) :=
  match tasks with
  | [] => mret (uploadedFiles, failedUploads)
  | url :: tasks' =>
      outcome ← settled (processFileUpload env fuel url);
      match outcome with
      | inr file => settle env fuel tasks' (uploadedFiles ++ [file]) failedUploads
      | inl error =>
          logger ERROR ("Failed to upload file from URL: " +:+ url);;
          settle env fuel tasks' uploadedFiles (failedUploads ++ [(url, message error)])
      end
  end.

Definition showFailed (failedUploads : list (string * string)) : string :=
  foldr (fun '(url, reason) acc => url +:+ ": " +:+ reason +:+ "; " +:+ acc) "" failedUploads.

(** [uploadFiles]; the wall-clock figures of the completion message are
    left out and the JSON text of the warning is abbreviated.  With a
    batch size of 0 the slicing loop of a non-empty list never ends. *)
Definition uploadFiles (env : Env) (fuel : nat) (order : list nat)
    (fileUrls : list string) : M (list File) :=
  logger LOG ("Starting batch upload of " +:+ showZ (Z.of_nat (length fileUrls)) +:+ " files");;
  (if (MAX_CONCURRENT_UPLOADS env =? 0)%nat && negb (length fileUrls =? 0)%nat
   then diverge else mret tt);;
  '(uploadedFiles, failedUploads) ← settle env fuel (tasks env order fileUrls) [] [];
  logger LOG ("Batch upload completed. Success: " +:+ showZ (Z.of_nat (length uploadedFiles))
              +:+ ", Failed: " +:+ showZ (Z.of_nat (length failedUploads)));;
  if (0 <? length failedUploads)%nat && (length uploadedFiles =? 0)%nat then
    throw (HttpExceptionObj "All file uploads failed" failedUploads BAD_REQUEST)
  else
    (if (0 <? length failedUploads)%nat then
       logger WARN ("Some files failed to upload: " +:+ showFailed failedUploads)
     else mret tt);;
    mret uploadedFiles.

End Batched.

(** ** file.service.ts, variant with the p-limit limiter

    The limiter, built for a positive [MAX_CONCURRENT_UPLOADS], bounds how
    many uploads are in flight; as in the other variant the model runs
    each upload to its end in a completion order [order]. *)

Module Limited.
Import Js Sys FileService.

Definition SUPPORTED : list string :=
  [".jpg"; ".jpeg"; ".png"; ".gif"; ".pdf"; ".doc"; ".docx";
   ".xls"; ".xlsx"; ".txt"; ".csv"; ".mp3"; ".mp4"; ".avi";
   ".mov"; ".zip"; ".rar"].

(** The callback of [fileUrls.forEach] in [validateFileUrls]: the entry
    pushed on [invalidUrls], if any. *)
Definition checkUrl (env : Env) (url : string) : M (option (string * string)) :=
  match URL_pathname env url with
  | Some _ =>
      fileName ← extractFileNameFromUrl env url;
      let fileExtension := toLowerCase (extname env fileName) in
      if String.eqb fileExtension "" || String.eqb fileExtension "." then
        mret (Some (url, "Missing file extension. Please provide a URL with a valid file extension."))
      else if negb (includes SUPPORTED (Some fileExtension)) then
        mret (Some (url, "File extension " +:+ dquote +:+ fileExtension +:+ dquote
                         +:+ " is not supported."))
      else mret None
  | None => mret (Some (url, "Invalid URL format"))
  end.

Fixpoint collectInvalid (env : Env) (fileUrls : list string)
    (invalidUrls : list (string * string)) : M (list (string * string)) :=
  match fileUrls with
  | [] => mret invalidUrls
  | url :: rest =>
      entry ← checkUrl env url;
      collectInvalid env rest
        (match entry with Some e => invalidUrls ++ [e] | None => invalidUrls end)
  end.

(** [validateFileUrls] *)
Definition validateFileUrls (env : Env) (fileUrls : list string) : M unit :=
  invalidUrls ← collectInvalid env fileUrls [];
  if (0 <? length invalidUrls)%nat then
    throw (HttpExceptionObj "Invalid file URLs detected" invalidUrls BAD_REQUEST)
  else mret tt.

(** [Promise.all(uploadPromises)]: the uploads settle in completion
    order; the first rejection rejects the whole, while the uploads still
    in flight run on.  Returns the fulfilled values by input index and
    the first rejection, if any. *)
Fixpoint promiseAll (env : Env) (fuel : nat) (tasks : list (nat * string))
    (fulfilled : list (nat * File)) (rejected : option Error)
    : M (list (nat * File) * option Error) :=
  match tasks with
  | [] => mret (fulfilled, rejected)
  | (i, url) :: tasks' =>
      outcome ← settled (processFileUpload env fuel url);
      match outcome with
      | inr file => promiseAll env fuel tasks' (fulfilled ++ [(i, file)]) rejected
      | inl error =>
          promiseAll env fuel tasks' fulfilled
            (match rejected with Some e => Some e | None => Some error end)
      end
  end.

Definition pickIndexed (order : list nat) (fileUrls : list string) : list (nat * string) :=
  omap (fun i => (fun url => (i, url)) <$> fileUrls !! i) order.

(** The array [Promise.all] resolves to, the values in input order,
    after [.filter(Boolean)] (every [File] object is truthy). *)
Definition inInputOrder (n : nat) (fulfilled : list (nat * File)) : list File :=
  omap (fun i => snd <$> find (fun p => Nat.eqb (fst p) i) fulfilled) (seq 0 n).

(** [uploadFiles] *)
Definition uploadFiles (env : Env) (fuel : nat) (order : list nat)
    (fileUrls : list string) : M (list File) :=
  if (length fileUrls =? 0)%nat then
    throw (HttpException "No file URLs provided" BAD_REQUEST)
  else
    validateFileUrls env fileUrls;;
    '(fulfilled, rejected) ← promiseAll env fuel (pickIndexed order fileUrls) [] None;
    match rejected with
    | None => mret (inInputOrder (length fileUrls) fulfilled)
    | Some error =>
        logger ERROR ("Failed to upload files: " +:+ message error);;
        throw (HttpException ("Failed to upload files: " +:+ message error) BAD_REQUEST)
    end.

End Limited.

(** ** file.controller.ts and the global ValidationPipe of main.ts *)

Module FileController.
Import Js Sys.

(** [error instanceof HttpException] *)
Definition isHttpException (error : Error) : bool :=
  match http_status error with Some _ => true | None => false end.

(** [uploadFiles], in the controller that comes with the DTO: an
    [HttpException] of the service is rethrown as it is; the three
    remaining branches all answer 400 with the message of the error.  (The
    other controller of the repository answers 500 in their place.) *)
Definition uploadFiles (service : M (list File)) : M (list File) :=
  try_catch service
    (fun error =>
       if isHttpException error then throw error
       else
         throw (mkError "Http Exception" None (Some (BodyObject (Some BAD_REQUEST)))
                  false false (Some BAD_REQUEST)
                  [("error", if String.eqb (message error) ""
                             then "Failed to process upload request"
                             else message error)])).

End FileController.

Module ValidationPipe.
Import Js Sys.

(** The class-validator constraints of [UploadFilesDto.fileUrls] on an
    array of strings: the messages of the constraints that fail. *)
Definition validate (env : Env) (fileUrls : list string) : list string :=
  (if (length fileUrls <? 1)%nat then ["At least one file URL must be provided"] else [])
  ++ (if (10 <? length fileUrls)%nat then ["Maximum 10 file URLs are allowed at once"] else [])
  ++ (if forallb (isURL env) fileUrls then []
      else ["Each URL must be a valid HTTP or HTTPS URL"]).

(** The [BadRequestException] the pipe builds from failed constraints. *)
Definition BadRequestException (messages : list string) : Error :=
  mkError "Bad Request Exception" None (Some (BodyObject None)) false false
    (Some BAD_REQUEST) ((fun m => ("fileUrls", m)) <$> messages).

(** [ValidationPipe.transform]: class-transformer builds the DTO first,
    running [@Transform], whose throw leaves the pipe as it is; then the
    constraints are checked. *)
Definition transform (env : Env) (body : list string) : Res (list string) :=
  match Dto.Transform body with
  | Ok fileUrls =>
      match validate env fileUrls with
      | [] => Ok fileUrls
      | messages => Throw (BadRequestException messages)
      end
  | Throw e => Throw e
  | Diverge => Diverge
  end.

(** POST /files/upload: the pipe, then the controller around the
    service. *)
Definition postUpload (env : Env) (service : list string -> M (list File))
    (body : list string) : M (list File) :=
  match transform env body with
  | Ok fileUrls => FileController.uploadFiles (service fileUrls)
  | Throw e => throw e
  | Diverge => diverge
  end.

(** The status of the HTTP response: 201 for a handler that returns,
    the status of a thrown [HttpException], and 500 from Nest's default
    exception filter for any other thrown value. *)
Definition statusCode {A} (r : Res A) : option Z :=
  match r with
  | Ok _ => Some 201
  | Throw e => Some (default INTERNAL_SERVER_ERROR (http_status e))
  | Diverge => None
  end.

End ValidationPipe.

(** ** A concrete platform and a quiet world, for worked examples *)

Module Demo.
Import Js Sys.

(** A small URL reader sufficient for the examples: scheme, [://],
    authority, then the path up to [?] or [#]. *)
Fixpoint upTo (stop : ascii -> bool) (s : string) : string :=
  match s with
  | EmptyString => EmptyString
  | String c s' => if stop c then EmptyString else String c (upTo stop s')
  end.

Fixpoint from (c : ascii) (s : string) : option string :=
  match s with
  | EmptyString => None
  | String a s' => if Ascii.eqb a c then Some s else from c s'
  end.

Fixpoint afterScheme (s : string) : option string :=
  match s with
  | String ":" (String "/" (String "/" rest)) => Some rest
  | String _ s' => afterScheme s'
  | EmptyString => None
  end.

Definition pathname (url : string) : option string :=
  rest ← afterScheme url;
  Some (upTo (fun c => Ascii.eqb c "?" || Ascii.eqb c "#")
          (default "/" (from "/" rest))).

(** [path.extname] on a name without separators, for names that do not
    start with a dot. *)
Definition extname (fileName : string) : string :=
  match split "." fileName with
  | [_] => ""
  | parts => "." +:+ default "" (last parts)
  end.

Definition isURL (url : string) : bool :=
  startsWith "http://" url || startsWith "https://" url.

Definition pdfBytes : Bytes := mkBytes "pdf-bytes" 2048.
Definition bigBytes : Bytes := mkBytes "video-bytes" (6 * 1024 * 1024).

Definition ok200 (data : Bytes) : HttpOutcome :=
  HttpResponse 200 (Some "application/pdf") (Some (byteLength data)) (BodyFinish data).

(** Every download succeeds, the provider accepts every upload and the
    database every insert. *)
Definition env : Env :=
  mkEnv 3 "/tmp"
    (fun k => "r" +:+ showZ (Z.of_nat k))
    (fun _ _ => ok200 pdfBytes)
    (fun k => CreateResponse (Some ("drive-" +:+ showZ (Z.of_nat k))))
    (fun _ => RefreshTokens (Some (mkCred (Some "fresh") (Some "refresh"))))
    (fun _ => None)
    (fun k => DbRow ("row-" +:+ showZ (Z.of_nat k)) (Z.of_nat k))
    pathname extname isURL.

Definition with_http (h : nat -> string -> HttpOutcome) (e : Env) : Env :=
  mkEnv (MAX_CONCURRENT_UPLOADS e) (tmpdir e) (randomBytesHex e) h (files_create e) (oauth_refresh e)
    (token_write e) (prisma_create e) (URL_pathname e) (Sys.extname e) (Sys.isURL e).

Definition with_drive (d : nat -> CreateOutcome) (e : Env) : Env :=
  mkEnv (MAX_CONCURRENT_UPLOADS e) (tmpdir e) (randomBytesHex e) (http_get e) d (oauth_refresh e)
    (token_write e) (prisma_create e) (URL_pathname e) (Sys.extname e) (Sys.isURL e).

Definition with_oauth (o : nat -> RefreshOutcome) (e : Env) : Env :=
  mkEnv (MAX_CONCURRENT_UPLOADS e) (tmpdir e) (randomBytesHex e) (http_get e) (files_create e) o
    (token_write e) (prisma_create e) (URL_pathname e) (Sys.extname e) (Sys.isURL e).

(** A server that answers 503 to the first two requests and 200 from
    the third on. *)
Definition busyTwice : Env :=
  with_http (fun k _ => if (k <? 2)%nat
                        then HttpResponse 503 None None (BodyFinish noBytes)
                        else ok200 pdfBytes) env.

(** A provider that rejects the first two uploads with 401 and accepts
    the third. *)
Definition unauthorized : Error :=
  mkError "Invalid Credentials" (Some (CodeNum 401)) None false false None [].




(** A provider that rejects every upload with 401, and an OAuth endpoint
    that refuses to refresh. *)
Definition refreshDenied : Env :=
  with_oauth (fun _ => RefreshError (newError "invalid_grant"))
    (with_drive (fun _ => CreateError unauthorized) env).

(** A server that sends a 6 MB body. *)
Definition bigDownload : Env := with_http (fun _ _ => ok200 bigBytes) env.

Definition reportMeta : FileMetadata := mkMeta "report.pdf" "application/pdf" 2048.

(** A server on which b.pdf is missing. *)
Definition missingB : Env :=
  with_http (fun _ url => if String.eqb url "https://example.com/b.pdf"
                          then HttpResponse 404 None None (BodyFinish noBytes)
                          else ok200 pdfBytes) env.

Definition threeUrls : list string :=
  ["https://example.com/a.pdf"; "https://example.com/b.pdf"; "https://example.com/c.pdf"].

(** An authenticated service with an initialised Drive client, an empty
    table and an empty temp directory. *)
Definition world : World :=
  mkWorld ∅ [] [] [] [] [] (mkCred (Some "access") (Some "refresh")) true 0 0 0 0 0
    [] [] [].

(** A client that sends requests to web servers only: for any other
    URL [axios] rejects before a request is made. *)
Definition unsupportedProtocol : Error :=
  mkError "Unsupported protocol ftp:" (Some (CodeStr "ERR_BAD_REQUEST")) None false true
    None [].

Definition webOnly : Env :=
  with_http (fun _ url => if isURL url then ok200 pdfBytes
                          else NotSent unsupportedProtocol) env.


(** The same service after a.pdf has been downloaded to a temp file:
    the file is on disk and its read stream is open, unread. *)
Definition downloaded : World :=
  mkWorld {["/tmp/upload-r0" := pdfBytes]} [] [] [] ["https://example.com/a.pdf"] []
    (mkCred (Some "access") (Some "refresh")) true 0 0 0 0 1 [] [false] [].

Definition pdfStream : Stream := ReadStream 0 "/tmp/upload-r0".

End Demo.

(** ** Vocabulary of the properties *)

Module Spec.
Import Js Sys.

(** [keeps p c]: whatever its outcome, [c] leaves the component [p] of
    the world as it found it. *)
Definition keeps {X A : Type} (p : World -> X) (c : M A) : Prop :=
  forall w, p (c w).2 = p w.

(** [settles c]: [c] always comes to an outcome. *)
Definition settles {A} (c : M A) : Prop := forall w, (c w).1 <> Diverge.

(** [wp c w Q]: the outcome of [c] from [w] and the world it leaves
    satisfy [Q]. *)
Definition wp {A} (c : M A) (w : World) (Q : Res A -> World -> Prop) : Prop :=
  Q (c w).1 (c w).2.

Arguments wp {A} c w Q : simpl never.

(** The delays the retry loop goes through, starting from [delay]. *)
Fixpoint backoffs (delay : Z) (k : nat) : list Z :=
  match k with
  | O => []
  | S k' => delay :: backoffs (Z.min (delay * 2) FileService.MAX_BACKOFF_TIME) k'
  end.

(** What a call of [uploadFile] has done when it ends, in terms of [k],
    the number of token refreshes it started.  A value or an error other
    than the terminal one is the outcome of the last attempt. *)
Definition accounted (env : Env) (fileStream : Stream) (metadata : FileMetadata)
    (fuel : nat) (w : World) (r : Res UploadFileResult) (w' : World) : Prop :=
  exists k : nat,
    refreshes w' = (refreshes w + k)%nat
    /\ match r with
       | Ok u =>
           uploads w' = (uploads w + k + 1)%nat
           /\ exists w1, (GoogleDriveService.tryUpload env fileStream metadata w1).1 = Ok u
       | Throw e =>
           (e = GoogleDriveService.reauthenticationRequired
            /\ uploads w' = (uploads w + k)%nat /\ (1 <= k)%nat)
           \/ (GoogleDriveService.isAuthError e = false
               /\ uploads w' = (uploads w + k + 1)%nat
               /\ exists w1,
                    (GoogleDriveService.tryUpload env fileStream metadata w1).1 = Throw e)
       | Diverge => k = fuel /\ uploads w' = (uploads w + fuel)%nat
       end.

(** The provider answered a request sent between [w] and [w'] with the
    non-empty id [data_id]. *)
Definition confirmedBetween (env : Env) (w w' : World) (data_id : string) : Prop :=
  exists k : nat,
    (length (drive_requests w) <= k < length (drive_requests w'))%nat
    /\ files_create env k = CreateResponse (Some data_id)
    /\ data_id <> "".

(** A FileRecord whose Drive id was confirmed by the provider during the
    run from [w] to [w']. *)
Definition recorded (env : Env) (w w' : World) (file : File) : Prop :=
  confirmedBetween env w w' (driveFileId file).

(** The three components the pipeline properties are about. *)
Definition stores (w : World) : list File * list DriveRequest * gmap string Bytes :=
  (table w, drive_requests w, fs w).

(** The path [createTempFilePath] hands out in world [w]. *)
Definition tempFilePathIn (env : Env) (w : World) : string :=
  tmpdir env +:+ "/upload-" +:+ randomBytesHex env (rand_calls w).

(** The file name and the extension the service derives from the path of
    a URL. *)
Definition fileNameOf (env : Env) (url : string) : string :=
  match URL_pathname env url with
  | Some urlPath =>
      let fileName := pop (split "/" urlPath) in
      if truthy fileName then default "" fileName else "unknown-file"
  | None => "unknown-file"
  end.

Definition pathExtension (env : Env) (url : string) : string :=
  toLowerCase (extname env (fileNameOf env url)).

(** An entry the service refuses: not parsable as a URL, without an
    extension in its path, or with one outside the allow-list. *)
Definition offending (env : Env) (url : string) : bool :=
  match URL_pathname env url with
  | None => true
  | Some _ =>
      String.eqb (pathExtension env url) "" || String.eqb (pathExtension env url) "."
      || negb (includes Limited.SUPPORTED (Some (pathExtension env url)))
  end.

(** The reason the service gives for an entry it refuses. *)
Definition reasonFor (env : Env) (url : string) : string :=
  match URL_pathname env url with
  | None => "Invalid URL format"
  | Some _ =>
      if String.eqb (pathExtension env url) "" || String.eqb (pathExtension env url) "."
      then "Missing file extension. Please provide a URL with a valid file extension."
      else "File extension " +:+ dquote +:+ pathExtension env url +:+ dquote
           +:+ " is not supported."
  end.

(** The entries the service refuses, in order, each with its reason. *)
Definition refusals (env : Env) (fileUrls : list string) : list (string * string) :=
  (fun url => (url, reasonFor env url))
    <$> filter (fun url => offending env url = true) fileUrls.

(** The messages of the constraints on the list [fileUrls] of the DTO. *)
Definition urlMessage : string := "Each URL must be a valid HTTP or HTTPS URL".

Definition listMessages : list string :=
  ["At least one file URL must be provided"; "Maximum 10 file URLs are allowed at once";
   urlMessage].

(** An entry the DTO transform refuses: the last dot-separated segment of
    the whole string is deny-listed or not allow-listed. *)
Definition dtoOffending (url : string) : bool :=
  includes Dto.DANGEROUS_FILE_EXTENSIONS (Dto.urlExtension url)
  || negb (includes Dto.SUPPORTED_FILE_EXTENSIONS (Dto.urlExtension url)).

End Spec.

(** ** Further code of the repository *)

(** The listing query of file.service.ts. *)
Module FileQueries.
Import Js Sys.

Definition newerFirst (a b : File) : Prop := createdAt b <= createdAt a.

#[export] Instance newerFirst_dec a b : Decision (newerFirst a b) :=
  Z_le_dec (createdAt b) (createdAt a).

(** [getAllFiles]: [prisma.file.findMany({ orderBy: { createdAt: 'desc' } })].
    Among rows of equal [createdAt] the order is that of the sort used
    here; the database promises none. *)
Definition getAllFiles : M (list File) :=
  rows ← gets table;
  mret (merge_sort newerFirst rows).

End FileQueries.

(** The other file.controller.ts of the repository. *)
Module FileControllerPlain.
Import Js Sys.

(** [uploadFiles]: any error that is not an [HttpException] becomes a 500. *)
Definition uploadFiles (service : M (list File)) : M (list File) :=
  try_catch service
    (fun error =>
       if FileController.isHttpException error then throw error
       else throw (HttpException "Failed to process upload request" INTERNAL_SERVER_ERROR)).

(** [getAllFiles], the same in both controllers. *)
Definition getAllFiles : M (list File) := FileQueries.getAllFiles.

End FileControllerPlain.

(** Start-up of google-drive.service.ts. *)
Module GoogleDriveBoot.
Import Js Sys.

(** [onModuleInit]: a failed initialisation is logged, not thrown. *)
Definition onModuleInit : M unit :=
  try_catch
    (logger LOG "Initializing Google Drive Service";;
     GoogleDriveService.initializeDriveClient)
    (fun error => logger ERROR "Failed to initialize Google Drive API").

End GoogleDriveBoot.

(** The authorization-code flow: google-auth.service.ts
    ([handleAuthCallback]) and google-auth.controller.ts. *)
Module GoogleAuthFlow.
Import Js Sys.

(** The answer of the token endpoint to [oauth2Client.getToken(code)]. *)
Inductive TokenOutcome :=
| TokenError (e : Error)
| Tokens (tokens : Credentials).

(** [handleAuthCallback]; [getToken] answers by number of the call to the
    OAuth endpoint and by code. *)
Definition handleAuthCallback (env : Env) (getToken : nat -> string -> TokenOutcome)
    (code : string) : M unit :=
  call ← gets oauth_calls;
  modify with_oauth_call;;
  match getToken call code with
  | TokenError e => throw e
  | Tokens tokens =>
      modify (with_credentials tokens);;
      GoogleAuthService.saveTokens env call;;
      logger LOG "Successfully authenticated with Google"
  end.

(** What [res.status(...).send(...)] sends: the status and, for the HTML
    pages, their heading and message. *)
Record Reply := mkReply { reply_status : Z; reply_text : string }.

(** [googleAuthRedirectCallback]; [code] is the query parameter, absent
    or present. *)
Definition googleAuthRedirectCallback (env : Env)
    (getToken : nat -> string -> TokenOutcome) (code : option string) : M Reply :=
  if negb (truthy code) then
    logger ERROR "No authorization code provided";;
    mret (mkReply 400 "No authorization code provided")
  else
    try_catch
      (logger LOG "Processing authorization code from Google callback";;
       handleAuthCallback env getToken (default "" code);;
       mret (mkReply 200 "Authentication Successful!"))
      (fun error =>
         logger ERROR ("Authentication failed: " +:+ message error);;
         mret (mkReply 500 ("Authentication Failed. Error: " +:+ message error))).

End GoogleAuthFlow.

(** Worlds and environments for the worked examples of the further
    properties. *)
Module Demo2.
Import Js Sys.

(** No tokens at all and no Drive client: the service before anyone has
    authenticated. *)
Definition unauthenticated : World :=
  mkWorld ∅ [] [] [] [] [] (mkCred None None) false 0 0 0 0 0 [] [] [].

(** A provider that answers without a file id. *)
Definition noId : Env := Demo.with_drive (fun _ => CreateResponse None) Demo.env.

(** A server that declares 10 bytes and sends 2048. *)
Definition lyingLength : Env :=
  Demo.with_http (fun _ _ => HttpResponse 200 None (Some 10) (BodyFinish Demo.pdfBytes))
    Demo.env.

(** A server that does not answer. *)
Definition silent : Env := Demo.with_http (fun _ _ => NoResponse "ETIMEDOUT") Demo.env.

(** An upload action that records a request and meets a connection reset,
    thrown as it is. *)
Definition resettingCounted : M File :=
  modify (with_http_request "https://example.com/a.pdf");;
  throw (FileService.axiosNoResponse "ECONNRESET").

(** A token endpoint that accepts every code, and a disk that refuses the
    token file. *)
Definition grant : nat -> string -> GoogleAuthFlow.TokenOutcome :=
  fun _ _ => GoogleAuthFlow.Tokens (mkCred (Some "granted") (Some "kept")).

Definition readOnlyDisk : Env :=
  mkEnv (MAX_CONCURRENT_UPLOADS Demo.env) (tmpdir Demo.env) (randomBytesHex Demo.env)
    (http_get Demo.env) (files_create Demo.env) (oauth_refresh Demo.env)
    (fun _ => Some (newError "EROFS: read-only file system, open token.json"))
    (prisma_create Demo.env) (URL_pathname Demo.env) (extname Demo.env) (isURL Demo.env).

End Demo2.

(** Vocabulary of the further properties. *)
Module Cases.
Import Js Sys.

(** Why the download of [url], requested in world [w], fails before any
    byte is written, when the request went out: no response, or a status
    outside 2xx. *)
Definition downloadFailure (env : Env) (w : World) (url : string) : option string :=
  match http_get env (length (http_requests w)) url with
  | NoResponse _ => Some "No response received from server"
  | HttpResponse status _ _ _ =>
      if (200 <=? status) && (status <? 300) then None
      else Some ("Server responded with status " +:+ showZ status)
  | NotSent _ => None
  end.

(** What a download that does not get a 2xx answer leaves. *)
Definition failedDownload (url tempFilePath : string) (w : World) : World :=
  open_completes tempFilePath
    (with_http_request url (with_opening (fun pending => pending ++ [tempFilePath]) w)).

(** The environment [env] with another disk under token.json. *)
Definition with_token_write (tw : nat -> option Error) (env : Env) : Env :=
  mkEnv (MAX_CONCURRENT_UPLOADS env) (tmpdir env) (randomBytesHex env) (http_get env)
    (files_create env) (oauth_refresh env) tw (prisma_create env) (URL_pathname env)
    (extname env) (isURL env).

(** The one request [uploadFile] makes of the provider for a stream and
    its metadata. *)
Definition requestFor (fileStream : Stream) (metadata : FileMetadata) : DriveRequest :=
  mkRequest (name metadata) (mimeType metadata) (mimeType metadata) fileStream.

(** The MIME type [downloadFile] records for a response. *)
Definition contentTypeOf (contentTypeHeader : option string) : string :=
  if truthy contentTypeHeader then default "" contentTypeHeader
  else "application/octet-stream".

(** The world [w] with [lines] added to its log. *)
Definition logged (lines : list (Level * string)) (w : World) : World :=
  mkWorld (fs w) (table w) (timers w) (log w ++ lines) (http_requests w)
    (drive_requests w) (credentials w) (drive_ready w) (oauth_calls w) (refreshes w)
    (uploads w) (db_calls w) (rand_calls w) (opening w) (streams w) (drive_bodies w).

(** The world after [fileStream] has gone to the provider as the body of
    a request: the request and what the provider was sent are recorded,
    and the stream has been read. *)
Definition sent (fileStream : Stream) (metadata : FileMetadata) (w : World) : World :=
  with_drive_body (remaining fileStream w)
    (with_drive_request (requestFor fileStream metadata)
       (with_streams (fun states => <[stream_id fileStream := true]> states) w)).

(** What an attempt of [uploadFile] ends with when the provider gives
    [answer]. *)
Definition answered (answer : CreateOutcome) : Res UploadFileResult :=
  match answer with
  | CreateResponse data_id =>
      if truthy data_id then
        Ok (mkUpload (default "" data_id)
              ("https://drive.google.com/file/d/" +:+ default "" data_id +:+ "/view"))
      else Throw (newError "File ID was not returned from Google Drive")
  | CreateError e => Throw e
  end.


(** The world a granted refresh leaves, up to its log. *)
Definition refreshed (tokens : Credentials) (w : World) : World :=
  with_drive_ready (with_credentials tokens (with_oauth_call (with_refresh w))).


(** The stream [uploadSingleFile] hands to [uploadFile] for a download of
    [data] started in world [w]: the one [downloadFile] opened, or above
    the threshold the one [uploadLargeFile] opens after it. *)
Definition uploadedStream (env : Env) (w : World) (data : Bytes) : Stream :=
  ReadStream
    (if FileService.CHUNK_SIZE <? byteLength data then S (length (streams w))
     else length (streams w))
    (Spec.tempFilePathIn env w).

(** The world a download of [data] to [tempFilePath] leaves, up to its
    log: the open has completed, the file holds [data], and an unread
    stream on it is open. *)
Definition finishedDownload (url tempFilePath : string) (data : Bytes) (w : World)
    : World :=
  with_streams (fun states => states ++ [false])
    (with_fs (insert tempFilePath data)
       (open_completes tempFilePath
          (with_http_request url
             (with_opening (fun pending => pending ++ [tempFilePath]) w)))).

(** A request without the identity of its media stream, and the world
    without its read streams: what the run has done, apart from which
    stream object carried the file. *)
Definition anonymous (r : DriveRequest) : DriveRequest :=
  mkRequest (requestBody_name r) (requestBody_mimeType r) (media_mimeType r)
    (ReadStream 0 (stream_path (media_body r))).

Definition besidesStreams (w : World) : World :=
  mkWorld (fs w) (table w) (timers w) (log w) (http_requests w)
    (anonymous <$> drive_requests w) (credentials w) (drive_ready w) (oauth_calls w)
    (refreshes w) (uploads w) (db_calls w) (rand_calls w) (opening w) []
    (drive_bodies w).

(** The two worlds agree besides their streams, and [s1] in the one is
    as far read as [s2] in the other. *)
Definition alike (s1 s2 : Stream) (w1 w2 : World) : Prop :=
  besidesStreams w1 = besidesStreams w2
  /\ streams w1 !! stream_id s1 = streams w2 !! stream_id s2.

(** From alike worlds, the two computations give the same outcome and
    leave alike worlds. *)
Definition respects (s1 s2 : Stream) {A} (c1 c2 : M A) : Prop :=
  forall w1 w2,
    alike s1 s2 w1 w2 -> (c1 w1).1 = (c2 w2).1 /\ alike s1 s2 (c1 w1).2 (c2 w2).2.

(** The three components a request to the provider shows in. *)
Definition sendings (w : World) : list DriveRequest * list (option Bytes) * list bool :=
  (drive_requests w, drive_bodies w, streams w).

(** [ends r w1 r' w']: the outcome [r'] is [r] and the world [w'] is [w1]
    up to lines added to the log. *)
Definition ends {A} (r : Res A) (w1 : World) (r' : Res A) (w' : World) : Prop :=
  r' = r /\ exists lines, w' = logged lines w1.


End Cases.

(** A database that refuses every insert. *)
Module Demo3.
Import Js Sys.

Definition dbDown : Env :=
  mkEnv (MAX_CONCURRENT_UPLOADS Demo.env) (tmpdir Demo.env) (randomBytesHex Demo.env)
    (http_get Demo.env) (files_create Demo.env) (oauth_refresh Demo.env)
    (token_write Demo.env)
    (fun _ => DbError (newError "Can't reach database server"))
    (URL_pathname Demo.env) (extname Demo.env) (isURL Demo.env).

End Demo3.

(** * Properties *)

Import Js Sys Spec.

(** ** Reasoning about monadic code *)

Section Frames.
Context {X : Type} (p : World -> X).

Lemma keeps_ret {A} (a : A) : keeps p (mret a).
Proof. intros w. reflexivity. Qed.

Lemma keeps_throw {A} e : keeps p (@throw A e).
Proof. intros w. reflexivity. Qed.

Lemma keeps_diverge {A} : keeps p (@diverge A).
Proof. intros w. reflexivity. Qed.

Lemma keeps_gets {A} (f : World -> A) : keeps p (gets f).
Proof. intros w. reflexivity. Qed.

Lemma keeps_modify f : (forall w, p (f w) = p w) -> keeps p (modify f).
Proof. intros H w. apply H. Qed.

Lemma keeps_bind {A B} (c : M A) (f : A -> M B) :
  keeps p c -> (forall a, keeps p (f a)) -> keeps p (c ≫= f).
Proof.
  intros Hc Hf w. unfold mbind, M_bind. specialize (Hc w).
  destruct (c w) as [[a|e|] w1]; simpl in *; try assumption.
  rewrite Hf. assumption.
Qed.

Lemma keeps_try_catch {A} (c : M A) h :
  keeps p c -> (forall e, keeps p (h e)) -> keeps p (try_catch c h).
Proof.
  intros Hc Hh w. unfold try_catch. specialize (Hc w).
  destruct (c w) as [[a|e|] w1]; simpl in *; try assumption.
  rewrite Hh. assumption.
Qed.

Lemma keeps_settled {A} (c : M A) : keeps p c -> keeps p (settled c).
Proof.
  intros Hc w. unfold settled. specialize (Hc w).
  destruct (c w) as [[a|e|] w1]; simpl in *; assumption.
Qed.

End Frames.

Ltac keeps_step :=
  match goal with
  | |- keeps _ (mret _) => apply keeps_ret
  | |- keeps _ (throw _) => apply keeps_throw
  | |- keeps _ diverge => apply keeps_diverge
  | |- keeps _ (gets _) => apply keeps_gets
  | |- keeps _ (logger _ _) => apply keeps_modify; intros; reflexivity
  | |- keeps _ (sleep _) => apply keeps_modify; intros; reflexivity
  | |- keeps _ (modify _) => apply keeps_modify; intros; reflexivity
  | |- keeps _ (_ ≫= _) => apply keeps_bind
  | |- keeps _ (try_catch _ _) => apply keeps_try_catch
  | |- keeps _ (settled _) => apply keeps_settled
  | |- keeps _ (if ?b then _ else _) => destruct b
  | |- keeps _ (match ?x with _ => _ end) => destruct x
  | |- forall _, _ => intros ?
  end.

Ltac keeps_tac := repeat keeps_step; eauto.

Section Outcomes.

Lemma settles_ret {A} (a : A) : settles (mret a).
Proof. intros w. discriminate. Qed.

Lemma settles_throw {A} e : settles (@throw A e).
Proof. intros w. discriminate. Qed.

Lemma settles_gets {A} (f : World -> A) : settles (gets f).
Proof. intros w. discriminate. Qed.

Lemma settles_modify f : settles (modify f).
Proof. intros w. discriminate. Qed.

Lemma settles_bind {A B} (c : M A) (f : A -> M B) :
  settles c -> (forall a, settles (f a)) -> settles (c ≫= f).
Proof.
  intros Hc Hf w. unfold mbind, M_bind. specialize (Hc w).
  destruct (c w) as [[a|e|] w1]; simpl in *; [apply Hf | discriminate | congruence].
Qed.

Lemma settles_try_catch {A} (c : M A) h :
  settles c -> (forall e, settles (h e)) -> settles (try_catch c h).
Proof.
  intros Hc Hh w. unfold try_catch. specialize (Hc w).
  destruct (c w) as [[a|e|] w1]; simpl in *; [discriminate | apply Hh | congruence].
Qed.

Lemma wp_ret {A} (a : A) w Q : Q (Ok a) w -> wp (mret a) w Q.
Proof. auto. Qed.

Lemma wp_throw {A} e w (Q : Res A -> World -> Prop) : Q (Throw e) w -> wp (throw e) w Q.
Proof. auto. Qed.

Lemma wp_diverge {A} w (Q : Res A -> World -> Prop) : Q Diverge w -> wp diverge w Q.
Proof. auto. Qed.

Lemma wp_gets {A} (f : World -> A) w Q : Q (Ok (f w)) w -> wp (gets f) w Q.
Proof. auto. Qed.

Lemma wp_modify f w Q : Q (Ok tt) (f w) -> wp (modify f) w Q.
Proof. auto. Qed.

Lemma wp_readToEnd fileStream w Q :
  Q (Ok (remaining fileStream w))
    (with_streams (fun states => <[stream_id fileStream := true]> states) w) ->
  wp (readToEnd fileStream) w Q.
Proof. auto. Qed.

Lemma wp_createReadStream path w Q :
  Q (Ok (ReadStream (length (streams w)) path))
    (with_streams (fun states => states ++ [false]) w) ->
  wp (createReadStream path) w Q.
Proof. auto. Qed.

Lemma wp_bind {A B} (c : M A) (f : A -> M B) w Q :
  wp c w (fun r w1 => match r with
                      | Ok a => wp (f a) w1 Q
                      | Throw e => Q (Throw e) w1
                      | Diverge => Q Diverge w1
                      end) ->
  wp (c ≫= f) w Q.
Proof.
  unfold wp, mbind, M_bind. destruct (c w) as [[a|e|] w1]; simpl; auto.
Qed.

Lemma wp_try_catch {A} (c : M A) h w Q :
  wp c w (fun r w1 => match r with
                      | Ok a => Q (Ok a) w1
                      | Throw e => wp (h e) w1 Q
                      | Diverge => Q Diverge w1
                      end) ->
  wp (try_catch c h) w Q.
Proof.
  unfold wp, try_catch. destruct (c w) as [[a|e|] w1]; simpl; auto.
Qed.

Lemma wp_conseq {A} (c : M A) w (Q Q' : Res A -> World -> Prop) :
  wp c w Q -> (forall r w', Q r w' -> Q' r w') -> wp c w Q'.
Proof. unfold wp. auto. Qed.

Lemma wp_and {A} (c : M A) w (Q Q' : Res A -> World -> Prop) :
  wp c w Q -> wp c w Q' -> wp c w (fun r w' => Q r w' /\ Q' r w').
Proof. unfold wp. auto. Qed.

Lemma wp_keeps {A X} (p : World -> X) (c : M A) w :
  keeps p c -> wp c w (fun _ w' => p w' = p w).
Proof. intros H. apply H. Qed.

Lemma wp_settles {A} (c : M A) w : settles c -> wp c w (fun r _ => r <> Diverge).
Proof. intros H. apply H. Qed.

End Outcomes.

Ltac settles_step :=
  match goal with
  | |- settles (mret _) => apply settles_ret
  | |- settles (throw _) => apply settles_throw
  | |- settles (gets _) => apply settles_gets
  | |- settles (logger _ _) => apply settles_modify
  | |- settles (sleep _) => apply settles_modify
  | |- settles (modify _) => apply settles_modify
  | |- settles (_ ≫= _) => apply settles_bind
  | |- settles (try_catch _ _) => apply settles_try_catch
  | |- settles (if ?b then _ else _) => destruct b
  | |- settles (match ?x with _ => _ end) => destruct x
  | |- forall _, _ => intros ?
  end.

Ltac settles_tac := repeat settles_step; eauto.

(** ** What the Drive adapter leaves alone *)

Section DriveFrames.
Context {X : Type} (p : World -> X).

(** [p] does not look at the log, the credentials, the Drive client,
    the requests sent to Drive and their bodies, the read streams or the
    call counters. *)
Hypothesis blind_log : forall l m w, p (with_log l m w) = p w.
Hypothesis blind_upload : forall w, p (with_upload w) = p w.
Hypothesis blind_refresh : forall w, p (with_refresh w) = p w.
Hypothesis blind_oauth : forall w, p (with_oauth_call w) = p w.
Hypothesis blind_credentials : forall c w, p (with_credentials c w) = p w.
Hypothesis blind_ready : forall w, p (with_drive_ready w) = p w.
Hypothesis blind_request : forall r w, p (with_drive_request r w) = p w.
Hypothesis blind_body : forall b w, p (with_drive_body b w) = p w.
Hypothesis blind_streams : forall f w, p (with_streams f w) = p w.

Ltac blind :=
  repeat first
    [ apply keeps_modify;
      first [ apply blind_log | apply blind_upload | apply blind_refresh
            | apply blind_oauth | apply blind_credentials | apply blind_ready
            | apply blind_request | apply blind_body | apply blind_streams ]
    | keeps_step ].

Lemma saveTokens_keeps env call : keeps p (GoogleAuthService.saveTokens env call).
Proof. unfold GoogleAuthService.saveTokens, logger. blind. Qed.

Lemma getAuthClient_keeps : keeps p GoogleAuthService.getAuthClient.
Proof. unfold GoogleAuthService.getAuthClient, logger. blind. Qed.

Lemma refreshAccessToken_keeps env : keeps p (GoogleAuthService.refreshAccessToken env).
Proof.
  unfold GoogleAuthService.refreshAccessToken, logger. blind.
  apply saveTokens_keeps.
Qed.

Lemma initializeDriveClient_keeps : keeps p GoogleDriveService.initializeDriveClient.
Proof.
  unfold GoogleDriveService.initializeDriveClient, logger. blind.
  apply getAuthClient_keeps.
Qed.

Lemma tryUpload_keeps env s md : keeps p (GoogleDriveService.tryUpload env s md).
Proof.
  unfold GoogleDriveService.tryUpload, GoogleDriveService.getDriveClient,
    GoogleDriveService.files_create_call, readToEnd, logger.
  blind. apply initializeDriveClient_keeps.
Qed.

Lemma uploadFile_keeps env fuel s md : keeps p (GoogleDriveService.uploadFile env fuel s md).
Proof.
  induction fuel as [|fuel IH]; simpl.
  - apply keeps_diverge.
  - unfold logger. blind.
    + apply tryUpload_keeps.
    + apply refreshAccessToken_keeps.
    + apply initializeDriveClient_keeps.
    + apply IH.
Qed.

End DriveFrames.

(** ** What the pipeline of one URL leaves alone *)

Section PipelineFrames.
Import FileService.

Lemma extractFileNameFromUrl_keeps {X} (p : World -> X) env url :
  (forall l m w, p (with_log l m w) = p w) ->
  keeps p (extractFileNameFromUrl env url).
Proof.
  intros Hlog. unfold extractFileNameFromUrl, logger.
  destruct (URL_pathname env url); keeps_tac.
  apply keeps_modify. apply Hlog.
Qed.

Lemma uploadSingleFile_keeps_timers env fuel url :
  keeps timers (uploadSingleFile env fuel url).
Proof.
  unfold uploadSingleFile, createTempFilePath, transfer, cleanup, rethrowAsHttp,
    downloadFile, uploadLargeFile, saveToDB, fs_stat, fs_access, fs_unlink,
    createWriteStream, createReadStream.
  keeps_tac;
    try (apply extractFileNameFromUrl_keeps; reflexivity);
    try (apply uploadFile_keeps; intros; reflexivity).
Qed.

End PipelineFrames.

(** ** The retry loop *)

Section Retry.
Import FileService.


Lemma retryWhile_timers fuel upload url attempt delay lastError w :
  keeps timers upload ->
  exists k,
    timers (retryWhile fuel upload url attempt delay lastError w).2
    = timers w ++ backoffs delay k
    /\ Z.of_nat k <= Z.max 0 (MAX_RETRIES - 1 - attempt).
Proof.
  intros Hup. revert attempt delay lastError w.
  induction fuel as [|fuel IH]; intros attempt delay lastError w; simpl.
  - exists O. simpl. rewrite app_nil_r.
    split; [destruct (attempt <? MAX_RETRIES); reflexivity | lia].
  - destruct (attempt <? MAX_RETRIES) eqn:Ha;
      [|exists O; simpl; rewrite app_nil_r; split; [reflexivity | lia]].
    apply Z.ltb_lt in Ha.
    unfold try_catch. pose proof (Hup w) as Hw.
    destruct (upload w) as [[f|e|] w1]; simpl in Hw;
      try (exists O; simpl; rewrite app_nil_r; split; [congruence | lia]).
    destruct (isRetryable e); simpl;
      [|exists O; simpl; rewrite app_nil_r; split; [congruence | lia]].
    destruct (attempt + 1 <? MAX_RETRIES) eqn:Hb.
    + apply Z.ltb_lt in Hb. unfold mbind, M_bind, logger, sleep, modify. simpl.
      match goal with
      | |- context [retryWhile fuel upload url ?a ?d ?l ?v] =>
          destruct (IH a d l v) as (k & Hk & Hle)
      end.
      exists (S k). rewrite Hk. simpl. rewrite Hw, <- app_assoc. split; [reflexivity | lia].
    + apply Z.ltb_ge in Hb.
      destruct (IH (attempt + 1) delay (Some e) w1) as (k & Hk & Hle).
      exists k. rewrite Hk, Hw. split; [reflexivity | lia].
Qed.

Lemma retryWhile_unfold fuel upload url attempt delay lastError w :
  attempt < MAX_RETRIES ->
  retryWhile (S fuel) upload url attempt delay lastError w
  = match upload w with
    | (Ok file, w1) => (Ok file, w1)
    | (Throw error, w1) =>
        if isRetryable error then
          if attempt + 1 <? MAX_RETRIES then
            retryWhile fuel upload url (attempt + 1)
              (Z.min (delay * 2) MAX_BACKOFF_TIME) (Some error)
              (with_timer delay
                 (with_log WARN ("Retrying upload (attempt " +:+ showZ (attempt + 1) +:+ "/"
                                 +:+ showZ MAX_RETRIES +:+ ") for URL: " +:+ url) w1))
          else retryWhile fuel upload url (attempt + 1) delay (Some error) w1
        else (Throw error, w1)
    | (Diverge, w1) => (Diverge, w1)
    end.
Proof.
  intros Ha. cbn [retryWhile]. apply Z.ltb_lt in Ha. rewrite Ha.
  unfold try_catch. destruct (upload w) as [[file|error|] w1]; try reflexivity.
  destruct (isRetryable error); [|reflexivity]. cbn [negb].
  destruct (attempt + 1 <? MAX_RETRIES); reflexivity.
Qed.

Lemma retryWhile_exhausted fuel upload url attempt delay lastError w :
  MAX_RETRIES <= attempt ->
  retryWhile fuel upload url attempt delay lastError w
  = (Throw (default (newError "null") lastError), w).
Proof.
  intros Ha. apply Z.ltb_ge in Ha. destruct fuel; cbn [retryWhile]; rewrite Ha; reflexivity.
Qed.

(** Every error that leaves [uploadSingleFile] is the 400
    [HttpException] built by its outer [catch]. *)
Lemma rethrowAsHttp_throws {A} url error w :
  exists msg, (@rethrowAsHttp A url error w).1 = Throw (HttpException msg BAD_REQUEST).
Proof.
  unfold rethrowAsHttp, mbind, M_bind, logger, modify, throw. simpl.
  destruct (isAxiosError error && responseTruthy (response error)); [eauto|].
  destruct (isAxiosError error && request error); eauto.
Qed.

Lemma uploadSingleFile_throws env fuel url w e :
  (uploadSingleFile env fuel url w).1 = Throw e ->
  exists msg, e = HttpException msg BAD_REQUEST.
Proof.
  unfold uploadSingleFile, try_catch at 1.
  match goal with |- context [match ?c w with _ => _ end] => destruct (c w) as [[f|e0|] w1] end;
    simpl; try discriminate.
  destruct (@rethrowAsHttp_throws File url e0 w1) as (msg & Hmsg).
  rewrite Hmsg. intros [= <-]. eauto.
Qed.

Lemma isRetryable_HttpException msg status : isRetryable (HttpException msg status) = false.
Proof. unfold isRetryable. simpl. apply andb_false_r. Qed.

(** So the loop never goes round: with the real upload in it,
    [processFileUpload] is [uploadSingleFile]. *)
Lemma processFileUpload_single_attempt env fuel url w :
  processFileUpload env fuel url w = uploadSingleFile env fuel url w.
Proof.
  unfold processFileUpload, retry. simpl. unfold try_catch at 1.
  destruct (uploadSingleFile env fuel url w) as [[f|e|] w1] eqn:E; try reflexivity.
  destruct (uploadSingleFile_throws env fuel url w e) as (msg & ->); [rewrite E; reflexivity|].
  rewrite isRetryable_HttpException. reflexivity.
Qed.

End Retry.

Section Waits.
Import FileService.



End Waits.



(** C2: a URL whose download answers 503 twice and then 200 would succeed
    after two retries.  The code does not get there: the first 503 leaves
    [uploadSingleFile] wrapped in a 400 [HttpException], which the retry
    test does not recognise, so the upload fails after one request and no
    wait; and so for every URL, whatever the failure. *)
Theorem transient_503_is_not_retried :
  (http_get Demo.busyTwice 0 "https://example.com/a.pdf"
     = HttpResponse 503 None None (BodyFinish noBytes)
   /\ http_get Demo.busyTwice 1 "https://example.com/a.pdf"
     = HttpResponse 503 None None (BodyFinish noBytes)
   /\ http_get Demo.busyTwice 2 "https://example.com/a.pdf" = Demo.ok200 Demo.pdfBytes)
  /\ (forall fuel,
        let run := FileService.processFileUpload Demo.busyTwice fuel
                     "https://example.com/a.pdf" Demo.world in
        run.1 = Throw (HttpException
                         "Failed to download file: Server responded with status 503" 400)
        /\ timers run.2 = []
        /\ http_requests run.2 = ["https://example.com/a.pdf"]
        /\ table run.2 = [])
  /\ (forall env fuel url w,
        FileService.processFileUpload env fuel url w = FileService.uploadSingleFile env fuel url w
        /\ timers (FileService.processFileUpload env fuel url w).2 = timers w).
Proof.
  split; [vm_compute; repeat split|split].
  - intros fuel. rewrite processFileUpload_single_attempt. vm_compute. repeat split.
  - intros env fuel url w. split; [apply processFileUpload_single_attempt|].
    rewrite processFileUpload_single_attempt. apply uploadSingleFile_keeps_timers.
Qed.

(** ** The request pipe *)

Section Pipe.

Lemma mapThrow_length {A B} (f : A -> Res B) l l' :
  mapThrow f l = Ok l' -> length l' = length l.
Proof.
  revert l'. induction l as [|x l IH]; intros l'; simpl.
  - intros [= <-]. reflexivity.
  - destruct (f x); try discriminate.
    destruct (mapThrow f l); try discriminate.
    intros [= <-]. simpl. f_equal. apply IH. reflexivity.
Qed.

(** An empty list never reaches the controller: the pipe answers 400. *)
Lemma empty_batch_rejected env service w :
  ValidationPipe.postUpload env service [] w
  = (Throw (ValidationPipe.BadRequestException ["At least one file URL must be provided"]), w)
  /\ ValidationPipe.statusCode (ValidationPipe.postUpload env service [] w).1 = Some 400.
Proof. split; reflexivity. Qed.

(** A list of more than ten URLs that the extension transform lets
    through never reaches the controller either: the pipe answers 400. *)
Lemma oversize_batch_rejected env service body fileUrls w :
  Dto.Transform body = Ok fileUrls ->
  (10 < length body)%nat ->
  exists messages,
    ValidationPipe.postUpload env service body w
    = (Throw (ValidationPipe.BadRequestException messages), w)
    /\ ValidationPipe.statusCode (ValidationPipe.postUpload env service body w).1 = Some 400.
Proof.
  intros HT Hlen. unfold ValidationPipe.postUpload, ValidationPipe.transform. rewrite HT.
  pose proof (mapThrow_length _ _ _ HT) as Hl.
  unfold ValidationPipe.validate.
  destruct (length fileUrls <? 1)%nat eqn:H1; [apply Nat.ltb_lt in H1; lia|].
  destruct (10 <? length fileUrls)%nat eqn:H10; [|apply Nat.ltb_ge in H10; lia].
  simpl. eexists. split; reflexivity.
Qed.

End Pipe.

(** C5: an empty list and a list of more than ten URLs are to be answered
    with 400.  A request with eleven URLs ending in .exe is not: the
    extension transform runs before the size constraint and throws a plain
    [Error], which leaves the pipe as it is (Nest answers 500 for it).
    Nothing is downloaded or uploaded: the world is untouched. *)
Theorem oversize_batch_with_bad_extension env service w :
  length (replicate 11 "https://example.com/a.exe") = 11%nat
  /\ ValidationPipe.postUpload env service (replicate 11 "https://example.com/a.exe") w
     = (Throw (newError ("File extension " +:+ dquote +:+ "exe" +:+ dquote
                         +:+ " is not allowed for security reasons")), w)
  /\ ValidationPipe.statusCode
       (ValidationPipe.postUpload env service (replicate 11 "https://example.com/a.exe") w).1
     = Some 500.
Proof. vm_compute. repeat split. Qed.

(** C1: a batch in which some uploads succeed is to return the successes.
    With b.pdf missing, the variant with the limiter fails the whole batch
    with 400 although two records were written; the variant with batches
    returns those two records. *)
Theorem partial_failure_aborts_limited_batch :
  let limited := Limited.uploadFiles Demo.missingB 3 [0; 1; 2]%nat Demo.threeUrls Demo.world in
  let batched := Batched.uploadFiles Demo.missingB 3 [0; 1; 2]%nat Demo.threeUrls Demo.world in
  limited.1 = Throw (HttpException
                       "Failed to upload files: Failed to download file: Server responded with status 404"
                       400)
  /\ file_name <$> table limited.2 = ["a.pdf"; "c.pdf"]
  /\ (exists a c, batched.1 = Ok [a; c] /\ table batched.2 = [a; c]
                  /\ file_name a = "a.pdf" /\ file_name c = "c.pdf").
Proof.
  vm_compute. repeat split. do 2 eexists. repeat split.
Qed.

(** ** The Drive adapter *)

Section Drive.
Import GoogleDriveService.

Lemma refreshAccessToken_settles env : settles (GoogleAuthService.refreshAccessToken env).
Proof.
  unfold GoogleAuthService.refreshAccessToken, GoogleAuthService.saveTokens. settles_tac.
Qed.

Lemma initializeDriveClient_settles : settles initializeDriveClient.
Proof.
  unfold initializeDriveClient, GoogleAuthService.getAuthClient. settles_tac.
Qed.

Lemma tryUpload_settles env s md : settles (tryUpload env s md).
Proof.
  unfold tryUpload, getDriveClient, files_create_call, readToEnd. settles_tac.
  apply initializeDriveClient_settles.
Qed.

Lemma refreshAccessToken_counts env w :
  wp (GoogleAuthService.refreshAccessToken env) w
    (fun r w' => refreshes w' = S (refreshes w) /\ uploads w' = uploads w /\ r <> Diverge).
Proof.
  unfold wp. split; [|split].
  - unfold GoogleAuthService.refreshAccessToken.
    unfold mbind at 1, M_bind at 1. simpl.
    match goal with
    | |- refreshes (?c (with_refresh w)).2 = _ =>
        assert (H : keeps refreshes c); [|apply H]
    end.
    unfold logger. keeps_tac. apply saveTokens_keeps; reflexivity.
  - apply refreshAccessToken_keeps; reflexivity.
  - apply refreshAccessToken_settles.
Qed.

Lemma initializeDriveClient_counts w :
  wp initializeDriveClient w
    (fun r w' => refreshes w' = refreshes w /\ uploads w' = uploads w /\ r <> Diverge).
Proof.
  unfold wp. split; [|split].
  - apply initializeDriveClient_keeps; reflexivity.
  - apply initializeDriveClient_keeps; reflexivity.
  - apply initializeDriveClient_settles.
Qed.

Lemma tryUpload_counts env s md w :
  wp (tryUpload env s md) w
    (fun r w' =>
       refreshes w' = refreshes w /\ uploads w' = uploads w /\ r <> Diverge
       /\ (tryUpload env s md w).1 = r).
Proof.
  unfold wp. split; [|split; [|split]].
  - apply tryUpload_keeps; reflexivity.
  - apply tryUpload_keeps; reflexivity.
  - apply tryUpload_settles.
  - reflexivity.
Qed.

Lemma isAuthError_reauthenticationRequired : isAuthError reauthenticationRequired = true.
Proof. reflexivity. Qed.

Lemma uploadFile_accounted env fuel s md w :
  wp (uploadFile env fuel s md) w (accounted env s md fuel w).
Proof.
  revert w. induction fuel as [|fuel IH]; intros w.
  - exists O. simpl. split; [lia|split; [reflexivity|lia]].
  - cbn [uploadFile]. apply wp_bind, wp_modify, wp_try_catch.
    eapply wp_conseq; [apply tryUpload_counts|]. cbn beta.
    intros [u|e|] w1 (Hr & Hu & Hs & Hrun); simpl in Hr, Hu; [| |congruence].
    { exists O. split; [lia|]. split; [lia|eauto]. }
    apply wp_bind, wp_modify.
    destruct (isAuthError e) eqn:Hauth;
      [|apply wp_throw; exists O; split;
        [simpl; lia|right; split; [assumption|split; [simpl; lia|eauto]]]].
    apply wp_bind, wp_try_catch, wp_bind, wp_modify, wp_bind.
    eapply wp_conseq; [apply refreshAccessToken_counts|]. cbn beta.
    intros [tok|e2|] w2 (Hr2 & Hu2 & Hs2); simpl in Hr2, Hu2; [| |congruence].
    2:{ apply wp_bind, wp_modify, wp_ret, wp_throw.
        exists 1%nat. simpl. split; [lia|]. left. repeat split; lia. }
    apply wp_bind.
    eapply wp_conseq; [apply initializeDriveClient_counts|]. cbn beta.
    intros [[]|e3|] w3 (Hr3 & Hu3 & Hs3); [| |congruence].
    2:{ apply wp_bind, wp_modify, wp_ret, wp_throw.
        exists 1%nat. simpl. split; [lia|]. left. repeat split; lia. }
    apply wp_bind, wp_modify, wp_ret.
    eapply wp_conseq; [apply IH|]. cbn beta.
    intros r w4 (k & Hk & Hres). simpl in Hk.
    exists (S k). split; [lia|].
    destruct r as [u|e4|]; simpl in Hres.
    + destruct Hres as [? ?]. split; [lia|assumption].
    + destruct Hres as [(-> & ? & ?)|(? & ? & ?)]; [left|right]; repeat split; auto; lia.
    + destruct Hres as [-> ?]. split; [reflexivity|lia].
Qed.

End Drive.

(** ** One call of [uploadFile], round by round *)

Ltac world_fields :=
  cbn [fs table timers log http_requests drive_requests credentials drive_ready
       oauth_calls refreshes uploads db_calls rand_calls opening streams drive_bodies
       stream_id stream_path
       Cases.logged Cases.sent Cases.refreshed Cases.finishedDownload open_completes
       with_fs with_table with_db_call with_timer with_log
       with_http_request with_drive_request with_credentials with_drive_ready
       with_oauth_call with_refresh with_upload with_rand_call with_opening
       with_streams with_drive_body].

Lemma world_ext w1 w2 :
  fs w1 = fs w2 -> table w1 = table w2 -> timers w1 = timers w2 -> log w1 = log w2 ->
  http_requests w1 = http_requests w2 -> drive_requests w1 = drive_requests w2 ->
  credentials w1 = credentials w2 -> drive_ready w1 = drive_ready w2 ->
  oauth_calls w1 = oauth_calls w2 -> refreshes w1 = refreshes w2 ->
  uploads w1 = uploads w2 -> db_calls w1 = db_calls w2 ->
  rand_calls w1 = rand_calls w2 -> opening w1 = opening w2 ->
  streams w1 = streams w2 -> drive_bodies w1 = drive_bodies w2 ->
  w1 = w2.
Proof. destruct w1, w2. cbn. intros. subst. reflexivity. Qed.

Ltac world_eq :=
  apply world_ext; world_fields; rewrite <- ?app_assoc; reflexivity.

Section Attempts.
Import GoogleDriveService.

Lemma logged_nil w : Cases.logged [] w = w.
Proof. apply world_ext; try reflexivity. apply app_nil_r. Qed.

Lemma logged_logged l1 l2 w :
  Cases.logged l2 (Cases.logged l1 w) = Cases.logged (l1 ++ l2) w.
Proof. apply world_ext; try reflexivity. symmetry. apply app_assoc. Qed.

Lemma ends_intro {A} (r : Res A) lines w1 w' :
  w' = Cases.logged lines w1 -> Cases.ends r w1 r w'.
Proof. intros ->. split; eauto. Qed.


Lemma tryUpload_ready env s md w :
  drive_ready w = true ->
  wp (tryUpload env s md) w
    (Cases.ends (Cases.answered (files_create env (length (drive_requests w))))
       (Cases.sent s md w)).
Proof.
  intros Hready. unfold tryUpload, getDriveClient.
  apply wp_bind, wp_bind, wp_gets. rewrite Hready. apply wp_ret.
  apply wp_bind, wp_modify, wp_bind. unfold files_create_call.
  apply wp_bind, wp_gets, wp_bind, wp_readToEnd, wp_bind, wp_modify, wp_bind, wp_modify.
  world_fields.
  destruct (files_create env _) as [data_id|e]; cbn [Cases.answered].
  - apply wp_ret. destruct (truthy data_id); cbn [negb].
    + apply wp_bind, wp_modify, wp_ret.
      eapply (ends_intro _ [_; _]).
      world_eq.
    + apply wp_throw. eapply (ends_intro _ [_]). reflexivity.
  - apply wp_throw. eapply (ends_intro _ [_]). reflexivity.
Qed.

Lemma isAuthError_noFileId :
  isAuthError (newError "File ID was not returned from Google Drive") = false.
Proof. vm_compute. reflexivity. Qed.

(** An attempt that does not meet an auth error is the whole call. *)
Lemma uploadFile_one_attempt env fuel s md w :
  drive_ready w = true ->
  (forall e, files_create env (length (drive_requests w)) = CreateError e ->
             isAuthError e = false) ->
  wp (uploadFile env (S fuel) s md) w
    (Cases.ends (Cases.answered (files_create env (length (drive_requests w))))
       (Cases.sent s md (with_upload w))).
Proof.
  intros Hready Hna. cbn [uploadFile].
  apply wp_bind, wp_modify, wp_try_catch.
  eapply wp_conseq; [apply tryUpload_ready; exact Hready|]. cbn beta.
  change (drive_requests (with_upload w)) with (drive_requests w).
  intros r w1 (-> & lines & ->).
  destruct (files_create env _) as [data_id|e] eqn:Hc; cbn [Cases.answered].
  - destruct (truthy data_id); [split; eauto|].
    apply wp_bind, wp_modify. rewrite isAuthError_noFileId. apply wp_throw.
    eapply (ends_intro _ (lines ++ [_])).
    world_eq.
  - apply wp_bind, wp_modify. rewrite (Hna e eq_refl). apply wp_throw.
    eapply (ends_intro _ (lines ++ [_])).
    world_eq.
Qed.

End Attempts.

Section Refresh.
Import GoogleAuthService GoogleDriveService.






End Refresh.

Section Cycles.
Import GoogleDriveService.



End Cycles.



(** When the refresh is refused, the first auth error ends the call with
    the terminal error: one attempt, one refresh, one request. *)
Lemma refused_refresh_is_terminal :
  let run := GoogleDriveService.uploadFile Demo.refreshDenied 5 Demo.pdfStream
               Demo.reportMeta Demo.downloaded in
  run.1 = Throw GoogleDriveService.reauthenticationRequired
  /\ refreshes run.2 = 1%nat /\ uploads run.2 = 1%nat
  /\ length (drive_requests run.2) = 1%nat.
Proof. vm_compute. repeat split. Qed.


(** ** The large-file path *)

Section LargeFile.
Import FileService.

(** One attempt sends at most one request to the provider, and that
    request carries the whole file. *)
Lemma getDriveClient_keeps {X} (p : World -> X) :
  (forall l m w, p (with_log l m w) = p w) ->
  (forall w, p (with_drive_ready w) = p w) ->
  keeps p GoogleDriveService.getDriveClient.
Proof.
  intros Hl Hr. unfold GoogleDriveService.getDriveClient. keeps_tac.
  apply initializeDriveClient_keeps; assumption.
Qed.

Lemma tryUpload_one_request env fileStream metadata w :
  wp (GoogleDriveService.tryUpload env fileStream metadata) w
    (fun _ w' =>
       drive_requests w' = drive_requests w
       \/ drive_requests w'
          = drive_requests w ++ [mkRequest (name metadata) (mimeType metadata)
                                   (mimeType metadata) fileStream]).
Proof.
  unfold GoogleDriveService.tryUpload. apply wp_bind.
  eapply wp_conseq;
    [apply (wp_keeps drive_requests); apply getDriveClient_keeps; reflexivity|].
  cbn beta. intros [[]|e|] w1 Hd; auto.
  apply wp_bind, wp_modify, wp_bind.
  unfold GoogleDriveService.files_create_call.
  apply wp_bind, wp_gets, wp_bind, wp_readToEnd, wp_bind, wp_modify, wp_bind, wp_modify.
  cbn [drive_requests with_log with_drive_request with_streams with_drive_body].
  rewrite Hd.
  destruct (files_create env _) as [data_id|e];
    [|apply wp_throw; cbn [drive_requests with_log with_drive_request with_streams
                            with_drive_body]; rewrite Hd; auto].
  apply wp_ret.
  destruct (negb (truthy data_id));
    [apply wp_throw; cbn [drive_requests with_log with_drive_request with_streams
                           with_drive_body]; rewrite Hd; auto|].
  apply wp_bind, wp_modify, wp_ret.
  cbn [drive_requests with_log with_drive_request with_streams with_drive_body].
  rewrite Hd. auto.
Qed.

End LargeFile.

(** ** Two runs that differ in the stream they send *)

Section Alike.
Import GoogleAuthService GoogleDriveService.
Variables s1 s2 : Stream.
Hypothesis same_path : stream_path s1 = stream_path s2.

Lemma besidesStreams_eq w1 w2 :
  Cases.besidesStreams w1 = Cases.besidesStreams w2
  <-> fs w1 = fs w2 /\ table w1 = table w2 /\ timers w1 = timers w2 /\ log w1 = log w2
      /\ http_requests w1 = http_requests w2
      /\ Cases.anonymous <$> drive_requests w1 = Cases.anonymous <$> drive_requests w2
      /\ credentials w1 = credentials w2 /\ drive_ready w1 = drive_ready w2
      /\ oauth_calls w1 = oauth_calls w2 /\ refreshes w1 = refreshes w2
      /\ uploads w1 = uploads w2 /\ db_calls w1 = db_calls w2
      /\ rand_calls w1 = rand_calls w2 /\ opening w1 = opening w2
      /\ drive_bodies w1 = drive_bodies w2.
Proof.
  unfold Cases.besidesStreams. split.
  - intros [= ? ? ? ? ? ? ? ? ? ? ? ? ? ? ?]. repeat split; assumption.
  - intros (? & ? & ? & ? & ? & ? & ? & ? & ? & ? & ? & ? & ? & ? & ?).
    f_equal; assumption.
Qed.

Lemma respects_ret {A} (a : A) : Cases.respects s1 s2 (mret a) (mret a).
Proof. intros w1 w2 H. split; [reflexivity|exact H]. Qed.

Lemma respects_throw {A} e : Cases.respects s1 s2 (@throw A e) (throw e).
Proof. intros w1 w2 H. split; [reflexivity|exact H]. Qed.

Lemma respects_diverge {A} : Cases.respects s1 s2 (@diverge A) diverge.
Proof. intros w1 w2 H. split; [reflexivity|exact H]. Qed.

Lemma respects_gets {A} (f : World -> A) :
  (forall w, f w = f (Cases.besidesStreams w)) -> Cases.respects s1 s2 (gets f) (gets f).
Proof.
  intros Hf w1 w2 H. split; [|exact H]. simpl.
  rewrite (Hf w1), (Hf w2). destruct H as [-> _]. reflexivity.
Qed.

Lemma respects_modify (g : World -> World) :
  (forall w, Cases.besidesStreams (g w) = g (Cases.besidesStreams w)) ->
  (forall w, streams (g w) = streams w) ->
  Cases.respects s1 s2 (modify g) (modify g).
Proof.
  intros Hg Hs w1 w2 [H1 H2]. split; [reflexivity|]. simpl.
  split; [rewrite !Hg, H1; reflexivity|rewrite !Hs; exact H2].
Qed.

Lemma respects_bind {A B} (c1 c2 : M A) (f1 f2 : A -> M B) :
  Cases.respects s1 s2 c1 c2 -> (forall a, Cases.respects s1 s2 (f1 a) (f2 a)) ->
  Cases.respects s1 s2 (c1 ≫= f1) (c2 ≫= f2).
Proof.
  intros Hc Hf w1 w2 H. unfold mbind, M_bind. destruct (Hc w1 w2 H) as [Hr Hw].
  destruct (c1 w1) as [r1 v1], (c2 w2) as [r2 v2]. simpl in Hr, Hw. subst r2.
  destruct r1 as [a|e|]; [apply Hf; exact Hw|split; [reflexivity|exact Hw]..].
Qed.

Lemma respects_try_catch {A} (c1 c2 : M A) (h1 h2 : Error -> M A) :
  Cases.respects s1 s2 c1 c2 -> (forall e, Cases.respects s1 s2 (h1 e) (h2 e)) ->
  Cases.respects s1 s2 (try_catch c1 h1) (try_catch c2 h2).
Proof.
  intros Hc Hh w1 w2 H. unfold try_catch. destruct (Hc w1 w2 H) as [Hr Hw].
  destruct (c1 w1) as [r1 v1], (c2 w2) as [r2 v2]. simpl in Hr, Hw. subst r2.
  destruct r1 as [a|e|]; [split; [reflexivity|exact Hw]|apply Hh; exact Hw
                         |split; [reflexivity|exact Hw]].
Qed.

Ltac respects_step :=
  match goal with
  | |- Cases.respects _ _ (mret _) _ => apply respects_ret
  | |- Cases.respects _ _ (throw _) _ => apply respects_throw
  | |- Cases.respects _ _ diverge _ => apply respects_diverge
  | |- Cases.respects _ _ (gets _) _ => apply respects_gets; intros; reflexivity
  | |- Cases.respects _ _ (logger _ _) _ => apply respects_modify; intros; reflexivity
  | |- Cases.respects _ _ (modify _) _ => apply respects_modify; intros; reflexivity
  | |- Cases.respects _ _ (_ ≫= _) _ => apply respects_bind
  | |- Cases.respects _ _ (try_catch _ _) _ => apply respects_try_catch
  | |- Cases.respects _ _ (if ?b then _ else _) _ => destruct b
  | |- Cases.respects _ _ (match ?x with _ => _ end) _ => destruct x
  | |- forall _, _ => intros ?
  end.

Ltac respects_tac := repeat respects_step; eauto.

Lemma refreshAccessToken_respects env :
  Cases.respects s1 s2 (refreshAccessToken env) (refreshAccessToken env).
Proof. unfold refreshAccessToken, saveTokens. respects_tac. Qed.

Lemma initializeDriveClient_respects : Cases.respects s1 s2 initializeDriveClient initializeDriveClient.
Proof. unfold initializeDriveClient, getAuthClient. respects_tac. Qed.

Lemma getDriveClient_respects : Cases.respects s1 s2 getDriveClient getDriveClient.
Proof.
  unfold getDriveClient. respects_tac. apply initializeDriveClient_respects.
Qed.

Lemma alike_remaining w1 w2 : Cases.alike s1 s2 w1 w2 -> remaining s1 w1 = remaining s2 w2.
Proof.
  intros [H1 H2]. unfold remaining. rewrite H2, same_path.
  apply (f_equal fs) in H1. simpl in H1. rewrite H1. reflexivity.
Qed.

Lemma alike_read w1 w2 :
  Cases.alike s1 s2 w1 w2 ->
  Cases.alike s1 s2 (with_streams (fun states => <[stream_id s1 := true]> states) w1)
        (with_streams (fun states => <[stream_id s2 := true]> states) w2).
Proof.
  intros [H1 H2]. split; [exact H1|]. simpl.
  destruct (streams w1 !! stream_id s1) as [b|] eqn:E1; symmetry in H2.
  - rewrite !list_lookup_insert_eq; [reflexivity|eapply lookup_lt_Some; eassumption..].
  - rewrite !list_insert_ge; [congruence|apply lookup_ge_None; assumption..].
Qed.

Lemma files_create_call_respects env md :
  Cases.respects s1 s2 (files_create_call env s1 md) (files_create_call env s2 md).
Proof.
  unfold files_create_call, readToEnd. intros w1 w2 H.
  cbv [mbind M_bind gets modify mret M_ret].
  rewrite (alike_remaining w1 w2 H).
  assert (Hlen : length (drive_requests w1) = length (drive_requests w2)).
  { destruct H as [H _]. apply (f_equal (fun w => length (drive_requests w))) in H.
    simpl in H. rewrite !length_fmap in H. exact H. }
  rewrite Hlen.
  assert (Hw : Cases.alike s1 s2
    (with_drive_body (remaining s2 w2)
       (with_drive_request (mkRequest (name md) (mimeType md) (mimeType md) s1)
          (with_streams (fun states => <[stream_id s1 := true]> states) w1)))
    (with_drive_body (remaining s2 w2)
       (with_drive_request (mkRequest (name md) (mimeType md) (mimeType md) s2)
          (with_streams (fun states => <[stream_id s2 := true]> states) w2)))).
  { destruct (alike_read w1 w2 H) as [_ H2]. split; [|exact H2].
    destruct H as [H _]. apply besidesStreams_eq in H.
    destruct H as (? & ? & ? & ? & ? & Hd & ? & ? & ? & ? & ? & ? & ? & ? & Hb).
    apply besidesStreams_eq. world_fields. rewrite !fmap_app, Hd, Hb.
    assert (Ha : Cases.anonymous (mkRequest (name md) (mimeType md) (mimeType md) s1)
                 = Cases.anonymous (mkRequest (name md) (mimeType md) (mimeType md) s2))
      by (unfold Cases.anonymous; simpl; rewrite same_path; reflexivity).
    cbn [fmap list_fmap]. rewrite Ha. repeat split; assumption. }
  destruct (files_create env _); split; first [reflexivity|exact Hw].
Qed.

Lemma tryUpload_respects env md : Cases.respects s1 s2 (tryUpload env s1 md) (tryUpload env s2 md).
Proof.
  unfold tryUpload. respects_tac.
  - apply getDriveClient_respects.
  - apply files_create_call_respects.
Qed.

Lemma uploadFile_respects env fuel md :
  Cases.respects s1 s2 (uploadFile env fuel s1 md) (uploadFile env fuel s2 md).
Proof.
  induction fuel as [|fuel IH]; cbn [uploadFile]; [apply respects_diverge|].
  respects_tac.
  - apply tryUpload_respects.
  - apply refreshAccessToken_respects.
  - apply initializeDriveClient_respects.
Qed.

End Alike.

(** ** What one URL sends to the provider *)

Section Sending.
Import FileService GoogleDriveService.

Lemma extractFileNameFromUrl_run env url w :
  wp (extractFileNameFromUrl env url) w (Cases.ends (Ok (fileNameOf env url)) w).
Proof.
  unfold extractFileNameFromUrl, fileNameOf.
  destruct (URL_pathname env url) as [urlPath|].
  - apply wp_ret. apply (ends_intro _ []). symmetry. apply logged_nil.
  - apply wp_bind, wp_modify, wp_ret. eapply (ends_intro _ [_]). reflexivity.
Qed.

Lemma downloadFile_finishes env url tmp w status contentType declared data :
  http_get env (length (http_requests w)) url
  = HttpResponse status contentType declared (BodyFinish data) ->
  (200 <=? status) && (status <? 300) = true ->
  wp (downloadFile env url tmp) w
    (Cases.ends
       (Ok (ReadStream (length (streams w)) tmp,
            mkMeta (fileNameOf env url) (Cases.contentTypeOf contentType)
              (byteLength data)))
       (Cases.finishedDownload url tmp data w)).
Proof.
  intros Hget H2xx. unfold downloadFile, createWriteStream.
  apply wp_bind, wp_modify, wp_bind, wp_gets, wp_bind, wp_modify.
  world_fields. rewrite Hget. apply wp_bind, wp_modify. rewrite H2xx.
  apply wp_bind.
  eapply wp_conseq; [apply extractFileNameFromUrl_run|]. cbn beta.
  intros r w1 (-> & lines & ->).
  apply wp_bind, wp_modify, wp_bind. unfold fs_stat.
  apply wp_bind, wp_gets. world_fields. rewrite lookup_insert_eq.
  apply wp_ret, wp_bind, wp_createReadStream, wp_ret.
  apply (ends_intro _ lines). world_eq.
Qed.

Lemma wp_bind_frame {A B X} (p : World -> X) (c : M A) (f : A -> M B) w x :
  wp c w (fun _ w1 => p w1 = x) -> (forall a, keeps p (f a)) ->
  wp (c ≫= f) w (fun _ w' => p w' = x).
Proof.
  unfold wp, mbind, M_bind. intros Hc Hf.
  destruct (c w) as [[a|e|] w1]; simpl in *; try assumption.
  rewrite Hf. assumption.
Qed.

Lemma wp_try_catch_frame {A X} (p : World -> X) (c : M A) h w x :
  wp c w (fun _ w1 => p w1 = x) -> (forall e, keeps p (h e)) ->
  wp (try_catch c h) w (fun _ w' => p w' = x).
Proof.
  unfold wp, try_catch. intros Hc Hh.
  destruct (c w) as [[a|e|] w1]; simpl in *; try assumption.
  rewrite Hh. assumption.
Qed.

Lemma remaining_unread s w data :
  streams w !! stream_id s = Some false -> fs w !! stream_path s = Some data ->
  remaining s w = Some data.
Proof. unfold remaining. intros -> ->. reflexivity. Qed.

Lemma uploadSingleFile_sends env fuel url w status contentType declared data :
  http_get env (length (http_requests w)) url
  = HttpResponse status contentType declared (BodyFinish data) ->
  (200 <=? status) && (status <? 300) = true ->
  drive_ready w = true ->
  (forall e, files_create env (length (drive_requests w)) = CreateError e ->
             isAuthError e = false) ->
  wp (uploadSingleFile env (S fuel) url) w
    (fun _ w' =>
       Cases.sendings w'
       = (drive_requests w
            ++ [Cases.requestFor (Cases.uploadedStream env w data)
                  (mkMeta (fileNameOf env url) (Cases.contentTypeOf contentType)
                     (byteLength data))],
          drive_bodies w ++ [Some data],
          streams w ++ (if CHUNK_SIZE <? byteLength data then [false; true] else [true]))).
Proof.
  intros Hget H2xx Hready Hna. unfold uploadSingleFile.
  apply wp_try_catch_frame;
    [|intros e; unfold rethrowAsHttp, logger; keeps_tac].
  unfold createTempFilePath. apply wp_bind, wp_bind, wp_gets, wp_bind, wp_modify, wp_ret.
  fold (tempFilePathIn env w).
  apply wp_try_catch_frame;
    [|intros e; unfold cleanup, fs_access, fs_unlink; keeps_tac].
  unfold transfer. apply wp_bind.
  eapply wp_conseq; [eapply downloadFile_finishes; [exact Hget|exact H2xx]|].
  cbn beta. intros r w1 (-> & lines & ->). apply wp_bind.
  eapply wp_conseq; [apply extractFileNameFromUrl_run|]. cbn beta.
  intros r w2 (-> & lines' & ->).
  apply wp_bind_frame;
    [|intros u; unfold saveToDB, fs_unlink, logger; keeps_tac].
  unfold Cases.uploadedStream. cbn [size].
  destruct (CHUNK_SIZE <? byteLength data).
  - apply wp_bind, wp_modify. unfold uploadLargeFile.
    apply wp_bind, wp_createReadStream.
    eapply wp_conseq; [apply uploadFile_one_attempt; [exact Hready|exact Hna]|].
    cbn beta. intros r w3 (_ & lines3 & ->).
    unfold Cases.sendings. world_fields. rewrite length_app, Nat.add_1_r.
    f_equal; [f_equal|].
    + f_equal. f_equal. apply remaining_unread; world_fields.
      * rewrite lookup_app_r by (rewrite length_app; simpl; lia).
        rewrite length_app, Nat.add_1_r, Nat.sub_diag. reflexivity.
      * apply lookup_insert_eq.
    + cbn [stream_id].
      rewrite insert_app_r_alt by (rewrite length_app; simpl; lia).
      rewrite length_app, Nat.add_1_r, Nat.sub_diag, <- app_assoc. reflexivity.
  - eapply wp_conseq; [apply uploadFile_one_attempt; [exact Hready|exact Hna]|].
    cbn beta. intros r w3 (_ & lines3 & ->).
    unfold Cases.sendings. world_fields.
    f_equal; [f_equal|].
    + f_equal. f_equal. apply remaining_unread; world_fields.
      * rewrite lookup_app_r by lia. rewrite Nat.sub_diag. reflexivity.
      * apply lookup_insert_eq.
    + cbn [stream_id]. rewrite insert_app_r_alt by lia.
      rewrite Nat.sub_diag. reflexivity.
Qed.

End Sending.

(** C9: above the 5 MB threshold [uploadSingleFile] takes the large-file
    path, and that path makes the same single provider call as the
    small-file path.  For a download that finishes with [data], an
    initialised Drive client and a first answer of the provider that is
    not an auth error, one request goes to the provider whatever the
    size: it carries the metadata of the download and, as its body, the
    whole of [data], read in one go from a stream on the temp file.  The
    paths differ in the stream only: above the threshold it is a second
    stream, opened by [uploadLargeFile], and the stream of the download
    is left unread.  In general (any fuel, any world, auth errors and
    refresh cycles included), [uploadLargeFile] on a path ends as
    [uploadFile] does on an unread stream on that path: the same outcome
    and, besides the streams, the same world, which holds the requests
    made and the bodies sent. *)
Theorem large_file_path_is_single_shot env fuel url w status contentType declared data :
  http_get env (length (http_requests w)) url
  = HttpResponse status contentType declared (BodyFinish data) ->
  (200 <=? status) && (status <? 300) = true ->
  drive_ready w = true ->
  (forall e, files_create env (length (drive_requests w)) = CreateError e ->
             GoogleDriveService.isAuthError e = false) ->
  let tmp := tempFilePathIn env w in
  let metadata :=
    mkMeta (fileNameOf env url) (Cases.contentTypeOf contentType) (byteLength data) in
  let large := FileService.CHUNK_SIZE <? byteLength data in
  let run := FileService.uploadSingleFile env (S fuel) url w in
  drive_requests run.2
  = drive_requests w
      ++ [Cases.requestFor
            (ReadStream (if large then S (length (streams w)) else length (streams w)) tmp)
            metadata]
  /\ drive_bodies run.2 = drive_bodies w ++ [Some data]
  /\ streams run.2 = streams w ++ (if large then [false; true] else [true])
  /\ forall fuel' filePath metadata' fileStream w',
       stream_path fileStream = filePath ->
       streams w' !! stream_id fileStream = Some false ->
       let largePath := FileService.uploadLargeFile env fuel' filePath metadata' w' in
       let smallPath := GoogleDriveService.uploadFile env fuel' fileStream metadata' w' in
       largePath.1 = smallPath.1
       /\ Cases.besidesStreams largePath.2 = Cases.besidesStreams smallPath.2.
Proof.
  intros Hget H2xx Hready Hna. cbn zeta.
  pose proof (uploadSingleFile_sends env fuel url w status contentType declared data
                Hget H2xx Hready Hna) as Hs.
  unfold wp, Cases.sendings, Cases.uploadedStream in Hs. injection Hs as H1 H2 H3.
  split; [|split; [exact H2|split; [exact H3|]]].
  - rewrite H1. destruct (FileService.CHUNK_SIZE <? byteLength data); reflexivity.
  - intros fuel' filePath metadata' fileStream w' Hpath Hunread.
    unfold FileService.uploadLargeFile.
    cbv [mbind M_bind createReadStream gets modify mret M_ret].
    destruct (uploadFile_respects (ReadStream (length (streams w')) filePath) fileStream
                (eq_sym Hpath) env fuel' metadata'
                (with_streams (fun states => states ++ [false]) w') w')
      as (Hr & Hw & _); [|split; assumption].
    split; [reflexivity|]. simpl. rewrite Hunread.
    rewrite lookup_app_r by lia. rewrite Nat.sub_diag. reflexivity.
Qed.

(** A 6 MB download goes to the provider in one request, through the
    second stream on the temp file. *)
Lemma large_file_path_is_single_shot_witness :
  let run := FileService.uploadSingleFile Demo.bigDownload 5 "https://example.com/a.pdf"
               Demo.world in
  drive_requests run.2
  = [Cases.requestFor (ReadStream 1 "/tmp/upload-r0")
       (mkMeta "a.pdf" "application/pdf" (6 * 1024 * 1024))]
  /\ drive_bodies run.2 = [Some Demo.bigBytes]
  /\ streams run.2 = [false; true].
Proof.
  destruct (large_file_path_is_single_shot Demo.bigDownload 4
              "https://example.com/a.pdf" Demo.world 200 (Some "application/pdf")
              (Some (byteLength Demo.bigBytes)) Demo.bigBytes)
    as (H1 & H2 & H3 & _);
    [reflexivity|reflexivity|reflexivity|intros e; discriminate|].
  split; [exact H1|split; [exact H2|exact H3]].
Defined.

(** ** The pipeline of one URL: database rows and temp files *)

Section Pipeline.
Import FileService.

Lemma confirmedBetween_widen env w0 w w' w1 data_id :
  (length (drive_requests w0) <= length (drive_requests w))%nat ->
  (length (drive_requests w') <= length (drive_requests w1))%nat ->
  confirmedBetween env w w' data_id -> confirmedBetween env w0 w1 data_id.
Proof. intros H0 H1 (k & Hk & Hc). exists k. split; [lia|assumption]. Qed.

Lemma truthy_Some data_id : truthy data_id = true -> exists s, data_id = Some s /\ s <> "".
Proof.
  destruct data_id as [s|]; simpl; [|discriminate].
  intros H. exists s. split; [reflexivity|]. intros ->. discriminate.
Qed.

Lemma tryUpload_confirmed env s md w :
  wp (GoogleDriveService.tryUpload env s md) w
    (fun r w' =>
       (length (drive_requests w) <= length (drive_requests w'))%nat
       /\ match r with
          | Ok u => confirmedBetween env w w' (id u)
          | _ => True
          end).
Proof.
  unfold GoogleDriveService.tryUpload. apply wp_bind.
  eapply wp_conseq;
    [apply (wp_keeps drive_requests); apply getDriveClient_keeps; reflexivity|].
  cbn beta. intros [[]|e|] w1 Hd; try (rewrite Hd; auto).
  apply wp_bind, wp_modify, wp_bind.
  unfold GoogleDriveService.files_create_call.
  apply wp_bind, wp_gets, wp_bind, wp_readToEnd, wp_bind, wp_modify, wp_bind, wp_modify. simpl.
  destruct (files_create env _) as [data_id|e] eqn:Hc;
    [|apply wp_throw; simpl; rewrite Hd, length_app; simpl; split; [lia|exact I]].
  apply wp_ret.
  destruct (truthy data_id) eqn:Ht; simpl;
    [|apply wp_throw; simpl; rewrite Hd, length_app; simpl; split; [lia|exact I]].
  apply wp_bind, wp_modify, wp_ret. simpl. rewrite Hd, length_app. simpl.
  split; [lia|]. apply truthy_Some in Ht as (sid & -> & Hne).
  exists (length (drive_requests w)). simpl. rewrite Hd, length_app. simpl.
  rewrite Hd in Hc. split; [lia|split; assumption].
Qed.

Lemma uploadFile_confirmed env fuel s md w :
  wp (GoogleDriveService.uploadFile env fuel s md) w
    (fun r w' =>
       (length (drive_requests w) <= length (drive_requests w'))%nat
       /\ match r with
          | Ok u => confirmedBetween env w w' (id u)
          | _ => True
          end).
Proof.
  revert w. induction fuel as [|fuel IH]; intros w.
  - apply wp_diverge. auto.
  - cbn [GoogleDriveService.uploadFile]. apply wp_bind, wp_modify, wp_try_catch.
    eapply wp_conseq; [apply tryUpload_confirmed|]. cbn beta.
    intros [u|e|] w1 [Hlen Hu]; simpl in Hlen; auto.
    apply wp_bind, wp_modify.
    destruct (GoogleDriveService.isAuthError e); [|apply wp_throw; auto].
    apply wp_bind, wp_try_catch, wp_bind, wp_modify, wp_bind.
    eapply wp_conseq;
      [apply (wp_keeps drive_requests); apply refreshAccessToken_keeps; reflexivity|].
    cbn beta. intros [tok|e2|] w2 Hd2; simpl in Hd2.
    + apply wp_bind.
      eapply wp_conseq;
        [apply (wp_keeps drive_requests); apply initializeDriveClient_keeps; reflexivity|].
      cbn beta. intros [[]|e3|] w3 Hd3.
      * apply wp_bind, wp_modify, wp_ret.
        eapply wp_conseq; [apply IH|]. cbn beta.
        intros r w4 [Hlen4 Hr]. simpl in Hlen4. rewrite Hd3, Hd2 in Hlen4.
        split; [lia|]. destruct r as [u| |]; auto.
        eapply confirmedBetween_widen; [| |exact Hr]; simpl; [rewrite Hd3, Hd2|]; lia.
      * apply wp_bind, wp_modify, wp_ret, wp_throw. simpl. rewrite Hd3, Hd2. auto.
      * rewrite Hd3, Hd2. auto.
    + apply wp_bind, wp_modify, wp_ret, wp_throw. simpl. rewrite Hd2. auto.
    + simpl. rewrite Hd2. auto.
Qed.

Lemma stores_eq w w' :
  stores w' = stores w ->
  table w' = table w /\ drive_requests w' = drive_requests w /\ fs w' = fs w.
Proof. unfold stores. intros [= -> -> ->]. auto. Qed.

Lemma saveToDB_spec env fileName md u w :
  wp (saveToDB env fileName md u) w
    (fun r w' =>
       drive_requests w' = drive_requests w /\ fs w' = fs w
       /\ match r with
          | Ok file => table w' = table w ++ [file] /\ driveFileId file = id u
          | _ => table w' = table w
          end).
Proof.
  unfold saveToDB. apply wp_bind, wp_gets, wp_bind, wp_modify.
  destruct (prisma_create env _) as [row_id now|e]; [|apply wp_throw; auto].
  apply wp_bind, wp_gets, wp_bind, wp_modify, wp_ret. simpl. auto.
Qed.

Lemma downloadFile_spec env url tmp w :
  wp (downloadFile env url tmp) w
    (fun r w' =>
       table w' = table w /\ drive_requests w' = drive_requests w
       /\ r <> Diverge
       /\ ((exists b, fs w' = <[tmp := b]> (fs w))
           \/ (fs w' = fs w /\ exists e, r = Throw e))).
Proof.
  unfold downloadFile, createWriteStream.
  apply wp_bind, wp_modify, wp_bind, wp_gets, wp_bind, wp_modify.
  destruct (http_get env _ url) as [errno|status ct cl body|error];
    [apply wp_bind, wp_modify, wp_throw; simpl; repeat split; eauto; discriminate
    | |apply wp_throw; simpl; repeat split; eauto; discriminate].
  apply wp_bind, wp_modify.
  destruct ((200 <=? status) && (status <? 300));
    [|apply wp_throw; simpl; repeat split; eauto; discriminate].
  apply wp_bind.
  eapply wp_conseq;
    [apply wp_and;
     [apply (wp_keeps stores); apply extractFileNameFromUrl_keeps; reflexivity
     |apply wp_settles; unfold extractFileNameFromUrl; settles_tac]|].
  cbn beta. intros [fileName|e|] w1 [Hst Hs]; apply stores_eq in Hst as (Ht & Hd & Hf);
    simpl in Ht, Hd, Hf; [| |congruence].
  2:{ rewrite Ht, Hd, Hf. repeat split; eauto. }
  destruct body as [data|e written|e written].
  - apply wp_bind, wp_modify, wp_bind. unfold fs_stat.
    apply wp_bind, wp_gets. simpl. rewrite lookup_insert_eq.
    apply wp_ret, wp_bind, wp_createReadStream, wp_ret. simpl.
    rewrite Ht, Hd, Hf, insert_insert_eq.
    repeat split; eauto; discriminate.
  - apply wp_bind, wp_modify, wp_throw. simpl. rewrite Ht, Hd, Hf, insert_insert_eq.
    repeat split; eauto; discriminate.
  - apply wp_bind, wp_modify, wp_throw. simpl. rewrite Ht, Hd, Hf, insert_insert_eq.
    repeat split; eauto; discriminate.
Qed.

Lemma transfer_spec env fuel url tmp w :
  wp (transfer env fuel url tmp) w
    (fun r w' =>
       (length (drive_requests w) <= length (drive_requests w'))%nat
       /\ match r with
          | Ok file =>
              table w' = table w ++ [file] /\ recorded env w w' file
              /\ fs w' = delete tmp (fs w)
          | Throw _ =>
              table w' = table w
              /\ ((exists b, fs w' = <[tmp := b]> (fs w)) \/ fs w' = fs w)
          | Diverge => table w' = table w
          end).
Proof.
  unfold transfer. apply wp_bind.
  eapply wp_conseq; [apply downloadFile_spec|]. cbn beta.
  intros [[fileStream fileMetadata]|e|] w1 (Ht1 & Hd1 & Hs1 & Hfs1);
    [|rewrite Hd1; split; [lia|]; split; [assumption|];
      destruct Hfs1 as [?|[? _]]; auto|congruence].
  destruct Hfs1 as [(b & Hf1)|(_ & e & He)]; [|discriminate].
  apply wp_bind.
  eapply wp_conseq;
    [apply wp_and;
     [apply (wp_keeps stores); apply extractFileNameFromUrl_keeps; reflexivity
     |apply wp_settles; unfold extractFileNameFromUrl; settles_tac]|].
  cbn beta. intros [fileName|e|] w2 [Hst Hs2]; apply stores_eq in Hst as (Ht2 & Hd2 & Hf2);
    [| |congruence].
  2:{ rewrite Ht2, Hd2, Hf2, Ht1, Hd1, Hf1. eauto. }
  apply wp_bind.
  assert (Hup : forall (c : M UploadFileResult) w3,
             drive_requests w3 = drive_requests w2 -> table w3 = table w2 -> fs w3 = fs w2 ->
             (exists st, c = GoogleDriveService.uploadFile env fuel st fileMetadata) ->
             wp c w3
               (fun r w4 =>
                  table w4 = table w /\ fs w4 = <[tmp := b]> (fs w)
                  /\ (length (drive_requests w) <= length (drive_requests w4))%nat
                  /\ match r with
                     | Ok u => confirmedBetween env w w4 (id u)
                     | _ => True
                     end)).
  { intros c w3 Hd3 Ht3 Hf3 (st & ->).
    eapply wp_conseq;
      [apply wp_and;
       [apply (wp_keeps (fun v => (table v, fs v))); apply uploadFile_keeps; reflexivity
       |apply uploadFile_confirmed]|].
    cbn beta. intros r w4 [Hst4 [Hlen4 Hr4]]. injection Hst4 as Ht4 Hf4.
    rewrite Ht4, Hf4, Ht3, Hf3, Ht2, Hf2, Ht1, Hf1.
    rewrite Hd3, Hd2, Hd1 in Hlen4.
    repeat split; auto. destruct r as [u| |]; auto.
    eapply confirmedBetween_widen; [| |exact Hr4]; [rewrite Hd3, Hd2, Hd1|]; lia. }
  eapply wp_conseq.
  { destruct (CHUNK_SIZE <? size fileMetadata).
    - apply wp_bind, wp_modify. unfold uploadLargeFile.
      apply wp_bind, wp_createReadStream. apply Hup; eauto.
    - apply Hup; eauto. }
  cbn beta. intros [u|e|] w4 (Ht4 & Hf4 & Hlen4 & Hu4); [|eauto|auto].
  apply wp_bind.
  eapply wp_conseq; [apply saveToDB_spec|]. cbn beta.
  intros [file|e|] w5 (Hd5 & Hf5 & Hr5);
    [|rewrite Hd5, Hf5, Hr5, Hf4; eauto|rewrite Hd5, Hr5; auto].
  destruct Hr5 as [Ht5 Hid].
  apply wp_bind, wp_modify, wp_bind, wp_try_catch.
  unfold fs_unlink. apply wp_bind, wp_gets. simpl.
  rewrite Hf5, Hf4, lookup_insert_eq.
  apply wp_modify, wp_ret. simpl.
  rewrite Hd5, Ht5, Ht4, Hf5, Hf4, delete_insert_eq.
  split; [assumption|]. split; [reflexivity|]. split; [|reflexivity].
  unfold recorded. rewrite Hid.
  eapply confirmedBetween_widen; [| |exact Hu4]; simpl; [|rewrite Hd5]; lia.
Qed.

Lemma rethrowAsHttp_spec {A} url error w :
  wp (@rethrowAsHttp A url error) w
    (fun r w' => (exists e, r = Throw e) /\ table w' = table w /\ fs w' = fs w).
Proof.
  unfold rethrowAsHttp. apply wp_bind, wp_modify.
  destruct (isAxiosError error && responseTruthy (response error));
    [apply wp_throw; simpl; eauto|].
  destruct (isAxiosError error && request error); apply wp_throw; simpl; eauto.
Qed.

Lemma uploadSingleFile_spec env fuel url w :
  wp (uploadSingleFile env fuel url) w
    (fun r w' =>
       match r with
       | Ok file =>
           table w' = table w ++ [file] /\ recorded env w w' file
           /\ fs w' = delete (tempFilePathIn env w) (fs w)
       | Throw _ => table w' = table w /\ fs w' = delete (tempFilePathIn env w) (fs w)
       | Diverge => table w' = table w
       end).
Proof.
  unfold uploadSingleFile. apply wp_try_catch.
  unfold createTempFilePath.
  apply wp_bind, wp_bind, wp_gets, wp_bind, wp_modify, wp_ret.
  fold (tempFilePathIn env w). apply wp_try_catch.
  eapply wp_conseq; [apply transfer_spec|]. cbn beta.
  intros [file|e|] w1 [Hlen Hr]; simpl in Hlen, Hr; auto.
  destruct Hr as (Ht & [(b & Hf)|Hf]).
  - unfold cleanup. apply wp_bind, wp_try_catch, wp_bind.
    unfold fs_access, fs_unlink. apply wp_bind, wp_gets. rewrite Hf, lookup_insert_eq.
    apply wp_ret, wp_bind, wp_gets. rewrite Hf, lookup_insert_eq.
    apply wp_modify, wp_throw.
    eapply wp_conseq; [apply rethrowAsHttp_spec|]. cbn beta.
    intros r w2 ((e' & ->) & Ht2 & Hf2). simpl in Ht2, Hf2.
    rewrite Ht2, Hf2, Ht, Hf, delete_insert_eq. auto.
  - unfold cleanup. apply wp_bind, wp_try_catch, wp_bind.
    unfold fs_access, fs_unlink. apply wp_bind, wp_gets. rewrite Hf.
    destruct (fs w !! tempFilePathIn env w) as [b|] eqn:Hb.
    + apply wp_ret, wp_bind, wp_gets. rewrite Hf, Hb.
      apply wp_modify, wp_throw.
      eapply wp_conseq; [apply rethrowAsHttp_spec|]. cbn beta.
      intros r w2 ((e' & ->) & Ht2 & Hf2). simpl in Ht2, Hf2.
      rewrite Ht2, Hf2, Ht, Hf. auto.
    + apply wp_throw, wp_ret, wp_throw.
      eapply wp_conseq; [apply rethrowAsHttp_spec|]. cbn beta.
      intros r w2 ((e' & ->) & Ht2 & Hf2). simpl in Ht2, Hf2.
      rewrite Ht2, Hf2, Ht, Hf, delete_id by assumption. auto.
Qed.

End Pipeline.

(** C7: a FileRecord row is written only once the provider has confirmed
    the upload with a non-empty file id, answering a request sent during
    this very run, and that id is the row's [driveFileId]; on every
    failing path of the pipeline of one URL (and when the upload never
    settles) the table is left as it was.  [processFileUpload] is the same
    computation. *)
Theorem record_only_after_confirmed_upload env fuel url w :
  let run := FileService.uploadSingleFile env fuel url w in
  FileService.processFileUpload env fuel url w = run
  /\ match run.1 with
     | Ok file =>
         table run.2 = table w ++ [file]
         /\ exists k : nat,
              (length (drive_requests w) <= k < length (drive_requests run.2))%nat
              /\ files_create env k = CreateResponse (Some (driveFileId file))
              /\ driveFileId file <> ""
     | Throw _ => table run.2 = table w
     | Diverge => table run.2 = table w
     end.
Proof.
  split; [apply processFileUpload_single_attempt|].
  pose proof (uploadSingleFile_spec env fuel url w) as H. unfold wp in H.
  destruct (FileService.uploadSingleFile env fuel url w) as [[file|e|] w']; simpl in *.
  - destruct H as (Ht & Hrec & _). split; assumption.
  - apply H.
  - apply H.
Qed.

(** ** The temp file and the pending open *)

Section TempFile.
Import FileService.

Lemma quiescent_pending path w :
  path ∈ opening w -> fs (quiescent w) !! path = Some noBytes.
Proof.
  unfold quiescent. world_fields. generalize (fs w) as files.
  induction (opening w) as [|p pending IH]; intros files Hin; [inversion Hin|].
  cbn [foldr]. destruct (decide (p = path)) as [->|Hne].
  - apply lookup_insert_eq.
  - rewrite lookup_insert_ne by exact Hne. apply IH.
    apply elem_of_cons in Hin as [->|Hin]; [contradiction|exact Hin].
Qed.

Lemma quiescent_settled path w :
  path ∉ opening w -> fs (quiescent w) !! path = fs w !! path.
Proof.
  unfold quiescent. world_fields. generalize (fs w) as files.
  induction (opening w) as [|p pending IH]; intros files Hin; [reflexivity|].
  cbn [foldr]. apply not_elem_of_cons in Hin as [Hne Hin].
  rewrite lookup_insert_ne by congruence. apply IH. exact Hin.
Qed.

(** Where the open of the temp file stands when the pipeline of one URL
    ends: still pending when no request went out. *)
Lemma uploadSingleFile_opening env fuel url w :
  wp (uploadSingleFile env fuel url) w
    (fun _ w' =>
       opening w'
       = match http_get env (length (http_requests w)) url with
         | NotSent _ => opening w ++ [tempFilePathIn env w]
         | _ => filter (fun p => p <> tempFilePathIn env w)
                  (opening w ++ [tempFilePathIn env w])
         end).
Proof.
  unfold uploadSingleFile.
  apply wp_try_catch_frame;
    [|intros e; unfold rethrowAsHttp, logger; keeps_tac].
  unfold createTempFilePath. apply wp_bind, wp_bind, wp_gets, wp_bind, wp_modify, wp_ret.
  fold (tempFilePathIn env w).
  apply wp_try_catch_frame;
    [|intros e; unfold cleanup, fs_access, fs_unlink; keeps_tac].
  unfold transfer. apply wp_bind_frame.
  2:{ intros [fileStream fileMetadata].
      unfold uploadLargeFile, saveToDB, fs_unlink, logger, createReadStream.
      keeps_tac;
        try (apply extractFileNameFromUrl_keeps; reflexivity);
        try (apply uploadFile_keeps; intros; reflexivity). }
  unfold downloadFile, createWriteStream.
  apply wp_bind, wp_modify, wp_bind, wp_gets, wp_bind, wp_modify. world_fields.
  destruct (http_get env _ url) as [errno|status ct cl body|error].
  - apply wp_bind, wp_modify, wp_throw. reflexivity.
  - apply wp_bind, wp_modify.
    eapply wp_conseq;
      [apply (wp_keeps opening);
       unfold fs_stat, createReadStream; keeps_tac;
       apply extractFileNameFromUrl_keeps; reflexivity|].
    cbn beta. intros _ w1 ->. reflexivity.
  - apply wp_throw. reflexivity.
Qed.

(** A call of [axios] that rejects before a request is made: the error
    leaves as a 400, and nothing but the log has changed when it does. *)
Lemma uploadSingleFile_unsent env fuel url w error :
  http_get env (length (http_requests w)) url = NotSent error ->
  wp (uploadSingleFile env fuel url) w
    (fun r w' =>
       (exists msg, r = Throw (HttpException msg BAD_REQUEST))
       /\ (responseTruthy (response error) = false -> request error = false ->
           r = Throw (HttpException ("Failed to upload file: " +:+ message error)
                        BAD_REQUEST))
       /\ fs w' = delete (tempFilePathIn env w) (fs w)).
Proof.
  intros Hget. unfold uploadSingleFile. apply wp_try_catch.
  unfold createTempFilePath. apply wp_bind, wp_bind, wp_gets, wp_bind, wp_modify, wp_ret.
  fold (tempFilePathIn env w). set (tmp := tempFilePathIn env w).
  apply wp_try_catch. unfold transfer. apply wp_bind.
  unfold downloadFile, createWriteStream.
  apply wp_bind, wp_modify, wp_bind, wp_gets, wp_bind, wp_modify. world_fields.
  rewrite Hget. apply wp_throw.
  assert (Hlast : forall v, fs v = delete tmp (fs w) ->
            wp (@rethrowAsHttp File url error) v
              (fun r w' =>
                 (exists msg, r = Throw (HttpException msg BAD_REQUEST))
                 /\ (responseTruthy (response error) = false -> request error = false ->
                     r = Throw (HttpException ("Failed to upload file: " +:+ message error)
                                  BAD_REQUEST))
                 /\ fs w' = delete tmp (fs w))).
  { intros v Hv. unfold rethrowAsHttp. apply wp_bind, wp_modify.
    destruct (isAxiosError error && responseTruthy (response error)) eqn:H1.
    - apply wp_throw. split; [eauto|]. split; [|exact Hv].
      intros Hr _. rewrite Hr, andb_false_r in H1. discriminate.
    - destruct (isAxiosError error && request error) eqn:H2.
      + apply wp_throw. split; [eauto|]. split; [|exact Hv].
        intros _ Hr. rewrite Hr, andb_false_r in H2. discriminate.
      + apply wp_throw. split; [eauto|]. split; [reflexivity|exact Hv]. }
  unfold cleanup. apply wp_bind, wp_try_catch, wp_bind.
  unfold fs_access, fs_unlink. apply wp_bind, wp_gets. world_fields.
  destruct (fs w !! tmp) as [b|] eqn:Hb.
  - apply wp_ret, wp_bind, wp_gets. world_fields. rewrite Hb.
    apply wp_modify, wp_throw, Hlast. reflexivity.
  - apply wp_throw, wp_ret, wp_throw, Hlast. world_fields.
    symmetry. apply delete_id. exact Hb.
Qed.

End TempFile.

(** C8, as the code has it.  The temp file is created by
    [createWriteStream], which opens it in the background, and the catch
    block removes it only if [fs.access] finds it.  When [axios] rejects
    before any request is made (a URL it cannot use), the catch block
    runs while the open is still pending: it finds no file and removes
    none, the URL fails with a 400, and the file appears, empty, once the
    open completes; nothing removes it then.  On every other exit, in
    success or in failure, the open has completed before the outcome is
    known and the temp file is removed for good. *)
Theorem temp_file_removed_on_every_exit env fuel url w :
  let tmp := tempFilePathIn env w in
  let run := FileService.uploadSingleFile env fuel url w in
  match http_get env (length (http_requests w)) url with
  | NotSent error =>
      (exists msg, run.1 = Throw (HttpException msg BAD_REQUEST))
      /\ (FileService.responseTruthy (response error) = false -> request error = false ->
          run.1 = Throw (HttpException ("Failed to upload file: " +:+ message error)
                           BAD_REQUEST))
      /\ fs run.2 = delete tmp (fs w)
      /\ (tmp ∈ opening run.2)
      /\ fs (quiescent run.2) !! tmp = Some noBytes
  | _ =>
      run.1 <> Diverge ->
      fs run.2 = delete tmp (fs w)
      /\ (tmp ∉ opening run.2)
      /\ fs (quiescent run.2) !! tmp = None
  end.
Proof.
  cbn zeta.
  pose proof (uploadSingleFile_opening env fuel url w) as Hopen.
  pose proof (uploadSingleFile_spec env fuel url w) as Hspec.
  pose proof (uploadSingleFile_unsent env fuel url w) as Hunsent.
  unfold wp in Hopen, Hspec, Hunsent.
  assert (Hout : forall p : string, p ∉ filter (fun q => q <> p)
                          (opening w ++ [tempFilePathIn env w])).
  { intros p [Hne _]%list_elem_of_filter. apply Hne. reflexivity. }
  assert (Hsent : (FileService.uploadSingleFile env fuel url w).1 <> Diverge ->
            opening (FileService.uploadSingleFile env fuel url w).2
            = filter (fun p => p <> tempFilePathIn env w)
                (opening w ++ [tempFilePathIn env w]) ->
            fs (FileService.uploadSingleFile env fuel url w).2
            = delete (tempFilePathIn env w) (fs w)
            /\ (tempFilePathIn env w
                ∉ opening (FileService.uploadSingleFile env fuel url w).2)
            /\ fs (quiescent (FileService.uploadSingleFile env fuel url w).2)
               !! tempFilePathIn env w = None).
  { intros Hs Ho.
    assert (Hfs : fs (FileService.uploadSingleFile env fuel url w).2
                  = delete (tempFilePathIn env w) (fs w)).
    { destruct (FileService.uploadSingleFile env fuel url w) as [[file|e|] w']; simpl in *;
        [apply Hspec|apply Hspec|congruence]. }
    split; [exact Hfs|]. rewrite Ho. split; [apply Hout|].
    rewrite quiescent_settled by (rewrite Ho; apply Hout).
    rewrite Hfs. apply lookup_delete_eq. }
  destruct (http_get env (length (http_requests w)) url) as [errno|status ct cl body|error].
  - intros Hs. apply Hsent; assumption.
  - intros Hs. apply Hsent; assumption.
  - destruct (Hunsent error eq_refl) as (Hr & Hmsg & Hfs).
    split; [exact Hr|]. split; [exact Hmsg|]. split; [exact Hfs|].
    assert (Hin : tempFilePathIn env w
                  ∈ opening (FileService.uploadSingleFile env fuel url w).2)
      by (rewrite Hopen; apply elem_of_app; right; apply list_elem_of_singleton;
          reflexivity).
    split; [exact Hin|]. apply quiescent_pending. exact Hin.
Qed.

(** An ftp URL given to the service: the request fails with a 400, and an
    empty temp file is left behind, also when the URL comes in through
    [uploadFiles] of either variant.  A download that answers 404 leaves
    none. *)
Lemma temp_file_removed_on_every_exit_witness :
  (let run := FileService.uploadSingleFile Demo.webOnly 3 "ftp://example.com/a.pdf"
                Demo.world in
   run.1 = Throw (HttpException "Failed to upload file: Unsupported protocol ftp:" 400)
   /\ fs run.2 = delete "/tmp/upload-r0" (fs Demo.world)
   /\ fs (quiescent run.2) !! "/tmp/upload-r0" = Some noBytes)
  /\ (let run := Limited.uploadFiles Demo.webOnly 3 [0%nat] ["ftp://example.com/a.pdf"]
                   Demo.world in
      fs (quiescent run.2) = {["/tmp/upload-r0" := noBytes]})
  /\ (let run := Batched.uploadFiles Demo.webOnly 3 [0%nat] ["ftp://example.com/a.pdf"]
                   Demo.world in
      fs (quiescent run.2) = {["/tmp/upload-r0" := noBytes]})
  /\ (let run := FileService.uploadSingleFile Demo.missingB 3 "https://example.com/b.pdf"
                   Demo.world in
      fs (quiescent run.2) !! "/tmp/upload-r0" = None).
Proof.
  pose proof (temp_file_removed_on_every_exit Demo.webOnly 3 "ftp://example.com/a.pdf"
                Demo.world) as H1.
  pose proof (temp_file_removed_on_every_exit Demo.missingB 3 "https://example.com/b.pdf"
                Demo.world) as H2.
  cbn zeta in H1, H2.
  change (http_get Demo.webOnly (length (http_requests Demo.world))
            "ftp://example.com/a.pdf") with (NotSent Demo.unsupportedProtocol) in H1.
  change (http_get Demo.missingB (length (http_requests Demo.world))
            "https://example.com/b.pdf")
    with (HttpResponse 404 None None (BodyFinish noBytes)) in H2.
  destruct H1 as (_ & Hmsg & Hfs & _ & Hq).
  split; [split; [exact (Hmsg eq_refl eq_refl)|split; [exact Hfs|exact Hq]]|].
  split; [vm_compute; reflexivity|]. split; [vm_compute; reflexivity|].
  apply H2. vm_compute. discriminate.
Defined.

(** ** URL validation *)

Section UrlValidation.
Import Limited.

Lemma transformUrl_verdict url :
  Dto.transformUrl url =
    if includes Dto.DANGEROUS_FILE_EXTENSIONS (Dto.urlExtension url) then
      Throw (newError ("File extension " +:+ dquote +:+ showOpt (Dto.urlExtension url)
                       +:+ dquote +:+ " is not allowed for security reasons"))
    else if includes Dto.SUPPORTED_FILE_EXTENSIONS (Dto.urlExtension url) then Ok (trim url)
    else Throw (newError ("File extension " +:+ dquote +:+ showOpt (Dto.urlExtension url)
                          +:+ dquote +:+ " is not supported")).
Proof.
  unfold Dto.transformUrl, Dto.urlExtension.
  destruct (includes Dto.DANGEROUS_FILE_EXTENSIONS _); [reflexivity|].
  destruct (includes Dto.SUPPORTED_FILE_EXTENSIONS _); reflexivity.
Qed.

Lemma extractFileNameFromUrl_parsed env url urlPath w :
  URL_pathname env url = Some urlPath ->
  FileService.extractFileNameFromUrl env url w = (Ok (fileNameOf env url), w).
Proof.
  intros H. unfold FileService.extractFileNameFromUrl, fileNameOf. rewrite H. reflexivity.
Qed.

Lemma checkUrl_run env url w :
  checkUrl env url w
  = (Ok (if offending env url then Some (url, reasonFor env url) else None), w).
Proof.
  unfold checkUrl, offending, reasonFor.
  destruct (URL_pathname env url) as [urlPath|] eqn:Hp; [|reflexivity].
  unfold mbind, M_bind. rewrite (extractFileNameFromUrl_parsed env url urlPath w Hp).
  cbn zeta. fold (pathExtension env url).
  destruct (String.eqb (pathExtension env url) "" || String.eqb (pathExtension env url) ".");
    cbn [orb]; [reflexivity|].
  destruct (includes SUPPORTED (Some (pathExtension env url))); reflexivity.
Qed.

Lemma collectInvalid_run env fileUrls invalidUrls w :
  collectInvalid env fileUrls invalidUrls w
  = (Ok (invalidUrls ++ refusals env fileUrls), w).
Proof.
  unfold refusals. revert invalidUrls.
  induction fileUrls as [|url rest IH]; intros invalidUrls; simpl.
  - rewrite app_nil_r. reflexivity.
  - unfold mbind, M_bind. rewrite checkUrl_run.
    destruct (offending env url) eqn:Hoff.
    + rewrite IH, filter_cons_True by assumption. rewrite <- app_assoc. reflexivity.
    + rewrite IH, filter_cons_False by congruence. reflexivity.
Qed.

(** [validateFileUrls] changes nothing; it throws exactly when some entry
    is refused, and the error lists the refused entries in order. *)
Lemma validateFileUrls_run env fileUrls w :
  validateFileUrls env fileUrls w
  = (match refusals env fileUrls with
     | [] => Ok tt
     | items => Throw (HttpExceptionObj "Invalid file URLs detected" items BAD_REQUEST)
     end, w).
Proof.
  unfold validateFileUrls, mbind, M_bind. rewrite collectInvalid_run.
  cbn [app]. destruct (refusals env fileUrls); reflexivity.
Qed.

Lemma dtoOffending_transformUrl url :
  if dtoOffending url then
    exists e, Dto.transformUrl url = Throw e /\ details e = [] /\ http_status e = None
  else Dto.transformUrl url = Ok (trim url).
Proof.
  rewrite transformUrl_verdict. unfold dtoOffending.
  destruct (includes Dto.DANGEROUS_FILE_EXTENSIONS (Dto.urlExtension url)); cbn [orb];
    [eexists; repeat split|].
  destruct (includes Dto.SUPPORTED_FILE_EXTENSIONS (Dto.urlExtension url)); cbn [negb];
    [reflexivity|eexists; repeat split].
Qed.

(** The transform lets a body through when no entry is refused, and
    otherwise throws what the callback throws on the first refused
    entry. *)
Lemma Transform_run body :
  (Dto.Transform body = Ok (trim <$> body)
   /\ Forall (fun url => dtoOffending url = false) body)
  \/ exists before url after e,
       body = before ++ url :: after
       /\ Forall (fun url => dtoOffending url = false) before
       /\ dtoOffending url = true
       /\ Dto.transformUrl url = Throw e
       /\ Dto.Transform body = Throw e
       /\ details e = [] /\ http_status e = None.
Proof.
  induction body as [|url body IH].
  - left. split; [reflexivity|constructor].
  - unfold Dto.Transform in *. cbn [mapThrow].
    pose proof (dtoOffending_transformUrl url) as Hurl.
    destruct (dtoOffending url) eqn:Hoff.
    + destruct Hurl as (e & He & Hd & Hs). right.
      exists [], url, body, e. rewrite He. repeat split; auto.
    + rewrite Hurl. destruct IH as [[-> Hall]|(before & u & after & e & -> & Hb & Hu & Ht & -> & Hd & Hs)].
      * left. split; [reflexivity|constructor; assumption].
      * right. exists (url :: before), u, after, e. repeat split; auto.
Qed.

End UrlValidation.

Section BatchRejection.

Lemma service_rejects env fuel order fileUrls w :
  (exists url, url ∈ fileUrls /\ offending env url = true) ->
  FileController.uploadFiles (Limited.uploadFiles env fuel order fileUrls) w
  = (Throw (HttpExceptionObj "Invalid file URLs detected" (refusals env fileUrls)
              BAD_REQUEST), w).
Proof.
  intros (url & Hin & Hoff).
  assert (Hne : (url, reasonFor env url) ∈ refusals env fileUrls).
  { unfold refusals. apply (list_elem_of_fmap_2 (fun url => (url, reasonFor env url))).
    apply list_elem_of_filter. split; assumption. }
  unfold FileController.uploadFiles, Limited.uploadFiles, try_catch.
  destruct fileUrls as [|u rest]; [inversion Hin|]. cbn [length Nat.eqb].
  unfold mbind at 1, M_bind at 1. rewrite validateFileUrls_run.
  destruct (refusals env (u :: rest)) as [|item items]; [inversion Hne|]. reflexivity.
Qed.

(** The constraints name no URL: when some entry is not an HTTP(S) URL,
    the messages hold the message of the URL constraint once, next to
    those of the size constraints that fail. *)
Lemma validate_one_message env fileUrls :
  (exists url, url ∈ fileUrls /\ isURL env url = false) ->
  exists sizes,
    ValidationPipe.validate env fileUrls = sizes ++ [urlMessage]
    /\ sizes ⊆ ["At least one file URL must be provided";
                "Maximum 10 file URLs are allowed at once"].
Proof.
  intros (url & Hin & Hurl). unfold ValidationPipe.validate.
  assert (Hall : forallb (isURL env) fileUrls = false).
  { apply not_true_is_false. intros Hall. rewrite forallb_forall in Hall.
    rewrite (Hall url) in Hurl; [discriminate|]. apply list_elem_of_In. assumption. }
  rewrite Hall.
  exists ((if (length fileUrls <? 1)%nat then ["At least one file URL must be provided"]
           else [])
          ++ (if (10 <? length fileUrls)%nat
              then ["Maximum 10 file URLs are allowed at once"] else [])).
  split; [rewrite <- app_assoc; reflexivity|].
  destruct (length fileUrls <? 1)%nat, (10 <? length fileUrls)%nat; cbn [app];
    intros m Hm;
    repeat (apply elem_of_cons in Hm as [->|Hm];
            [repeat (apply elem_of_cons; first [left; reflexivity|right])|]);
    inversion Hm.
Qed.

Lemma validate_passes env fileUrls url :
  ValidationPipe.validate env fileUrls = [] -> url ∈ fileUrls -> isURL env url = true.
Proof.
  unfold ValidationPipe.validate. intros H Hin.
  apply app_eq_nil in H as [_ H]. apply app_eq_nil in H as [_ H].
  destruct (forallb (isURL env) fileUrls) eqn:Hall; [|discriminate].
  rewrite forallb_forall in Hall. apply Hall, list_elem_of_In. assumption.
Qed.

End BatchRejection.

(** C6, as the code has it.  A request is rejected as a whole, with
    nothing downloaded or uploaded, whenever an entry is refused by the
    extension transform of the DTO, by its HTTP(S) URL constraint, or,
    once trimmed, by the URL check of the service (unparsable, no
    extension in the path, extension outside the allow-list, which holds
    no deny-listed extension).  Only the 400 error of the service is
    itemised: it carries the refused URLs, in order, each with its
    reason.  The URL constraint answers 400 with one message for the
    whole list, whichever and however many entries fail it, next to the
    messages of the size constraints that fail with it (in an order the
    statement leaves open), and names no URL. *)
Theorem url_validation_rejects_whole_batch env fuel order body w :
  let run := ValidationPipe.postUpload env (Limited.uploadFiles env fuel order) body w in
  ((exists url, url ∈ body
      /\ (dtoOffending url = true \/ isURL env (trim url) = false
          \/ offending env (trim url) = true))
   -> exists e, run = (Throw e, w))
  /\ (forall fileUrls,
        Dto.Transform body = Ok fileUrls ->
        (exists url, url ∈ fileUrls /\ isURL env url = false) ->
        exists messages sizes,
          run = (Throw (ValidationPipe.BadRequestException messages), w)
          /\ messages ≡ₚ urlMessage :: sizes
          /\ sizes ⊆ ["At least one file URL must be provided";
                      "Maximum 10 file URLs are allowed at once"]
          /\ http_status (ValidationPipe.BadRequestException messages) = Some 400
          /\ details (ValidationPipe.BadRequestException messages)
             = (fun m => ("fileUrls", m)) <$> messages)
  /\ (forall fileUrls,
        ValidationPipe.transform env body = Ok fileUrls ->
        (exists url, url ∈ fileUrls /\ offending env url = true) ->
        exists e, run = (Throw e, w)
          /\ http_status e = Some 400
          /\ message e = "Invalid file URLs detected"
          /\ details e
             = (fun url => (url, reasonFor env url))
                 <$> filter (fun url => offending env url = true) fileUrls)
  /\ (forall url,
        reasonFor env url = "Invalid URL format"
        \/ reasonFor env url
           = "Missing file extension. Please provide a URL with a valid file extension."
        \/ reasonFor env url
           = "File extension " +:+ dquote +:+ pathExtension env url +:+ dquote
             +:+ " is not supported.")
  /\ (forall ext, ext ∈ Dto.DANGEROUS_FILE_EXTENSIONS ->
        includes Limited.SUPPORTED (Some ("." +:+ ext)) = false).
Proof.
  cbn zeta. split; [|split; [|split; [|split]]].
  - intros (url & Hin & Hbad). unfold ValidationPipe.postUpload, ValidationPipe.transform.
    destruct (Transform_run body)
      as [[-> Hall]|(before & u & after & e & _ & _ & _ & _ & -> & _)]; [|eauto].
    destruct (ValidationPipe.validate env (trim <$> body)) as [|m ms] eqn:Hv; [|eauto].
    assert (Hin' : trim url ∈ trim <$> body) by (apply list_elem_of_fmap_2; assumption).
    destruct Hbad as [Hd|[Hu|Ho]].
    + rewrite Forall_forall in Hall. rewrite (Hall url Hin) in Hd. discriminate.
    + rewrite (validate_passes env _ _ Hv Hin') in Hu. discriminate.
    + rewrite (service_rejects env fuel order (trim <$> body) w); eauto.
  - intros fileUrls Ht Hex. unfold ValidationPipe.postUpload, ValidationPipe.transform.
    rewrite Ht. destruct (validate_one_message env fileUrls Hex) as (sizes & -> & Hsizes).
    exists (sizes ++ [urlMessage]), sizes.
    split; [destruct (sizes ++ [urlMessage]) as [|m ms] eqn:Hm;
            [destruct sizes; discriminate|reflexivity]|].
    split; [symmetry; apply Permutation_cons_append|].
    split; [exact Hsizes|]. split; reflexivity.
  - intros fileUrls Ht Hex. unfold ValidationPipe.postUpload. rewrite Ht.
    rewrite (service_rejects env fuel order fileUrls w Hex).
    eexists. split; [reflexivity|]. repeat split.
  - intros url. unfold reasonFor. destruct (URL_pathname env url); [|auto].
    destruct (String.eqb (pathExtension env url) "" || String.eqb (pathExtension env url) ".");
      auto.
  - intros ext Hext. unfold Dto.DANGEROUS_FILE_EXTENSIONS in Hext.
    repeat (apply elem_of_cons in Hext as [->|Hext]; [reflexivity|]).
    inversion Hext.
Qed.

(** A body that passes the DTO, of which the service refuses the second
    and third entries. *)
Lemma url_validation_rejects_whole_batch_witness :
  let body := ["https://example.com/a.pdf"; "https://example.com/slides.ppt";
               "https://example.com/run.exe#.pdf"] in
  let run := ValidationPipe.postUpload Demo.env (Limited.uploadFiles Demo.env 3 [0; 1; 2]%nat)
               body Demo.world in
  ValidationPipe.transform Demo.env body = Ok body
  /\ (exists url, url ∈ body /\ offending Demo.env url = true)
  /\ exists e, run = (Throw e, Demo.world)
       /\ http_status e = Some 400
       /\ message e = "Invalid file URLs detected"
       /\ details e
          = [("https://example.com/slides.ppt",
              "File extension " +:+ dquote +:+ ".ppt" +:+ dquote +:+ " is not supported.");
             ("https://example.com/run.exe#.pdf",
              "File extension " +:+ dquote +:+ ".exe" +:+ dquote +:+ " is not supported.")].
Proof.
  cbn zeta.
  assert (Ht : ValidationPipe.transform Demo.env
                 ["https://example.com/a.pdf"; "https://example.com/slides.ppt";
                  "https://example.com/run.exe#.pdf"]
               = Ok ["https://example.com/a.pdf"; "https://example.com/slides.ppt";
                     "https://example.com/run.exe#.pdf"]) by (vm_compute; reflexivity).
  assert (Hex : exists url,
             url ∈ ["https://example.com/a.pdf"; "https://example.com/slides.ppt";
                    "https://example.com/run.exe#.pdf"]
             /\ offending Demo.env url = true).
  { exists "https://example.com/slides.ppt". split; [|vm_compute; reflexivity].
    apply elem_of_cons. right. apply elem_of_cons. left. reflexivity. }
  split; [exact Ht|split; [exact Hex|]].
  destruct (proj1 (proj2 (proj2 (url_validation_rejects_whole_batch Demo.env 3
                                   [0; 1; 2]%nat
                                   ["https://example.com/a.pdf";
                                    "https://example.com/slides.ppt";
                                    "https://example.com/run.exe#.pdf"] Demo.world)))
              _ Ht Hex) as (e & Hrun & Hstatus & Hmsg & Hdetails).
  exists e. split; [exact Hrun|]. split; [exact Hstatus|]. split; [exact Hmsg|].
  rewrite Hdetails. vm_compute. reflexivity.
Defined.

(** C6 as stated fails.  A body with an ftp URL and a URL without a
    scheme is rejected by the URL constraint with a 400 that carries one
    message for the list and neither URL; and the service on its own
    does not refuse the ftp URL at all. *)
Lemma url_constraint_is_not_itemised :
  (let run := ValidationPipe.postUpload Demo.env (Limited.uploadFiles Demo.env 3 [0; 1]%nat)
                ["ftp://example.com/a.pdf"; "example.com/b.pdf"] Demo.world in
   run = (Throw (ValidationPipe.BadRequestException
                   ["Each URL must be a valid HTTP or HTTPS URL"]), Demo.world)
   /\ ValidationPipe.statusCode run.1 = Some 400)
  /\ Limited.validateFileUrls Demo.env ["ftp://example.com/a.pdf"] Demo.world
     = (Ok tt, Demo.world)
  /\ ~ (forall env fuel order body w e url,
          ValidationPipe.postUpload env (Limited.uploadFiles env fuel order) body w
          = (Throw e, w) ->
          url ∈ body -> isURL env (trim url) = false ->
          exists reason, (url, reason) ∈ details e).
Proof.
  split; [vm_compute; split; reflexivity|split; [vm_compute; reflexivity|]].
  intros H.
  destruct (H Demo.env 3%nat [0; 1]%nat
              ["ftp://example.com/a.pdf"; "example.com/b.pdf"] Demo.world
              (ValidationPipe.BadRequestException
                 ["Each URL must be a valid HTTP or HTTPS URL"])
              "ftp://example.com/a.pdf") as (reason & Hin).
  - vm_compute. reflexivity.
  - apply elem_of_cons. left. reflexivity.
  - vm_compute. reflexivity.
  - vm_compute in Hin. apply elem_of_cons in Hin as [Hin|Hin]; [discriminate|inversion Hin].
Qed.

(** C10: the extension the DTO checks is the last dot-separated segment
    of the whole trimmed, lowercased URL string.  So a URL whose path ends
    in .pdf but which carries a query string is rejected, and a URL whose
    path ends in .exe but whose fragment ends in .pdf passes the
    transform. *)
Theorem dto_extension_is_last_dot_segment :
  (forall url,
     Dto.transformUrl url = Ok (trim url) <->
     includes Dto.DANGEROUS_FILE_EXTENSIONS (pop (split "." (toLowerCase (trim url)))) = false
     /\ includes Dto.SUPPORTED_FILE_EXTENSIONS (pop (split "." (toLowerCase (trim url)))) = true)
  /\ (Demo.pathname "https://example.com/file.pdf?download=1" = Some "/file.pdf"
      /\ Dto.urlExtension "https://example.com/file.pdf?download=1" = Some "pdf?download=1"
      /\ forall env service w,
           ValidationPipe.postUpload env service ["https://example.com/file.pdf?download=1"] w
           = (Throw (newError ("File extension " +:+ dquote +:+ "pdf?download=1" +:+ dquote
                               +:+ " is not supported")), w))
  /\ (Demo.pathname "https://example.com/run.exe#.pdf" = Some "/run.exe"
      /\ Dto.urlExtension "https://example.com/run.exe#.pdf" = Some "pdf"
      /\ Dto.Transform ["https://example.com/run.exe#.pdf"]
         = Ok ["https://example.com/run.exe#.pdf"]
      /\ forall env,
           isURL env "https://example.com/run.exe#.pdf" = true ->
           ValidationPipe.transform env ["https://example.com/run.exe#.pdf"]
           = Ok ["https://example.com/run.exe#.pdf"]).
Proof.
  split; [|split].
  - intros url. rewrite transformUrl_verdict. unfold Dto.urlExtension.
    destruct (includes Dto.DANGEROUS_FILE_EXTENSIONS _);
      destruct (includes Dto.SUPPORTED_FILE_EXTENSIONS _); split; intros H;
      try discriminate; try (destruct H; discriminate); auto.
  - repeat split; vm_compute; reflexivity.
  - split; [vm_compute; reflexivity|]. split; [vm_compute; reflexivity|].
    split; [vm_compute; reflexivity|].
    intros env Hurl. unfold ValidationPipe.transform, ValidationPipe.validate.
    change (Dto.Transform ["https://example.com/run.exe#.pdf"])
      with (Ok (A := list string) ["https://example.com/run.exe#.pdf"]).
    cbn [forallb length Nat.ltb Nat.leb]. rewrite Hurl. reflexivity.
Qed.

(** ** Aggregation in the variant with batches *)

Section Aggregation.

Lemma wp_settled {A} (c : M A) w Q :
  wp c w (fun r w1 => match r with
                      | Ok a => Q (Ok (inr a)) w1
                      | Throw e => Q (Ok (inl e)) w1
                      | Diverge => Q Diverge w1
                      end) ->
  wp (settled c) w Q.
Proof. unfold wp, settled. destruct (c w) as [[a|e|] w1]; simpl; auto. Qed.

Lemma wp_processFileUpload env fuel url w Q :
  wp (FileService.uploadSingleFile env fuel url) w Q ->
  wp (FileService.processFileUpload env fuel url) w Q.
Proof. unfold wp. rewrite processFileUpload_single_attempt. auto. Qed.

Lemma settle_spec env fuel tasks uploadedFiles failedUploads w :
  wp (Batched.settle env fuel tasks uploadedFiles failedUploads) w
    (fun r w' =>
       match r with
       | Ok (uploaded, failed) =>
           exists files failures,
             uploaded = uploadedFiles ++ files /\ failed = failedUploads ++ failures
             /\ table w' = table w ++ files
             /\ (length files + length failures = length tasks)%nat
       | Throw _ => False
       | Diverge => True
       end).
Proof.
  revert uploadedFiles failedUploads w.
  induction tasks as [|url tasks IH]; intros uploadedFiles failedUploads w;
    cbn [Batched.settle].
  - apply wp_ret. exists [], []. rewrite !app_nil_r. auto.
  - apply wp_bind, wp_settled, wp_processFileUpload.
    eapply wp_conseq; [apply uploadSingleFile_spec|]. cbn beta.
    intros [file|e|] w1 Hr; [| |exact I].
    + destruct Hr as (Ht & _ & _).
      eapply wp_conseq; [apply IH|]. cbn beta.
      intros [[uploaded failed]|e|] w2 Hr2; auto.
      destruct Hr2 as (files & failures & -> & -> & Ht2 & Hlen).
      exists (file :: files), failures. rewrite <- app_assoc. simpl.
      rewrite Ht2, Ht, <- app_assoc. repeat split; auto; simpl; lia.
    + destruct Hr as (Ht & _).
      apply wp_bind, wp_modify.
      eapply wp_conseq; [apply IH|]. cbn beta.
      intros [[uploaded failed]|e'|] w2 Hr2; auto.
      destruct Hr2 as (files & failures & -> & -> & Ht2 & Hlen).
      exists files, ((url, message e) :: failures). rewrite <- app_assoc. simpl.
      simpl in Ht2. rewrite Ht2, Ht. repeat split; auto; simpl; lia.
Qed.

Lemma slices_concat fuel batchSize fileUrls :
  (0 < batchSize)%nat -> (length fileUrls <= fuel)%nat ->
  concat (Batched.slices fuel batchSize fileUrls) = fileUrls.
Proof.
  intros Hpos. revert fileUrls.
  induction fuel as [|fuel IH]; intros [|url rest] Hlen; simpl in *; try reflexivity; try lia.
  destruct batchSize as [|n]; [lia|]. simpl.
  rewrite IH by (rewrite length_drop; lia).
  f_equal. apply take_drop.
Qed.

(** The variant with batches returns exactly the records the batch wrote,
    and fails with 400, listing every URL, only when there were uploads
    and all of them failed. *)
Lemma batched_uploadFiles_aggregates env fuel order fileUrls w :
  wp (Batched.uploadFiles env fuel order fileUrls) w
    (fun r w' =>
       match r with
       | Ok files =>
           table w' = table w ++ files
           /\ (files = [] -> Batched.tasks env order fileUrls = [])
       | Throw e =>
           table w' = table w /\ http_status e = Some 400
           /\ length (details e) = length (Batched.tasks env order fileUrls)
           /\ Batched.tasks env order fileUrls <> []
       | Diverge => True
       end).
Proof.
  unfold Batched.uploadFiles. apply wp_bind, wp_modify, wp_bind.
  destruct ((MAX_CONCURRENT_UPLOADS env =? 0)%nat && negb (length fileUrls =? 0)%nat);
    [apply wp_diverge; exact I|apply wp_ret, wp_bind].
  eapply wp_conseq; [apply settle_spec|]. cbn beta.
  intros [[uploaded failed]|e|] w1 Hr; [|contradiction|exact I].
  destruct Hr as (files & failures & -> & -> & Ht & Hlen). simpl in *.
  apply wp_bind, wp_modify.
  destruct failures as [|f failures]; destruct files as [|file files]; simpl.
  - apply wp_bind, wp_ret, wp_ret. simpl. rewrite Ht. split; [reflexivity|].
    intros _. destruct (Batched.tasks env order fileUrls); [reflexivity|discriminate].
  - apply wp_bind, wp_ret, wp_ret. simpl. split; [assumption|discriminate].
  - apply wp_throw. simpl. rewrite Ht, app_nil_r. repeat split; auto.
    destruct (Batched.tasks env order fileUrls); [discriminate|discriminate].
  - apply wp_bind, wp_modify, wp_ret. simpl. split; [assumption|discriminate].
Qed.

End Aggregation.

(** * Further properties *)

(** ** The retry loop, for any upload action *)

Section RetryLoop.
Import FileService.

(** The loop under a counter [p] that each attempt advances by one. *)
Lemma retryWhile_attempts (p : World -> nat) fuel upload url attempt delay lastError w :
  (forall v, p (upload v).2 = S (p v)) ->
  (forall l m v, p (with_log l m v) = p v) ->
  (forall d v, p (with_timer d v) = p v) ->
  settles upload ->
  0 <= attempt ->
  (Z.to_nat (MAX_RETRIES - attempt) <= fuel)%nat ->
  (lastError = None -> attempt < MAX_RETRIES) ->
  (forall e, lastError = Some e -> exists v, (upload v).1 = Throw e) ->
  let run := retryWhile fuel upload url attempt delay lastError w in
  run.1 <> Diverge
  /\ (p w <= p run.2 <= p w + Z.to_nat (MAX_RETRIES - attempt))%nat
  /\ (attempt < MAX_RETRIES -> (p w < p run.2)%nat)
  /\ (forall e, run.1 = Throw e -> exists v, (upload v).1 = Throw e).
Proof.
  intros Hp Hlog Htimer Hs. revert attempt delay lastError w.
  induction fuel as [|fuel IH]; intros attempt delay lastError w Ha Hfuel Hnone Hlast; cbn zeta.
  - assert (MAX_RETRIES <= attempt) by lia.
    rewrite retryWhile_exhausted by assumption. simpl.
    split; [discriminate|]. split; [lia|]. split; [lia|].
    intros e [= <-]. destruct lastError as [e0|]; [apply Hlast; reflexivity|].
    specialize (Hnone eq_refl). lia.
  - destruct (Z.lt_ge_cases attempt MAX_RETRIES) as [Hlt|Hge].
    + rewrite retryWhile_unfold by assumption.
      pose proof (Hp w) as Hpw. pose proof (Hs w) as Hsw.
      destruct (upload w) as [[file|error|] w1] eqn:Hup; simpl in Hpw, Hsw.
      * simpl. unfold MAX_RETRIES in *.
        split; [discriminate|]. split; [lia|]. split; [lia|]. discriminate.
      * assert (Herr : exists v, (upload v).1 = Throw error)
          by (exists w; rewrite Hup; reflexivity).
        destruct (isRetryable error).
        -- destruct (attempt + 1 <? MAX_RETRIES) eqn:Hb;
             match goal with
             | |- context [retryWhile fuel upload url ?a ?d ?l ?v] =>
                 destruct (IH a d l v) as (H1 & H2 & H3 & H4);
                   [lia|lia|discriminate|intros e [= <-]; assumption|]
             end;
             rewrite ?Htimer, ?Hlog in H2; unfold MAX_RETRIES in *;
             (split; [assumption|]); (split; [lia|]); (split; [lia|assumption]).
        -- simpl. unfold MAX_RETRIES in *.
           split; [discriminate|]. split; [lia|]. split; [lia|].
           intros e [= <-]. assumption.
      * congruence.
    + rewrite retryWhile_exhausted by assumption. simpl.
      split; [discriminate|]. split; [lia|]. split; [lia|].
      intros e [= <-]. destruct lastError as [e0|]; [apply Hlast; reflexivity|].
      specialize (Hnone eq_refl). lia.
Qed.

End RetryLoop.

(** X1: the loop ends with the first attempt when that attempt succeeds or
    fails with an error outside the transient set: its outcome is the
    outcome of the loop, and nothing is logged or waited for. *)
Theorem retry_ends_on_first_outcome (upload : M File) (url : string) (w : World) :
  (forall e, (upload w).1 = Throw e -> FileService.isRetryable e = false) ->
  FileService.retry upload url w = upload w.
Proof.
  intros Hnr. unfold FileService.retry.
  change (Z.to_nat FileService.MAX_RETRIES) with 3%nat.
  rewrite retryWhile_unfold by (unfold FileService.MAX_RETRIES; lia).
  destruct (upload w) as [[file|error|] w1]; try reflexivity.
  rewrite (Hnr error eq_refl). reflexivity.
Qed.

(** A raw 404 from axios is not retried. *)
Lemma retry_ends_on_first_outcome_witness :
  FileService.retry (throw (FileService.axiosBadStatus 404)) "https://example.com/a.pdf"
    Demo.world
  = (Throw (FileService.axiosBadStatus 404), Demo.world).
Proof.
  apply (retry_ends_on_first_outcome (throw (FileService.axiosBadStatus 404))
           "https://example.com/a.pdf" Demo.world).
  intros e [= <-]. vm_compute. reflexivity.
Defined.

(** X2: around an upload action that always settles, the loop settles
    too, after at least one and at most three attempts, and an error it
    throws is an error some attempt threw. *)
Theorem retry_attempts_bounded (p : World -> nat) (upload : M File) (url : string)
    (w : World) :
  (forall v, p (upload v).2 = S (p v)) ->
  (forall l m v, p (with_log l m v) = p v) ->
  (forall d v, p (with_timer d v) = p v) ->
  settles upload ->
  let run := FileService.retry upload url w in
  run.1 <> Diverge
  /\ (p w + 1 <= p run.2 <= p w + 3)%nat
  /\ (forall e, run.1 = Throw e -> exists v, (upload v).1 = Throw e).
Proof.
  intros Hp Hlog Htimer Hs. cbn zeta. unfold FileService.retry.
  destruct (retryWhile_attempts p (Z.to_nat FileService.MAX_RETRIES) upload url 0
              FileService.INITIAL_BACKOFF_TIME None w Hp Hlog Htimer Hs)
    as (H1 & H2 & H3 & H4);
    [lia|unfold FileService.MAX_RETRIES; lia|unfold FileService.MAX_RETRIES; lia
    |discriminate|].
  unfold FileService.MAX_RETRIES in *. change (Z.to_nat (3 - 0)) with 3%nat in H2.
  split; [assumption|]. split; [|assumption].
  specialize (H3 ltac:(lia)). lia.
Qed.

(** An upload that always meets a connection reset is tried three times. *)
Lemma retry_attempts_bounded_witness :
  let run := FileService.retry Demo2.resettingCounted "https://example.com/a.pdf"
               Demo.world in
  length (http_requests run.2) = 3%nat
  /\ run.1 <> Diverge
  /\ (length (http_requests Demo.world) + 1 <= length (http_requests run.2)
      <= length (http_requests Demo.world) + 3)%nat
  /\ (forall e, run.1 = Throw e -> exists v, (Demo2.resettingCounted v).1 = Throw e).
Proof.
  cbn zeta. split; [vm_compute; reflexivity|].
  apply (retry_attempts_bounded (fun v => length (http_requests v))
           Demo2.resettingCounted "https://example.com/a.pdf" Demo.world).
  - intros v. simpl. rewrite length_app. simpl. lia.
  - intros l m v. reflexivity.
  - intros d v. reflexivity.
  - intros v. discriminate.
Defined.

(** X3: an upload action that fails every time with one and the same
    transient error is attempted exactly three times, with waits of 1000
    and 2000 ms between the attempts, and the loop throws that error. *)
Theorem retry_exhausts_after_three_attempts (p : World -> nat) (upload : M File)
    (url : string) (e : Error) (w : World) :
  (forall v, (upload v).1 = Throw e) ->
  FileService.isRetryable e = true ->
  (forall v, p (upload v).2 = S (p v)) ->
  (forall l m v, p (with_log l m v) = p v) ->
  (forall d v, p (with_timer d v) = p v) ->
  keeps timers upload ->
  let run := FileService.retry upload url w in
  run.1 = Throw e
  /\ p run.2 = (p w + 3)%nat
  /\ timers run.2 = timers w ++ [1000; 2000].
Proof.
  intros Hthrow Hre Hp Hlog Htimer Hk. cbn zeta. unfold FileService.retry.
  change (Z.to_nat FileService.MAX_RETRIES) with 3%nat.
  assert (Hrun : forall v, exists v1, upload v = (Throw e, v1) /\ p v1 = S (p v)
                                      /\ timers v1 = timers v).
  { intros v. specialize (Hthrow v). specialize (Hp v). specialize (Hk v).
    destruct (upload v) as [r v1]. simpl in *. subst r. eauto. }
  rewrite retryWhile_unfold by (unfold FileService.MAX_RETRIES; lia).
  destruct (Hrun w) as (w1 & -> & Hp1 & Ht1). rewrite Hre.
  change (0 + 1 <? FileService.MAX_RETRIES) with true. cbn iota.
  rewrite retryWhile_unfold by (unfold FileService.MAX_RETRIES; lia).
  match goal with |- context [upload ?v] => destruct (Hrun v) as (w2 & -> & Hp2 & Ht2) end.
  rewrite Hre. change (0 + 1 + 1 <? FileService.MAX_RETRIES) with true. cbn iota.
  rewrite retryWhile_unfold by (unfold FileService.MAX_RETRIES; lia).
  match goal with |- context [upload ?v] => destruct (Hrun v) as (w3 & -> & Hp3 & Ht3) end.
  rewrite Hre. change (0 + 1 + 1 + 1 <? FileService.MAX_RETRIES) with false. cbn iota.
  rewrite retryWhile_exhausted by (unfold FileService.MAX_RETRIES; lia).
  rewrite ?Htimer, ?Hlog in Hp2, Hp3. simpl in Ht2, Ht3.
  split; [reflexivity|]. split; [simpl; lia|].
  simpl. rewrite Ht3, Ht2, Ht1, <- !app_assoc. reflexivity.
Qed.

Lemma retry_exhausts_after_three_attempts_witness :
  let run := FileService.retry Demo2.resettingCounted "https://example.com/a.pdf"
               Demo.world in
  run.1 = Throw (FileService.axiosNoResponse "ECONNRESET")
  /\ length (http_requests run.2) = (length (http_requests Demo.world) + 3)%nat
  /\ timers run.2 = timers Demo.world ++ [1000; 2000].
Proof.
  apply (retry_exhausts_after_three_attempts (fun v => length (http_requests v))
           Demo2.resettingCounted "https://example.com/a.pdf"
           (FileService.axiosNoResponse "ECONNRESET") Demo.world).
  - intros v. reflexivity.
  - vm_compute. reflexivity.
  - intros v. simpl. rewrite length_app. simpl. lia.
  - intros l m v. reflexivity.
  - intros d v. reflexivity.
  - intros v. reflexivity.
Defined.

(** ** The pipeline of one URL *)

Section OneUrl.
Import FileService Cases.

Lemma extractFileNameFromUrl_outcome env url w :
  wp (extractFileNameFromUrl env url) w
    (fun r w' =>
       r = Ok (fileNameOf env url)
       /\ http_requests w' = http_requests w /\ rand_calls w' = rand_calls w
       /\ fs w' = fs w /\ table w' = table w /\ drive_requests w' = drive_requests w
       /\ db_calls w' = db_calls w /\ drive_ready w' = drive_ready w).
Proof.
  unfold extractFileNameFromUrl, fileNameOf.
  destruct (URL_pathname env url) as [urlPath|].
  - apply wp_ret. repeat split.
  - apply wp_bind, wp_modify, wp_ret. repeat split.
Qed.

Lemma downloadFile_no_response env url tmp w errno :
  http_get env (length (http_requests w)) url = NoResponse errno ->
  downloadFile env url tmp w = (Throw (axiosNoResponse errno), failedDownload url tmp w).
Proof.
  intros H. unfold downloadFile, mbind, M_bind, modify, gets. simpl. rewrite H. reflexivity.
Qed.

Lemma downloadFile_bad_status env url tmp w status ct cl body :
  http_get env (length (http_requests w)) url = HttpResponse status ct cl body ->
  (200 <=? status) && (status <? 300) = false ->
  downloadFile env url tmp w = (Throw (axiosBadStatus status), failedDownload url tmp w).
Proof.
  intros H Hs. unfold downloadFile, mbind, M_bind, modify, gets. simpl. rewrite H, Hs.
  reflexivity.
Qed.

Lemma cleanup_after_failed_download {A} url tmp w error :
  @cleanup A tmp error (failedDownload url tmp w)
  = (Throw error, with_fs (delete tmp) (failedDownload url tmp w)).
Proof.
  cbv [cleanup try_catch mbind M_bind mret M_ret fs_access fs_unlink gets modify throw
       failedDownload open_completes].
  cbn [fs with_http_request with_fs with_opening]. rewrite lookup_insert_eq.
  cbn [fs with_http_request with_fs with_opening]. rewrite lookup_insert_eq. reflexivity.
Qed.

Lemma uploadSingleFile_failed_download env fuel url w error :
  downloadFile env url (tempFilePathIn env w) (with_rand_call w)
  = (Throw error, failedDownload url (tempFilePathIn env w) (with_rand_call w)) ->
  uploadSingleFile env fuel url w
  = @rethrowAsHttp File url error
      (with_fs (delete (tempFilePathIn env w))
         (failedDownload url (tempFilePathIn env w) (with_rand_call w))).
Proof.
  intros Hd. unfold uploadSingleFile, createTempFilePath.
  unfold try_catch at 1. unfold mbind at 1, M_bind at 1. unfold mbind at 1, M_bind at 1.
  unfold gets at 1. cbn iota beta.
  unfold mbind at 1, M_bind at 1. unfold modify at 1. cbn iota beta.
  unfold mret at 1, M_ret at 1. cbn iota beta.
  fold (tempFilePathIn env w).
  unfold try_catch at 1. unfold transfer. unfold mbind at 1, M_bind at 1.
  rewrite Hd. rewrite cleanup_after_failed_download. reflexivity.
Qed.

Lemma cleanup_throws {A} tmp error w : (@cleanup A tmp error w).1 = Throw error.
Proof.
  cbv [cleanup try_catch mbind M_bind mret M_ret fs_access fs_unlink gets modify throw].
  destruct (fs w !! tmp) eqn:E; cbn beta iota; rewrite ?E; reflexivity.
Qed.

Lemma cleanup_keeps {A X} (p : World -> X) tmp error :
  (forall f w, p (with_fs f w) = p w) -> keeps p (@cleanup A tmp error).
Proof.
  intros Hfs. unfold cleanup, fs_access, fs_unlink. keeps_tac.
  apply keeps_modify. intros; apply Hfs.
Qed.

Lemma rethrowAsHttp_keeps {A X} (p : World -> X) url error :
  (forall l m w, p (with_log l m w) = p w) -> keeps p (@rethrowAsHttp A url error).
Proof.
  intros Hlog. unfold rethrowAsHttp, logger. keeps_tac.
  apply keeps_modify. intros; apply Hlog.
Qed.

Lemma saveToDB_keeps {X} (p : World -> X) env fileName md u :
  (forall w, p (with_db_call w) = p w) -> (forall t w, p (with_table t w) = p w) ->
  keeps p (saveToDB env fileName md u).
Proof.
  intros Hdb Ht. unfold saveToDB. keeps_tac; apply keeps_modify; intros; auto.
Qed.

(** One GET, for the given URL, is all a download sends. *)
Lemma downloadFile_requests env url tmp w :
  wp (downloadFile env url tmp) w
    (fun _ w' => http_requests w' = http_requests w ++ [url]
                 /\ rand_calls w' = rand_calls w).
Proof.
  unfold downloadFile, createWriteStream.
  apply wp_bind, wp_modify, wp_bind, wp_gets, wp_bind, wp_modify.
  destruct (http_get env _ url) as [errno|status ct cl body|error];
    [apply wp_bind, wp_modify, wp_throw; split; reflexivity
    | |apply wp_throw; split; reflexivity].
  apply wp_bind, wp_modify.
  destruct ((200 <=? status) && (status <? 300)); [|apply wp_throw; split; reflexivity].
  apply wp_bind. eapply wp_conseq; [apply extractFileNameFromUrl_outcome|]. cbn beta.
  intros r w1 (-> & Hh & Hr & _). simpl in Hh, Hr.
  destruct body as [data|e written|e written].
  - apply wp_bind, wp_modify, wp_bind. unfold fs_stat. apply wp_bind, wp_gets.
    simpl. rewrite lookup_insert_eq.
    apply wp_ret, wp_bind, wp_createReadStream, wp_ret. simpl. auto.
  - apply wp_bind, wp_modify, wp_throw. simpl. auto.
  - apply wp_bind, wp_modify, wp_throw. simpl. auto.
Qed.

Lemma transfer_requests env fuel url tmp w :
  wp (transfer env fuel url tmp) w
    (fun _ w' => http_requests w' = http_requests w ++ [url]
                 /\ rand_calls w' = rand_calls w).
Proof.
  unfold transfer. apply wp_bind.
  eapply wp_conseq; [apply downloadFile_requests|]. cbn beta.
  intros [[fileStream fileMetadata]|e|] w1 [Hh Hr]; auto.
  rewrite <- Hh, <- Hr.
  assert (Hrest : forall (c : M File),
            keeps (fun v => (http_requests v, rand_calls v)) c ->
            wp c w1 (fun _ w' => http_requests w' = http_requests w1
                                 /\ rand_calls w' = rand_calls w1)).
  { intros c Hc. unfold wp. specialize (Hc w1). simpl in Hc. injection Hc. auto. }
  apply Hrest. unfold uploadLargeFile, createReadStream, fs_unlink.
  keeps_tac;
    try (apply extractFileNameFromUrl_keeps; reflexivity);
    try (apply uploadFile_keeps; intros; reflexivity);
    try (apply saveToDB_keeps; intros; reflexivity).
Qed.

Lemma uploadSingleFile_requests env fuel url w :
  wp (uploadSingleFile env fuel url) w
    (fun _ w' => http_requests w' = http_requests w ++ [url]
                 /\ rand_calls w' = S (rand_calls w)).
Proof.
  unfold uploadSingleFile. apply wp_try_catch.
  unfold createTempFilePath.
  apply wp_bind, wp_bind, wp_gets, wp_bind, wp_modify, wp_ret.
  apply wp_try_catch.
  eapply wp_conseq; [apply transfer_requests|]. cbn beta.
  assert (Hre : forall (error : Error) v,
            http_requests v = http_requests w ++ [url] /\ rand_calls v = S (rand_calls w) ->
            wp (@rethrowAsHttp File url error) v
              (fun _ w' => http_requests w' = http_requests w ++ [url]
                           /\ rand_calls w' = S (rand_calls w))).
  { intros error v [Hh Hr]. unfold wp.
    rewrite (rethrowAsHttp_keeps http_requests url error ltac:(reflexivity) v).
    rewrite (rethrowAsHttp_keeps rand_calls url error ltac:(reflexivity) v). auto. }
  intros [file|e|] w1 [Hh Hr]; simpl in Hh, Hr; auto.
  unfold wp.
  pose proof (cleanup_throws (A:=File) (tmpdir env +:+ "/upload-" +:+ randomBytesHex env (rand_calls w)) e w1) as Hc.
  pose proof (cleanup_keeps (A:=File) http_requests (tmpdir env +:+ "/upload-" +:+ randomBytesHex env (rand_calls w)) e ltac:(reflexivity) w1) as Hc1.
  pose proof (cleanup_keeps (A:=File) rand_calls (tmpdir env +:+ "/upload-" +:+ randomBytesHex env (rand_calls w)) e ltac:(reflexivity) w1) as Hc2.
  destruct (cleanup _ e w1) as [r w2]. simpl in *. subst r.
  apply Hre. rewrite Hc1, Hc2. auto.
Qed.

End OneUrl.


Section OneUrlOutcome.
Import FileService Cases.

Lemma uploadSingleFile_ok env fuel url w file :
  (uploadSingleFile env fuel url w).1 = Ok file ->
  (transfer env fuel url (tempFilePathIn env w) (with_rand_call w)).1 = Ok file.
Proof.
  unfold uploadSingleFile, createTempFilePath.
  unfold try_catch at 1. unfold mbind at 1, M_bind at 1. unfold mbind at 1, M_bind at 1.
  unfold gets at 1. cbn iota beta.
  unfold mbind at 1, M_bind at 1. unfold modify at 1. cbn iota beta.
  unfold mret at 1, M_ret at 1. cbn iota beta.
  fold (tempFilePathIn env w). unfold try_catch at 1.
  destruct (transfer env fuel url (tempFilePathIn env w) (with_rand_call w))
    as [[f|e|] w1]; simpl.
  - auto.
  - pose proof (cleanup_throws (A:=File) (tempFilePathIn env w) e w1) as Hc.
    destruct (cleanup (tempFilePathIn env w) e w1) as [r w2]. simpl in Hc. subst r.
    destruct (@rethrowAsHttp_throws File url e w2) as (msg & Hmsg). rewrite Hmsg.
    discriminate.
  - discriminate.
Qed.

(** What a download that succeeds hands on. *)
Lemma downloadFile_ok env url tmp w :
  wp (downloadFile env url tmp) w
    (fun r _ =>
       match r with
       | Ok (fileStream, fileMetadata) =>
           exists status contentType declared data,
             http_get env (length (http_requests w)) url
             = HttpResponse status contentType declared (BodyFinish data)
             /\ (200 <=? status) && (status <? 300) = true
             /\ fileMetadata
                = mkMeta (fileNameOf env url)
                    (if truthy contentType then default "" contentType
                     else "application/octet-stream")
                    (byteLength data)
       | _ => True
       end).
Proof.
  unfold downloadFile, createWriteStream.
  apply wp_bind, wp_modify, wp_bind, wp_gets, wp_bind, wp_modify.
  cbn [http_requests with_opening].
  destruct (http_get env _ url) as [errno|status ct cl body|error] eqn:Hget;
    [apply wp_bind, wp_modify, wp_throw; exact I| |apply wp_throw; exact I].
  apply wp_bind, wp_modify.
  destruct ((200 <=? status) && (status <? 300)) eqn:Hs; [|apply wp_throw; exact I].
  apply wp_bind. eapply wp_conseq; [apply extractFileNameFromUrl_outcome|]. cbn beta.
  intros r w1 (-> & _).
  destruct body as [data|e written|e written].
  - apply wp_bind, wp_modify, wp_bind. unfold fs_stat. apply wp_bind, wp_gets.
    cbn [fs with_fs]. rewrite lookup_insert_eq.
    apply wp_ret, wp_bind, wp_createReadStream, wp_ret.
    exists status, ct, cl, data. auto.
  - apply wp_bind, wp_modify, wp_throw. exact I.
  - apply wp_bind, wp_modify, wp_throw. exact I.
Qed.

(** The result of an upload to Drive: the id the provider gave, not
    empty, and the view URL made from it. *)
Lemma tryUpload_result env s md w :
  wp (GoogleDriveService.tryUpload env s md) w
    (fun r _ =>
       match r with
       | Ok u => id u <> ""
                 /\ Sys.url u = "https://drive.google.com/file/d/" +:+ id u +:+ "/view"
       | _ => True
       end).
Proof.
  unfold GoogleDriveService.tryUpload. apply wp_bind.
  unfold wp at 1. destruct (GoogleDriveService.getDriveClient w) as [[[]|e|] w1];
    cbn [fst snd]; try exact I.
  apply wp_bind, wp_modify, wp_bind.
  unfold GoogleDriveService.files_create_call.
  apply wp_bind, wp_gets, wp_bind, wp_readToEnd, wp_bind, wp_modify, wp_bind, wp_modify.
  destruct (files_create env _) as [data_id|e]; [|apply wp_throw; exact I].
  apply wp_ret.
  destruct (truthy data_id) eqn:Ht; cbn [negb]; [|apply wp_throw; exact I].
  apply wp_bind, wp_modify, wp_ret.
  destruct (truthy_Some data_id Ht) as (i & -> & Hi). cbn [id Sys.url default]. auto.
Qed.

Lemma uploadFile_result env fuel s md w :
  wp (GoogleDriveService.uploadFile env fuel s md) w
    (fun r _ =>
       match r with
       | Ok u => id u <> ""
                 /\ Sys.url u = "https://drive.google.com/file/d/" +:+ id u +:+ "/view"
       | _ => True
       end).
Proof.
  revert w. induction fuel as [|fuel IH]; intros w.
  - apply wp_diverge. exact I.
  - cbn [GoogleDriveService.uploadFile]. apply wp_bind, wp_modify, wp_try_catch.
    eapply wp_conseq; [apply tryUpload_result|]. cbn beta.
    intros [u|e|] w1 Hu; auto.
    apply wp_bind, wp_modify.
    destruct (GoogleDriveService.isAuthError e); [|apply wp_throw; exact I].
    apply wp_bind. unfold wp at 1.
    match goal with |- context [try_catch ?c ?h ?v] => destruct (try_catch c h v) as [[[]|e'|] w2] end;
      cbn [fst snd]; try exact I.
    apply IH.
Qed.

Lemma saveToDB_fields env fileName md u w :
  wp (saveToDB env fileName md u) w
    (fun r _ =>
       match r with
       | Ok file =>
           file_name file = fileName /\ file_mimeType file = mimeType md
           /\ file_size file = size md /\ driveFileId file = id u
           /\ driveUrl file = Sys.url u
       | _ => True
       end).
Proof.
  unfold saveToDB. apply wp_bind, wp_gets, wp_bind, wp_modify.
  destruct (prisma_create env _) as [row_id now|e]; [|apply wp_throw; exact I].
  apply wp_bind, wp_gets, wp_bind, wp_modify, wp_ret. cbn. auto.
Qed.

Lemma transfer_fields env fuel url tmp w :
  wp (transfer env fuel url tmp) w
    (fun r _ =>
       match r with
       | Ok file =>
           exists status contentType declared data,
             http_get env (length (http_requests w)) url
             = HttpResponse status contentType declared (BodyFinish data)
             /\ (200 <=? status) && (status <? 300) = true
             /\ file_name file = fileNameOf env url
             /\ file_mimeType file
                = (if truthy contentType then default "" contentType
                   else "application/octet-stream")
             /\ file_size file = byteLength data
             /\ driveFileId file <> ""
             /\ driveUrl file
                = "https://drive.google.com/file/d/" +:+ driveFileId file +:+ "/view"
       | _ => True
       end).
Proof.
  unfold transfer. apply wp_bind.
  eapply wp_conseq; [apply downloadFile_ok|]. cbn beta.
  intros [[fileStream fileMetadata]|e|] w1 Hd; auto.
  destruct Hd as (status & ct & cl & data & Hget & Hs & ->).
  apply wp_bind. eapply wp_conseq; [apply extractFileNameFromUrl_outcome|]. cbn beta.
  intros r w2 (-> & _).
  apply wp_bind.
  assert (Hup : forall (c : M UploadFileResult) v
                  (Q : Res UploadFileResult -> World -> Prop),
            wp c v (fun r _ => match r with
                               | Ok u => id u <> ""
                                         /\ Sys.url u = "https://drive.google.com/file/d/"
                                                        +:+ id u +:+ "/view"
                               | _ => True
                               end) ->
            (forall u v', id u <> "" ->
                          Sys.url u = "https://drive.google.com/file/d/" +:+ id u +:+ "/view" ->
                          Q (Ok u) v') ->
            (forall e v', Q (Throw e) v') -> (forall v', Q Diverge v') ->
            wp c v Q).
  { intros c v Q Hc Hok Hth Hdv. unfold wp in *.
    destruct (c v) as [[u|e|] v']; cbn [fst snd] in *; [destruct Hc; auto|auto|auto]. }
  cbn [size].
  apply Hup.
  - destruct (CHUNK_SIZE <? byteLength data).
    + apply wp_bind, wp_modify. unfold uploadLargeFile. apply uploadFile_result.
    + apply uploadFile_result.
  - intros u v' Hid Hurl. apply wp_bind.
    eapply wp_conseq; [apply saveToDB_fields|]. cbn beta.
    intros [file|e|] w3 Hf; auto.
    destruct Hf as (Hn & Hm & Hz & Hi & Hu).
    apply wp_bind, wp_modify, wp_bind.
    unfold wp at 1.
    match goal with |- context [try_catch ?c ?h ?v] => destruct (try_catch c h v) as [[[]|e'|] w4] eqn:Htc end;
      cbn [fst snd]; try exact I.
    apply wp_ret. exists status, ct, cl, data.
    rewrite Hn, Hm, Hz, Hu, Hi. cbn [mimeType size]. auto 10.
  - intros; exact I.
  - intros; exact I.
Qed.

Lemma uploaded_fields_of_transfer env fuel url w file :
  (uploadSingleFile env fuel url w).1 = Ok file -> file_name file = fileNameOf env url.
Proof.
  intros Hok. apply uploadSingleFile_ok in Hok.
  pose proof (transfer_fields env fuel url (tempFilePathIn env w) (with_rand_call w)) as Ht.
  unfold wp in Ht. rewrite Hok in Ht.
  destruct Ht as (status & ct & cl & data & _ & _ & Hn & _). exact Hn.
Qed.

End OneUrlOutcome.

(** X4: a download that gets no response, or a response outside 2xx,
    ends the upload of that URL with a 400 whose message names the cause
    (for a response, its status).  One request has been made for the URL;
    nothing has been sent to Drive or written to the table, and the temp
    file is gone. *)
Theorem download_failure_is_classified (env : Env) (fuel : nat) (url : string) (w : World)
    (reason : string) :
  Cases.downloadFailure env w url = Some reason ->
  let run := FileService.uploadSingleFile env fuel url w in
  run.1 = Throw (HttpException ("Failed to download file: " +:+ reason) 400)
  /\ http_requests run.2 = http_requests w ++ [url]
  /\ drive_requests run.2 = drive_requests w
  /\ table run.2 = table w
  /\ fs run.2 = delete (tempFilePathIn env w) (fs w).
Proof.
  unfold Cases.downloadFailure. intros Hreason. cbn zeta.
  assert (Hworld : forall error,
            let v := (@FileService.rethrowAsHttp File url error
                        (with_fs (delete (tempFilePathIn env w))
                           (Cases.failedDownload url (tempFilePathIn env w)
                              (with_rand_call w)))).2 in
            http_requests v = http_requests w ++ [url]
            /\ drive_requests v = drive_requests w
            /\ table v = table w
            /\ fs v = delete (tempFilePathIn env w) (fs w)).
  { intros error. cbn zeta.
    rewrite (rethrowAsHttp_keeps http_requests url error ltac:(reflexivity)).
    rewrite (rethrowAsHttp_keeps drive_requests url error ltac:(reflexivity)).
    rewrite (rethrowAsHttp_keeps table url error ltac:(reflexivity)).
    rewrite (rethrowAsHttp_keeps fs url error ltac:(reflexivity)).
    unfold Cases.failedDownload, open_completes.
    cbn [http_requests drive_requests table fs with_fs with_http_request with_rand_call
         with_opening].
    rewrite delete_insert_eq. auto. }
  destruct (http_get env (length (http_requests w)) url)
    as [errno|status ct cl body|error] eqn:Hget; [| |discriminate].
  - injection Hreason as <-.
    rewrite (uploadSingleFile_failed_download env fuel url w (FileService.axiosNoResponse errno))
      by (apply downloadFile_no_response; exact Hget).
    split; [reflexivity|apply Hworld].
  - destruct ((200 <=? status) && (status <? 300)) eqn:Hs; [discriminate|].
    injection Hreason as <-.
    rewrite (uploadSingleFile_failed_download env fuel url w (FileService.axiosBadStatus status))
      by (apply (downloadFile_bad_status env url _ _ status ct cl body); assumption).
    split; [reflexivity|apply Hworld].
Qed.

(** A server that does not answer. *)
Lemma download_failure_is_classified_witness :
  let run := FileService.uploadSingleFile Demo2.silent 5 "https://example.com/a.pdf"
               Demo.world in
  run.1 = Throw (HttpException
                   "Failed to download file: No response received from server" 400)
  /\ http_requests run.2 = http_requests Demo.world ++ ["https://example.com/a.pdf"]
  /\ drive_requests run.2 = drive_requests Demo.world
  /\ table run.2 = table Demo.world
  /\ fs run.2 = delete (tempFilePathIn Demo2.silent Demo.world) (fs Demo.world).
Proof.
  apply (download_failure_is_classified Demo2.silent 5 "https://example.com/a.pdf"
           Demo.world "No response received from server").
  reflexivity.
Defined.

(** X5: the record of a successful upload describes what was downloaded
    and where it went: the name is the last segment of the path of the URL,
    the size is the number of bytes written to the temp file (not the
    length the server declared), the MIME type is the content type of the
    response or application/octet-stream without one, and the Drive URL is
    the view link of the id the provider returned. *)
Theorem uploaded_record_fields (env : Env) (fuel : nat) (url : string) (w : World)
    (file : File) :
  (FileService.uploadSingleFile env fuel url w).1 = Ok file ->
  exists status contentType declared data,
    http_get env (length (http_requests w)) url
    = HttpResponse status contentType declared (BodyFinish data)
    /\ (200 <=? status) && (status <? 300) = true
    /\ file_name file = fileNameOf env url
    /\ file_mimeType file = Cases.contentTypeOf contentType
    /\ file_size file = byteLength data
    /\ driveFileId file <> ""
    /\ driveUrl file = "https://drive.google.com/file/d/" +:+ driveFileId file +:+ "/view".
Proof.
  intros Hok. apply uploadSingleFile_ok in Hok.
  pose proof (transfer_fields env fuel url (tempFilePathIn env w) (with_rand_call w)) as Ht.
  unfold wp in Ht. rewrite Hok in Ht. exact Ht.
Qed.

(** A server that declares 10 bytes and sends 2048: the record says 2048. *)
Lemma uploaded_record_fields_witness :
  exists file,
    (FileService.uploadSingleFile Demo2.lyingLength 5 "https://example.com/a.pdf"
       Demo.world).1 = Ok file
    /\ file_size file = 2048
    /\ exists status contentType declared data,
         http_get Demo2.lyingLength (length (http_requests Demo.world))
           "https://example.com/a.pdf"
         = HttpResponse status contentType declared (BodyFinish data)
         /\ (200 <=? status) && (status <? 300) = true
         /\ file_name file = fileNameOf Demo2.lyingLength "https://example.com/a.pdf"
         /\ file_mimeType file = Cases.contentTypeOf contentType
         /\ file_size file = byteLength data
         /\ driveFileId file <> ""
         /\ driveUrl file
            = "https://drive.google.com/file/d/" +:+ driveFileId file +:+ "/view".
Proof.
  eexists. split; [vm_compute; reflexivity|]. split; [reflexivity|].
  apply (uploaded_record_fields Demo2.lyingLength 5 "https://example.com/a.pdf" Demo.world).
  vm_compute. reflexivity.
Defined.

(** ** A confirmed upload without a record *)

Section Orphan.
Import FileService Cases.

Lemma uploadFile_first_try env fuel s md w data_id :
  drive_ready w = true ->
  files_create env (length (drive_requests w)) = CreateResponse (Some data_id) ->
  data_id <> "" ->
  wp (GoogleDriveService.uploadFile env (S fuel) s md) w
    (fun r w' =>
       r = Ok (mkUpload data_id ("https://drive.google.com/file/d/" +:+ data_id +:+ "/view"))
       /\ drive_requests w' = drive_requests w ++ [requestFor s md]
       /\ table w' = table w /\ fs w' = fs w /\ db_calls w' = db_calls w).
Proof.
  intros Hd Hc Hid.
  assert (Htruthy : truthy (Some data_id) = true).
  { cbn. destruct (String.eqb_spec data_id ""); [contradiction|reflexivity]. }
  eapply wp_conseq;
    [apply uploadFile_one_attempt;
     [exact Hd|intros e He; rewrite Hc in He; discriminate]|].
  cbn beta. intros r w' (-> & lines & ->). rewrite Hc. cbn [answered]. rewrite Htruthy.
  repeat split.
Qed.

End Orphan.

(** X6: a confirmed upload does not imply a record.  When the download
    and the upload to Drive succeed and the database then refuses the
    insert, the URL fails with a 400 that carries the message of the
    database error: the file has been sent to Drive, the table is as it
    was, and the temp file is gone. *)
Theorem database_failure_leaves_the_drive_file (env : Env) (fuel : nat) (url : string)
    (w : World) (status : Z) (contentType : option string) (declared : option Z)
    (data : Bytes) (data_id : string) (error : Error) :
  http_get env (length (http_requests w)) url
  = HttpResponse status contentType declared (BodyFinish data) ->
  (200 <=? status) && (status <? 300) = true ->
  drive_ready w = true ->
  files_create env (length (drive_requests w)) = CreateResponse (Some data_id) ->
  data_id <> "" ->
  prisma_create env (db_calls w) = DbError error ->
  Js.isAxiosError error = false ->
  let run := FileService.uploadSingleFile env (S fuel) url w in
  run.1 = Throw (HttpException ("Failed to upload file: " +:+ message error) 400)
  /\ drive_requests run.2
     = drive_requests w
       ++ [Cases.requestFor (Cases.uploadedStream env w data)
             (mkMeta (fileNameOf env url) (Cases.contentTypeOf contentType)
                (byteLength data))]
  /\ table run.2 = table w
  /\ fs run.2 = delete (tempFilePathIn env w) (fs w).
Proof.
  intros Hget Hs Hready Hcreate Hid Hdb Hax. cbn zeta.
  assert (Htruthy : truthy (Some data_id) = true).
  { cbn. destruct (String.eqb_spec data_id ""); [contradiction|reflexivity]. }
  assert (Hna : forall e, files_create env (length (drive_requests w)) = CreateError e ->
                          GoogleDriveService.isAuthError e = false)
    by (intros e He; rewrite Hcreate in He; discriminate).
  change (wp (FileService.uploadSingleFile env (S fuel) url) w
            (fun r w' =>
               r = Throw (HttpException ("Failed to upload file: " +:+ message error) 400)
               /\ drive_requests w'
                  = drive_requests w
                    ++ [Cases.requestFor (Cases.uploadedStream env w data)
                          (mkMeta (fileNameOf env url) (Cases.contentTypeOf contentType)
                             (byteLength data))]
               /\ table w' = table w
               /\ fs w' = delete (tempFilePathIn env w) (fs w))).
  unfold FileService.uploadSingleFile. apply wp_try_catch.
  unfold FileService.createTempFilePath.
  apply wp_bind, wp_bind, wp_gets, wp_bind, wp_modify, wp_ret.
  fold (tempFilePathIn env w). set (tmp := tempFilePathIn env w).
  apply wp_try_catch. unfold FileService.transfer. apply wp_bind.
  eapply wp_conseq; [eapply downloadFile_finishes; [exact Hget|exact Hs]|].
  cbn beta. intros r w1 (-> & lines & ->). apply wp_bind.
  eapply wp_conseq; [apply extractFileNameFromUrl_run|]. cbn beta.
  intros r w2 (-> & lines' & ->).
  apply wp_bind. unfold Cases.uploadedStream. cbn [size].
  destruct (FileService.CHUNK_SIZE <? byteLength data);
    [apply wp_bind, wp_modify; unfold FileService.uploadLargeFile;
     apply wp_bind, wp_createReadStream|];
    (eapply wp_conseq; [apply uploadFile_one_attempt; [exact Hready|exact Hna]|]);
    cbn beta; intros r w3 (-> & lines3 & ->);
    world_fields; rewrite Hcreate; cbn [Cases.answered]; rewrite Htruthy;
    apply wp_bind; unfold FileService.saveToDB;
    apply wp_bind, wp_gets, wp_bind, wp_modify; world_fields; rewrite Hdb;
    apply wp_throw;
    unfold FileService.cleanup; apply wp_bind, wp_try_catch, wp_bind;
    unfold FileService.fs_access; apply wp_bind, wp_gets; world_fields;
    rewrite lookup_insert_eq; apply wp_ret;
    unfold FileService.fs_unlink; apply wp_bind, wp_gets; world_fields;
    rewrite lookup_insert_eq; apply wp_modify, wp_throw;
    unfold FileService.rethrowAsHttp; apply wp_bind, wp_modify;
    unfold FileService.isAxiosError; rewrite Hax; cbn [andb];
    apply wp_throw; world_fields;
    rewrite !delete_insert_eq, ?length_app, ?Nat.add_1_r; auto.
Qed.

(** Everything works but the database. *)
Lemma database_failure_leaves_the_drive_file_witness :
  let run := FileService.uploadSingleFile Demo3.dbDown 1 "https://example.com/a.pdf"
               Demo.world in
  run.1 = Throw (HttpException "Failed to upload file: Can't reach database server" 400)
  /\ drive_requests run.2
     = drive_requests Demo.world
       ++ [Cases.requestFor (Cases.uploadedStream Demo3.dbDown Demo.world Demo.pdfBytes)
             (mkMeta (fileNameOf Demo3.dbDown "https://example.com/a.pdf")
                (Cases.contentTypeOf (Some "application/pdf"))
                (byteLength Demo.pdfBytes))]
  /\ table run.2 = table Demo.world
  /\ fs run.2 = delete (tempFilePathIn Demo3.dbDown Demo.world) (fs Demo.world).
Proof.
  apply (database_failure_leaves_the_drive_file Demo3.dbDown 0 "https://example.com/a.pdf"
           Demo.world 200 (Some "application/pdf") (Some 2048) Demo.pdfBytes "drive-0"
           (newError "Can't reach database server"));
    try reflexivity.
  discriminate.
Defined.

(** ** Tokens and the Drive adapter *)

Section Adapter.
Import GoogleAuthService GoogleDriveService Cases.

Lemma refreshAccessToken_keeps_requests env :
  keeps drive_requests (refreshAccessToken env).
Proof. unfold refreshAccessToken, saveTokens. keeps_tac. Qed.

Lemma initializeDriveClient_keeps_requests : keeps drive_requests initializeDriveClient.
Proof. unfold initializeDriveClient, getAuthClient. keeps_tac. Qed.

Lemma uploadFile_requests env fuel s md w :
  wp (uploadFile env fuel s md) w
    (fun _ w' => exists k, drive_requests w' = drive_requests w ++ replicate k (requestFor s md)
                           /\ (uploads w + k <= uploads w')%nat).
Proof.
  revert w. induction fuel as [|fuel IH]; intros w.
  - apply wp_diverge. exists O. rewrite app_nil_r. split; [reflexivity|lia].
  - cbn [uploadFile]. apply wp_bind, wp_modify, wp_try_catch.
    eapply wp_conseq;
      [apply wp_and; [apply tryUpload_one_request|apply (wp_keeps uploads);
                                                     apply tryUpload_keeps; reflexivity]|].
    cbn beta.
    assert (Hone : forall w1,
              (drive_requests w1 = drive_requests (with_upload w)
               \/ drive_requests w1
                  = drive_requests (with_upload w) ++ [requestFor s md]) ->
              uploads w1 = uploads (with_upload w) ->
              exists k, drive_requests w1 = drive_requests w ++ replicate k (requestFor s md)
                        /\ (k <= 1)%nat /\ uploads w1 = S (uploads w)).
    { intros w1 [H|H] Hu; cbn in H, Hu.
      - exists O. rewrite app_nil_r. auto.
      - exists 1%nat. auto. }
    intros [u|e|] w1 [Hd Hu].
    + destruct (Hone w1 Hd Hu) as (k & Hk & Hle & Hup). exists k. split; [exact Hk|lia].
    + destruct (Hone w1 Hd Hu) as (k & Hk & Hle & Hup).
      apply wp_bind, wp_modify.
      destruct (isAuthError e); [|apply wp_throw; exists k; cbn; split; [exact Hk|lia]].
      apply wp_bind, wp_try_catch.
      eapply wp_conseq;
        [apply wp_and;
         [apply (wp_keeps drive_requests)|apply (wp_keeps uploads)]|].
      * unfold logger. keeps_tac.
        -- apply refreshAccessToken_keeps_requests.
        -- apply initializeDriveClient_keeps_requests.
      * unfold logger. keeps_tac.
        -- apply refreshAccessToken_keeps; reflexivity.
        -- apply initializeDriveClient_keeps; reflexivity.
      * cbn beta. intros [[]|e'|] w2 [Hd2 Hu2]; cbn in Hd2, Hu2.
        -- eapply wp_conseq; [apply IH|]. cbn beta.
           intros r w3 (k' & Hk' & Hle').
           exists (k + k')%nat. rewrite Hk', Hd2, Hk, replicate_add, app_assoc.
           split; [reflexivity|lia].
        -- apply wp_throw. exists k. rewrite Hd2, Hu2. split; [exact Hk|lia].
        -- apply wp_bind, wp_modify, wp_ret, wp_throw. cbn.
           exists k. rewrite Hd2, Hu2. split; [exact Hk|lia].
        -- exists k. rewrite Hd2, Hu2. split; [exact Hk|lia].
    + destruct (Hone w1 Hd Hu) as (k & Hk & Hle & Hup). exists k. split; [exact Hk|lia].
Qed.

End Adapter.

(** X7: whatever happens, [uploadFile] asks the provider for nothing but
    this upload: the requests it adds are copies of one request, with the
    name and MIME type of the metadata and the stream it was given, at
    most one for each attempt; and it leaves the temp files, the table,
    the timers and the download requests alone. *)
Theorem upload_sends_only_the_given_file (env : Env) (fuel : nat) (fileStream : Stream)
    (metadata : FileMetadata) (w : World) :
  let run := GoogleDriveService.uploadFile env fuel fileStream metadata w in
  (exists k, drive_requests run.2
             = drive_requests w ++ replicate k (Cases.requestFor fileStream metadata)
             /\ (uploads w + k <= uploads run.2)%nat)
  /\ fs run.2 = fs w /\ table run.2 = table w
  /\ timers run.2 = timers w /\ http_requests run.2 = http_requests w.
Proof.
  cbn zeta. split; [apply uploadFile_requests|].
  repeat split; apply uploadFile_keeps; reflexivity.
Qed.

(** X8: with no access token, no Drive client and no refresh token, an
    upload ends with the re-authentication error at its first attempt:
    nothing is sent to the provider, the OAuth endpoint is not called and
    the credentials stay as they were. *)
Theorem upload_without_tokens_requires_reauthentication (env : Env) (fuel : nat)
    (fileStream : Stream) (metadata : FileMetadata) (w : World) :
  truthy (access_token (credentials w)) = false ->
  truthy (refresh_token (credentials w)) = false ->
  drive_ready w = false ->
  let run := GoogleDriveService.uploadFile env (S fuel) fileStream metadata w in
  run.1 = Throw GoogleDriveService.reauthenticationRequired
  /\ drive_requests run.2 = drive_requests w
  /\ oauth_calls run.2 = oauth_calls w
  /\ credentials run.2 = credentials w
  /\ drive_ready run.2 = false
  /\ uploads run.2 = S (uploads w).
Proof.
  intros Ha Hr Hd. cbn zeta.
  change (wp (GoogleDriveService.uploadFile env (S fuel) fileStream metadata) w
            (fun r w' =>
               r = Throw GoogleDriveService.reauthenticationRequired
               /\ drive_requests w' = drive_requests w
               /\ oauth_calls w' = oauth_calls w
               /\ credentials w' = credentials w
               /\ drive_ready w' = false
               /\ uploads w' = S (uploads w))).
  cbn [GoogleDriveService.uploadFile]. apply wp_bind, wp_modify, wp_try_catch.
  unfold GoogleDriveService.tryUpload, GoogleDriveService.getDriveClient.
  apply wp_bind, wp_bind, wp_gets. cbn [drive_ready with_upload]. rewrite Hd. cbn [negb].
  unfold GoogleDriveService.initializeDriveClient at 1. apply wp_try_catch.
  unfold GoogleAuthService.getAuthClient at 1. apply wp_bind, wp_bind, wp_gets.
  cbn [credentials with_upload]. rewrite Ha. cbn [negb].
  apply wp_bind, wp_modify, wp_throw, wp_bind, wp_modify, wp_throw, wp_bind, wp_modify.
  change (GoogleDriveService.isAuthError
            (newError "Authentication required. Please visit /auth/google to authenticate."))
    with true. cbn iota.
  apply wp_bind, wp_try_catch, wp_bind, wp_modify, wp_bind.
  unfold GoogleAuthService.refreshAccessToken. apply wp_bind, wp_modify, wp_bind, wp_gets.
  cbn [credentials with_upload with_log with_refresh]. rewrite Hr. cbn [negb].
  apply wp_throw, wp_bind, wp_modify, wp_ret, wp_throw.
  cbn. auto 10.
Qed.

(** The service before anyone has authenticated. *)
Lemma upload_without_tokens_requires_reauthentication_witness :
  let run := GoogleDriveService.uploadFile Demo.env 1 (ReadStream 0 "/tmp/upload-r0")
               Demo.reportMeta Demo2.unauthenticated in
  run.1 = Throw GoogleDriveService.reauthenticationRequired
  /\ drive_requests run.2 = drive_requests Demo2.unauthenticated
  /\ oauth_calls run.2 = oauth_calls Demo2.unauthenticated
  /\ credentials run.2 = credentials Demo2.unauthenticated
  /\ drive_ready run.2 = false
  /\ uploads run.2 = S (uploads Demo2.unauthenticated).
Proof.
  apply (upload_without_tokens_requires_reauthentication Demo.env 0
           (ReadStream 0 "/tmp/upload-r0") Demo.reportMeta Demo2.unauthenticated);
    reflexivity.
Defined.

(** X9: when the provider answers a request without a file id (none, or
    an empty one), the upload fails with the error that says so, after
    that one request: the error is not taken for an authentication error,
    so no token is refreshed and the upload is not tried again. *)
Theorem missing_file_id_fails_the_upload (env : Env) (fuel : nat) (fileStream : Stream)
    (metadata : FileMetadata) (w : World) (data_id : option string) :
  drive_ready w = true ->
  files_create env (length (drive_requests w)) = CreateResponse data_id ->
  truthy data_id = false ->
  let run := GoogleDriveService.uploadFile env (S fuel) fileStream metadata w in
  run.1 = Throw (newError "File ID was not returned from Google Drive")
  /\ drive_requests run.2 = drive_requests w ++ [Cases.requestFor fileStream metadata]
  /\ refreshes run.2 = refreshes w
  /\ uploads run.2 = S (uploads w).
Proof.
  intros Hd Hc Ht. cbn zeta.
  change (wp (GoogleDriveService.uploadFile env (S fuel) fileStream metadata) w
            (fun r w' =>
               r = Throw (newError "File ID was not returned from Google Drive")
               /\ drive_requests w' = drive_requests w ++ [Cases.requestFor fileStream metadata]
               /\ refreshes w' = refreshes w
               /\ uploads w' = S (uploads w))).
  cbn [GoogleDriveService.uploadFile]. apply wp_bind, wp_modify, wp_try_catch.
  unfold GoogleDriveService.tryUpload, GoogleDriveService.getDriveClient.
  apply wp_bind, wp_bind, wp_gets. cbn [drive_ready with_upload]. rewrite Hd. cbn [negb].
  apply wp_ret, wp_bind, wp_modify, wp_bind.
  unfold GoogleDriveService.files_create_call.
  apply wp_bind, wp_gets, wp_bind, wp_readToEnd, wp_bind, wp_modify, wp_bind, wp_modify.
  cbn [drive_requests with_upload with_log]. rewrite Hc. apply wp_ret. rewrite Ht. cbn [negb].
  apply wp_throw, wp_bind, wp_modify.
  change (GoogleDriveService.isAuthError
            (newError "File ID was not returned from Google Drive")) with false. cbn iota.
  apply wp_throw. cbn. auto.
Qed.

Lemma missing_file_id_fails_the_upload_witness :
  let run := GoogleDriveService.uploadFile Demo2.noId 1 (ReadStream 0 "/tmp/upload-r0")
               Demo.reportMeta Demo.world in
  run.1 = Throw (newError "File ID was not returned from Google Drive")
  /\ drive_requests run.2
     = drive_requests Demo.world
       ++ [Cases.requestFor (ReadStream 0 "/tmp/upload-r0") Demo.reportMeta]
  /\ refreshes run.2 = refreshes Demo.world
  /\ uploads run.2 = S (uploads Demo.world).
Proof.
  apply (missing_file_id_fails_the_upload Demo2.noId 0 (ReadStream 0 "/tmp/upload-r0")
           Demo.reportMeta Demo.world None); reflexivity.
Defined.

(** X10: a token refresh always settles, and it changes the credentials
    only by success: a token it returns is not empty and is the access
    token in use from then on, while a refresh that fails leaves the
    credentials as they were.  Whether token.json can be written changes
    neither the outcome nor the credentials. *)
Theorem refresh_outcome_and_credentials (env : Env) (w : World)
    (token_file : nat -> option Error) :
  let run := GoogleAuthService.refreshAccessToken env w in
  let other := GoogleAuthService.refreshAccessToken (Cases.with_token_write token_file env) w in
  match run.1 with
  | Ok token => token <> "" /\ access_token (credentials run.2) = Some token
  | Throw _ => credentials run.2 = credentials w
  | Diverge => False
  end
  /\ other.1 = run.1 /\ credentials other.2 = credentials run.2.
Proof.
  cbn zeta. unfold GoogleAuthService.refreshAccessToken.
  cbv [mbind M_bind modify gets throw mret M_ret logger try_catch
       GoogleAuthService.saveTokens].
  change (credentials (with_refresh w)) with (credentials w).
  change (oauth_refresh (Cases.with_token_write token_file env)) with (oauth_refresh env).
  change (token_write (Cases.with_token_write token_file env)) with token_file.
  destruct (truthy (refresh_token (credentials w))); cbn [negb fst snd]; [|auto].
  change (oauth_calls (with_oauth_call (with_refresh w))) with (S (oauth_calls w)).
  change (oauth_calls (with_refresh w)) with (oauth_calls w).
  destruct (oauth_refresh env (oauth_calls w)) as [err|[tokens|]]; cbn [fst snd]; auto.
  destruct (truthy (access_token tokens)) eqn:Ht; cbn [fst snd]; [|auto].
  destruct (truthy_Some _ Ht) as (tok & Htok & Hne). rewrite Htok. cbn [default].
  destruct (token_write env (oauth_calls w)), (token_file (oauth_calls w)); cbn;
    rewrite ?Htok; auto.
Qed.

(** X11: start-up never fails.  [onModuleInit] returns normally whether or
    not anyone has authenticated; afterwards the Drive client exists
    exactly if it existed before or an access token is at hand, and
    nothing has been asked of Google. *)
Theorem drive_startup_never_throws (w : World) :
  let run := GoogleDriveBoot.onModuleInit w in
  run.1 = Ok tt
  /\ drive_ready run.2 = drive_ready w || truthy (access_token (credentials w))
  /\ credentials run.2 = credentials w
  /\ drive_requests run.2 = drive_requests w
  /\ oauth_calls run.2 = oauth_calls w.
Proof.
  cbn zeta. unfold GoogleDriveBoot.onModuleInit, GoogleDriveService.initializeDriveClient,
    GoogleAuthService.getAuthClient.
  cbv [mbind M_bind modify gets throw mret M_ret logger try_catch].
  cbn [credentials with_log].
  destruct (truthy (access_token (credentials w))); cbn; rewrite ?orb_true_r, ?orb_false_r; auto.
Qed.

(** ** The authorization-code flow *)

(** X12: the callback endpoint never throws; it replies 400 without
    calling Google when no code came with the request, 200 when the code
    was exchanged and the tokens were written to token.json, and 500
    otherwise.  Tokens obtained for the code replace the credentials as soon
    as they arrive, so they are in use even when the reply is a 500
    because token.json could not be written. *)
Theorem auth_callback_replies (env : Env)
    (getToken : nat -> string -> GoogleAuthFlow.TokenOutcome) (code : option string)
    (w : World) :
  let run := GoogleAuthFlow.googleAuthRedirectCallback env getToken code w in
  exists reply,
    run.1 = Ok reply
    /\ if truthy code then
         oauth_calls run.2 = S (oauth_calls w)
         /\ match getToken (oauth_calls w) (default "" code) with
            | GoogleAuthFlow.TokenError _ =>
                GoogleAuthFlow.reply_status reply = 500 /\ credentials run.2 = credentials w
            | GoogleAuthFlow.Tokens tokens =>
                credentials run.2 = tokens
                /\ GoogleAuthFlow.reply_status reply
                   = match token_write env (oauth_calls w) with
                     | Some _ => 500
                     | None => 200
                     end
            end
       else
         GoogleAuthFlow.reply_status reply = 400
         /\ oauth_calls run.2 = oauth_calls w /\ credentials run.2 = credentials w.
Proof.
  cbn zeta. unfold GoogleAuthFlow.googleAuthRedirectCallback.
  destruct (truthy code); cbn [negb].
  - unfold GoogleAuthFlow.handleAuthCallback, GoogleAuthService.saveTokens.
    cbv [mbind M_bind modify gets throw mret M_ret logger try_catch].
    change (oauth_calls (with_log LOG "Processing authorization code from Google callback" w))
      with (oauth_calls w).
    destruct (getToken (oauth_calls w) (default "" code)) as [e|tokens].
    + eexists. split; [reflexivity|]. cbn. auto.
    + destruct (token_write env (oauth_calls w)); eexists; (split; [reflexivity|]); cbn; auto.
  - eexists. split; [reflexivity|]. cbn. auto.
Qed.

(** X13: once the callback has received tokens with an access token, the
    next upload goes through to the provider, whatever the state of the
    Drive client and of token.json before: one request, no refresh, and
    the file id the provider returns. *)
Theorem upload_after_authorization (env : Env)
    (getToken : nat -> string -> GoogleAuthFlow.TokenOutcome) (code : string)
    (tokens : Credentials) (fuel : nat) (fileStream : Stream) (metadata : FileMetadata)
    (w : World) (data_id : string) :
  truthy (Some code) = true ->
  getToken (oauth_calls w) code = GoogleAuthFlow.Tokens tokens ->
  truthy (access_token tokens) = true ->
  files_create env (length (drive_requests w)) = CreateResponse (Some data_id) ->
  data_id <> "" ->
  let run := (GoogleAuthFlow.googleAuthRedirectCallback env getToken (Some code);;
              GoogleDriveService.uploadFile env (S fuel) fileStream metadata) w in
  run.1 = Ok (mkUpload data_id ("https://drive.google.com/file/d/" +:+ data_id +:+ "/view"))
  /\ drive_requests run.2 = drive_requests w ++ [Cases.requestFor fileStream metadata]
  /\ refreshes run.2 = refreshes w
  /\ credentials run.2 = tokens.
Proof.
  intros Hcode Hget Hacc Hcreate Hid. cbn zeta.
  assert (Htruthy : truthy (Some data_id) = true).
  { cbn. destruct (String.eqb_spec data_id ""); [contradiction|reflexivity]. }
  change (wp (GoogleAuthFlow.googleAuthRedirectCallback env getToken (Some code);;
              GoogleDriveService.uploadFile env (S fuel) fileStream metadata) w
            (fun r w' =>
               r = Ok (mkUpload data_id
                         ("https://drive.google.com/file/d/" +:+ data_id +:+ "/view"))
               /\ drive_requests w' = drive_requests w ++ [Cases.requestFor fileStream metadata]
               /\ refreshes w' = refreshes w
               /\ credentials w' = tokens)).
  apply wp_bind.
  assert (Hcb : wp (GoogleAuthFlow.googleAuthRedirectCallback env getToken (Some code)) w
                  (fun r w1 => (exists reply, r = Ok reply)
                               /\ credentials w1 = tokens
                               /\ drive_requests w1 = drive_requests w
                               /\ refreshes w1 = refreshes w)).
  { unfold GoogleAuthFlow.googleAuthRedirectCallback. rewrite Hcode. cbn [negb].
    apply wp_try_catch, wp_bind, wp_modify, wp_bind.
    unfold GoogleAuthFlow.handleAuthCallback.
    apply wp_bind, wp_gets, wp_bind, wp_modify.
    change (default "" (Some code)) with code.
    change (oauth_calls (with_log LOG "Processing authorization code from Google callback" w))
      with (oauth_calls w).
    rewrite Hget.
    apply wp_bind, wp_modify, wp_bind.
    unfold GoogleAuthService.saveTokens.
    destruct (token_write env (oauth_calls w)).
    - apply wp_bind, wp_modify, wp_throw, wp_bind, wp_modify, wp_ret. cbn. eauto.
    - apply wp_modify, wp_modify, wp_ret. cbn. eauto. }
  eapply wp_conseq; [exact Hcb|]. cbn beta.
  intros r w1 ((reply & ->) & Hcred & Hreq & Href).
  cbn [GoogleDriveService.uploadFile]. apply wp_bind, wp_modify, wp_try_catch.
  unfold GoogleDriveService.tryUpload. apply wp_bind.
  assert (Hclient : wp GoogleDriveService.getDriveClient (with_upload w1)
                      (fun r w2 => r = Ok tt
                                   /\ credentials w2 = tokens
                                   /\ drive_requests w2 = drive_requests w
                                   /\ refreshes w2 = refreshes w)).
  { unfold GoogleDriveService.getDriveClient. apply wp_bind, wp_gets.
    destruct (drive_ready (with_upload w1)); cbn [negb]; [apply wp_ret; cbn; auto|].
    unfold GoogleDriveService.initializeDriveClient. apply wp_try_catch.
    unfold GoogleAuthService.getAuthClient. apply wp_bind, wp_bind, wp_gets.
    cbn [credentials with_upload]. rewrite Hcred, Hacc. cbn [negb].
    apply wp_ret, wp_bind, wp_modify, wp_modify. cbn. auto. }
  eapply wp_conseq; [exact Hclient|]. cbn beta.
  intros r w2 (-> & Hcred2 & Hreq2 & Href2).
  apply wp_bind, wp_modify, wp_bind.
  unfold GoogleDriveService.files_create_call.
  apply wp_bind, wp_gets, wp_bind, wp_readToEnd, wp_bind, wp_modify, wp_bind, wp_modify.
  cbn [drive_requests with_log]. rewrite Hreq2, Hcreate. apply wp_ret.
  rewrite Htruthy. cbn [negb].
  apply wp_bind, wp_modify, wp_ret. cbn. rewrite Hreq2. auto.
Qed.

(** Nobody has authenticated, then the callback comes with a code. *)
Lemma upload_after_authorization_witness :
  let run := (GoogleAuthFlow.googleAuthRedirectCallback Demo2.readOnlyDisk Demo2.grant
                (Some "4/0AX4XfWh");;
              GoogleDriveService.uploadFile Demo2.readOnlyDisk 1
                (ReadStream 0 "/tmp/upload-r0") Demo.reportMeta) Demo2.unauthenticated in
  run.1 = Ok (mkUpload "drive-0" ("https://drive.google.com/file/d/" +:+ "drive-0" +:+ "/view"))
  /\ drive_requests run.2
     = drive_requests Demo2.unauthenticated
       ++ [Cases.requestFor (ReadStream 0 "/tmp/upload-r0") Demo.reportMeta]
  /\ refreshes run.2 = refreshes Demo2.unauthenticated
  /\ credentials run.2 = mkCred (Some "granted") (Some "kept").
Proof.
  apply (upload_after_authorization Demo2.readOnlyDisk Demo2.grant "4/0AX4XfWh"
           (mkCred (Some "granted") (Some "kept")) 0 (ReadStream 0 "/tmp/upload-r0")
           Demo.reportMeta Demo2.unauthenticated "drive-0");
    try reflexivity.
  discriminate.
Defined.

(** ** What the request pipe admits *)

Section Admission.

Lemma trimEnd_nonspace c s :
  is_space c = false -> trimEnd (String c s) = String c (trimEnd s).
Proof. intros H. cbn [trimEnd]. rewrite H. destruct (trimEnd s); reflexivity. Qed.

Lemma trimEnd_idem s : trimEnd (trimEnd s) = trimEnd s.
Proof.
  induction s as [|c s IH]; [reflexivity|]. cbn [trimEnd].
  destruct (trimEnd s) as [|d t] eqn:E.
  - destruct (is_space c) eqn:Hc; [reflexivity|]. cbn [trimEnd]. rewrite Hc. reflexivity.
  - change (trimEnd (String c (String d t)))
      with (match trimEnd (String d t) with
            | EmptyString => if is_space c then EmptyString else String c EmptyString
            | u => String c u
            end).
    rewrite IH. reflexivity.
Qed.

Lemma trimStart_head s :
  trimStart s = EmptyString
  \/ exists c t, trimStart s = String c t /\ is_space c = false.
Proof.
  induction s as [|c s IH]; [left; reflexivity|]. cbn [trimStart].
  destruct (is_space c) eqn:Hc; [exact IH|]. right. eauto.
Qed.

Lemma trim_idem s : trim (trim s) = trim s.
Proof.
  unfold trim. destruct (trimStart_head s) as [->|(c & t & -> & Hc)]; [reflexivity|].
  rewrite (trimEnd_nonspace c t Hc). cbn [trimStart]. rewrite Hc.
  rewrite <- (trimEnd_nonspace c t Hc). apply trimEnd_idem.
Qed.

Lemma dtoOffending_trim url : dtoOffending (trim url) = dtoOffending url.
Proof. unfold dtoOffending, Dto.urlExtension. rewrite trim_idem. reflexivity. Qed.

Lemma validate_nil env fileUrls :
  ValidationPipe.validate env fileUrls = []
  <-> (1 <= length fileUrls <= 10)%nat /\ Forall (fun url => isURL env url = true) fileUrls.
Proof.
  unfold ValidationPipe.validate.
  destruct (length fileUrls <? 1)%nat eqn:H1;
    [apply Nat.ltb_lt in H1; split; [discriminate|lia]|apply Nat.ltb_ge in H1].
  destruct (10 <? length fileUrls)%nat eqn:H10;
    [apply Nat.ltb_lt in H10; split; [discriminate|lia]|apply Nat.ltb_ge in H10].
  cbn [app].
  destruct (forallb (isURL env) fileUrls) eqn:Hall.
  - split; [|reflexivity]. intros _. split; [lia|].
    rewrite forallb_forall in Hall. apply Forall_forall. intros url Hin.
    apply Hall, list_elem_of_In. assumption.
  - split; [discriminate|]. intros [_ HF].
    assert (forallb (isURL env) fileUrls = true) as Habs; [|congruence].
    apply forallb_forall. intros url Hin. rewrite Forall_forall in HF.
    apply HF, list_elem_of_In. assumption.
Qed.

Lemma transform_admits env body fileUrls :
  ValidationPipe.transform env body = Ok fileUrls
  <-> fileUrls = trim <$> body
      /\ (1 <= length body <= 10)%nat
      /\ Forall (fun url => dtoOffending url = false /\ isURL env (trim url) = true) body.
Proof.
  unfold ValidationPipe.transform.
  destruct (Transform_run body)
    as [[-> Hall]|(before & u & after & e & Hbody & _ & Hu & _ & -> & _)].
  - destruct (ValidationPipe.validate env (trim <$> body)) as [|m ms] eqn:Hv.
    + apply validate_nil in Hv as [Hlen Hurl]. rewrite length_fmap in Hlen.
      rewrite Forall_fmap in Hurl.
      split.
      * intros [= <-]. split; [reflexivity|]. split; [assumption|].
        rewrite Forall_forall in *. intros url Hin. split; [apply Hall|apply Hurl]; assumption.
      * intros (-> & _). reflexivity.
    + split; [discriminate|]. intros (_ & Hlen & HF).
      assert (ValidationPipe.validate env (trim <$> body) = []) as Habs; [|congruence].
      apply validate_nil. rewrite length_fmap. split; [assumption|].
      rewrite Forall_fmap. rewrite Forall_forall in *. intros url Hin. apply HF. assumption.
  - split; [discriminate|]. intros (_ & _ & HF). subst body.
    rewrite Forall_forall in HF. destruct (HF u) as [Habs _]; [|congruence].
    apply elem_of_app. right. apply elem_of_cons. left. reflexivity.
Qed.

End Admission.

(** X14: the request pipe admits a body exactly when it holds between one
    and ten entries, none of which the extension transform refuses, and
    each of which, once trimmed, is an HTTP(S) URL for the validator.  What
    the controller then receives is the body with every entry trimmed. *)
Theorem pipe_admits_exactly (env : Env) (body fileUrls : list string) :
  ValidationPipe.transform env body = Ok fileUrls
  <-> fileUrls = trim <$> body
      /\ (1 <= length body <= 10)%nat
      /\ Forall (fun url => dtoOffending url = false /\ isURL env (trim url) = true) body.
Proof. apply transform_admits. Qed.

(** X15: the pipe is idempotent on what it admits: the list handed to the
    controller, sent again as a body, is admitted unchanged. *)
Theorem pipe_is_idempotent (env : Env) (body fileUrls : list string) :
  ValidationPipe.transform env body = Ok fileUrls ->
  ValidationPipe.transform env fileUrls = Ok fileUrls.
Proof.
  intros H. apply transform_admits in H as (-> & Hlen & HF).
  apply transform_admits. rewrite length_fmap. split; [|split; [assumption|]].
  - rewrite <- list_fmap_compose. apply list_fmap_ext. intros i url _. cbn.
    symmetry. apply trim_idem.
  - rewrite Forall_fmap. rewrite Forall_forall in *. intros url Hin. cbn.
    rewrite dtoOffending_trim, trim_idem. apply HF. assumption.
Qed.

(** A body with blanks around its entry. *)
Lemma pipe_is_idempotent_witness :
  ValidationPipe.transform Demo.env ["  https://example.com/a.pdf "]
  = Ok ["https://example.com/a.pdf"]
  /\ ValidationPipe.transform Demo.env ["https://example.com/a.pdf"]
     = Ok ["https://example.com/a.pdf"].
Proof.
  split; [vm_compute; reflexivity|].
  apply (pipe_is_idempotent Demo.env ["  https://example.com/a.pdf "]
           ["https://example.com/a.pdf"]).
  vm_compute. reflexivity.
Defined.

(** ** The two variants of [uploadFiles] *)

Section Variants.
Import FileService.

(** The upload of one URL, as the batch operations see it. *)
Lemma processFileUpload_outcome env fuel url w :
  wp (processFileUpload env fuel url) w
    (fun r w' =>
       http_requests w' = http_requests w ++ [url]
       /\ match r with
          | Ok file => table w' = table w ++ [file] /\ file_name file = fileNameOf env url
          | Throw e => table w' = table w /\ http_status e = Some 400
          | Diverge => True
          end).
Proof.
  apply wp_processFileUpload.
  pose proof (uploadSingleFile_spec env fuel url w) as Hs.
  pose proof (uploadSingleFile_requests env fuel url w) as Hr.
  pose proof (uploaded_fields_of_transfer env fuel url w) as Hf.
  pose proof (uploadSingleFile_throws env fuel url w) as Ht.
  unfold wp in *.
  destruct (uploadSingleFile env fuel url w) as [[file|e|] w1]; cbn [fst snd] in *.
  - destruct Hr as [Hr _]. destruct Hs as (Hs & _). split; [assumption|].
    split; [assumption|]. apply Hf. reflexivity.
  - destruct Hr as [Hr _]. destruct Hs as (Hs & _). split; [assumption|].
    split; [assumption|]. destruct (Ht e eq_refl) as (msg & ->). reflexivity.
  - destruct Hr as [Hr _]. auto.
Qed.

Lemma settle_outcomes env fuel tasks uploadedFiles failedUploads w :
  wp (Batched.settle env fuel tasks uploadedFiles failedUploads) w
    (fun r w' =>
       match r with
       | Ok (uploaded, failed) =>
           exists files failures,
             uploaded = uploadedFiles ++ files /\ failed = failedUploads ++ failures
             /\ table w' = table w ++ files
             /\ http_requests w' = http_requests w ++ tasks
             /\ (length files + length failures = length tasks)%nat
             /\ (files = [] -> failures.*1 = tasks)
             /\ Forall (fun file => exists url, url ∈ tasks
                                                /\ file_name file = fileNameOf env url) files
       | Throw _ => False
       | Diverge => True
       end).
Proof.
  revert uploadedFiles failedUploads w.
  induction tasks as [|url tasks IH]; intros uploadedFiles failedUploads w;
    cbn [Batched.settle].
  - apply wp_ret. exists [], []. rewrite !app_nil_r. repeat split; auto.
  - apply wp_bind, wp_settled.
    eapply wp_conseq; [apply processFileUpload_outcome|]. cbn beta.
    intros [file|e|] w1 [Hreq Hr]; [| |exact I].
    + destruct Hr as (Ht & Hname).
      eapply wp_conseq; [apply IH|]. cbn beta.
      intros [[uploaded failed]|e|] w2 Hr2; auto.
      destruct Hr2 as (files & failures & -> & -> & Ht2 & Hreq2 & Hlen & _ & Hnames).
      exists (file :: files), failures. rewrite <- app_assoc. cbn [app].
      rewrite Ht2, Ht, Hreq2, Hreq, <- !app_assoc. cbn [app length].
      repeat split; auto; [lia|discriminate|].
      constructor.
      * exists url. split; [apply elem_of_cons; left; reflexivity|assumption].
      * eapply Forall_impl; [exact Hnames|]. cbn beta.
        intros f (u & Hin & Hn). exists u. split; [apply elem_of_cons; right|]; assumption.
    + destruct Hr as (Ht & _).
      apply wp_bind, wp_modify.
      eapply wp_conseq; [apply IH|]. cbn beta.
      intros [[uploaded failed]|e'|] w2 Hr2; auto.
      destruct Hr2 as (files & failures & -> & -> & Ht2 & Hreq2 & Hlen & Hall & Hnames).
      exists files, ((url, message e) :: failures). rewrite <- app_assoc. cbn [app].
      cbn [table http_requests with_log] in Ht2, Hreq2.
      rewrite Ht2, Ht, Hreq2, Hreq, <- !app_assoc. cbn [app length].
      repeat split; auto; [lia|intros Hnil; cbn [fmap list_fmap]; f_equal; auto|].
      eapply Forall_impl; [exact Hnames|]. cbn beta.
      intros f (u & Hin & Hn). exists u. split; [apply elem_of_cons; right|]; assumption.
Qed.

Lemma batched_outcome env fuel order fileUrls w :
  wp (Batched.uploadFiles env fuel order fileUrls) w
    (fun r w' =>
       match r with
       | Ok files =>
           table w' = table w ++ files
           /\ http_requests w' = http_requests w ++ Batched.tasks env order fileUrls
           /\ (length files <= length (Batched.tasks env order fileUrls))%nat
           /\ (files = [] -> Batched.tasks env order fileUrls = [])
           /\ Forall (fun file => exists url, url ∈ Batched.tasks env order fileUrls
                                              /\ file_name file = fileNameOf env url) files
       | Throw e =>
           table w' = table w
           /\ http_requests w' = http_requests w ++ Batched.tasks env order fileUrls
           /\ Batched.tasks env order fileUrls <> []
           /\ exists failedUploads,
                e = HttpExceptionObj "All file uploads failed" failedUploads 400
                /\ failedUploads.*1 = Batched.tasks env order fileUrls
       | Diverge => True
       end).
Proof.
  unfold Batched.uploadFiles. apply wp_bind, wp_modify, wp_bind.
  destruct ((MAX_CONCURRENT_UPLOADS env =? 0)%nat && negb (length fileUrls =? 0)%nat);
    [apply wp_diverge; exact I|apply wp_ret, wp_bind].
  eapply wp_conseq; [apply settle_outcomes|]. cbn beta.
  intros [[uploaded failed]|e|] w1 Hr; [|contradiction|exact I].
  destruct Hr as (files & failures & -> & -> & Ht & Hreq & Hlen & Hall & Hnames).
  cbn [app table http_requests with_log] in *.
  apply wp_bind, wp_modify.
  destruct failures as [|f failures]; destruct files as [|file files]; cbn [length Nat.ltb Nat.leb Nat.eqb andb].
  - apply wp_bind, wp_ret, wp_ret. cbn [table http_requests with_log].
    repeat split; auto; [lia|]. intros _. symmetry. apply (Hall eq_refl).
  - apply wp_bind, wp_ret, wp_ret. cbn [table http_requests with_log].
    repeat split; auto; [cbn [length] in *; lia|discriminate].
  - apply wp_throw. cbn [table http_requests with_log]. rewrite Ht, app_nil_r.
    repeat split; auto.
    + rewrite <- (Hall eq_refl). discriminate.
    + eexists. split; [reflexivity|]. apply Hall. reflexivity.
  - apply wp_bind, wp_modify, wp_ret. cbn [table http_requests with_log].
    repeat split; auto; [cbn [length] in *; lia|discriminate].
Qed.

End Variants.

Section LimitedVariant.
Import FileService.

Lemma promiseAll_outcomes env fuel tasks fulfilled rejected w :
  wp (Limited.promiseAll env fuel tasks fulfilled rejected) w
    (fun r w' =>
       match r with
       | Ok (fulfilled', rejected') =>
           exists new,
             fulfilled' = fulfilled ++ new
             /\ table w' = table w ++ new.*2
             /\ http_requests w' = http_requests w ++ tasks.*2
             /\ (rejected' = None ->
                 rejected = None
                 /\ Forall2 (fun task entry =>
                               entry.1 = task.1
                               /\ file_name entry.2 = fileNameOf env task.2) tasks new)
             /\ (forall e, rejected' = Some e ->
                           rejected = Some e \/ http_status e = Some 400)
       | Throw _ => False
       | Diverge => True
       end).
Proof.
  revert fulfilled rejected w.
  induction tasks as [|[i url] tasks IH]; intros fulfilled rejected w;
    cbn [Limited.promiseAll].
  - apply wp_ret. exists []. rewrite !app_nil_r. repeat split; auto; constructor.
  - apply wp_bind, wp_settled.
    eapply wp_conseq; [apply processFileUpload_outcome|]. cbn beta.
    intros [file|e|] w1 [Hreq Hr]; [| |exact I].
    + destruct Hr as (Ht & Hname).
      eapply wp_conseq; [apply IH|]. cbn beta.
      intros [[fulfilled' rejected']|e|] w2 Hr2; auto.
      destruct Hr2 as (new & -> & Ht2 & Hreq2 & Hnone & Hsome).
      exists ((i, file) :: new). rewrite <- app_assoc. cbn [app fmap list_fmap snd].
      rewrite Ht2, Ht, Hreq2, Hreq, <- !app_assoc. cbn [app].
      repeat split; auto.
      * apply Hnone. assumption.
      * constructor; [split; [reflexivity|assumption]|]. apply Hnone. assumption.
    + destruct Hr as (Ht & Hstatus).
      eapply wp_conseq; [apply IH|]. cbn beta.
      intros [[fulfilled' rejected']|e'|] w2 Hr2; auto.
      destruct Hr2 as (new & -> & Ht2 & Hreq2 & Hnone & Hsome).
      exists new. cbn [fmap list_fmap snd].
      rewrite Ht2, Ht, Hreq2, Hreq, <- !app_assoc. cbn [app].
      split; [reflexivity|]. split; [reflexivity|]. split; [reflexivity|]. split.
      * intros Hn. destruct (Hnone Hn) as [Habs _]. destruct rejected; discriminate.
      * intros e0 He0. destruct (Hsome e0 He0) as [Hr|Hr]; [|right; assumption].
        destruct rejected as [e1|]; [left; assumption|].
        injection Hr as <-. right. assumption.
Qed.

Lemma limited_outcome env fuel order fileUrls w :
  wp (Limited.uploadFiles env fuel order fileUrls) w
    (fun r w' =>
       match r with
       | Ok files =>
           fileUrls <> []
           /\ Forall (fun url => offending env url = false) fileUrls
           /\ exists new,
                table w' = table w ++ new.*2
                /\ Forall2 (fun task entry =>
                              entry.1 = task.1
                              /\ file_name entry.2 = fileNameOf env task.2)
                     (Limited.pickIndexed order fileUrls) new
                /\ files = Limited.inInputOrder (length fileUrls) new
       | Throw e => http_status e = Some 400
       | Diverge => True
       end).
Proof.
  unfold Limited.uploadFiles.
  destruct fileUrls as [|url0 rest]; [apply wp_throw; reflexivity|].
  cbn [length Nat.eqb]. apply wp_bind.
  unfold wp at 1.
  rewrite validateFileUrls_run. cbn [fst snd].
  destruct (refusals env (url0 :: rest)) as [|item items] eqn:Hitems; [|reflexivity].
  assert (Hclean : Forall (fun url => offending env url = false) (url0 :: rest)).
  { apply Forall_forall. intros url Hin.
    destruct (offending env url) eqn:Hoff; [|reflexivity].
    assert (Hr : (url, reasonFor env url) ∈ refusals env (url0 :: rest))
      by (apply (list_elem_of_fmap_2 (fun url => (url, reasonFor env url)));
          apply list_elem_of_filter; split; assumption).
    rewrite Hitems in Hr. inversion Hr. }
  apply wp_bind.
  eapply wp_conseq; [apply promiseAll_outcomes|]. cbn beta.
  intros [[fulfilled rejected]|e|] w1 Hr; [|contradiction|exact I].
  destruct Hr as (new & -> & Ht & _ & Hnone & Hsome). cbn [app] in *.
  destruct rejected as [error|].
  - apply wp_bind, wp_modify, wp_throw. reflexivity.
  - apply wp_ret. split; [discriminate|]. split; [assumption|].
    exists new. split; [assumption|]. split; [apply Hnone; reflexivity|reflexivity].
Qed.

Lemma omap_lookup_total {A B} (g : A -> option B) (l : list A) (i : nat) :
  Forall (fun x => is_Some (g x)) l ->
  omap g l !! i = l !! i ≫= g.
Proof.
  intros H. revert i. induction H as [|x l [y Hy] _ IH]; intros i; [reflexivity|].
  cbn [omap list_omap]. rewrite Hy. destruct i as [|i]; cbn; [auto|apply IH].
Qed.

Lemma omap_length_total {A B} (g : A -> option B) (l : list A) :
  Forall (fun x => is_Some (g x)) l -> length (omap g l) = length l.
Proof.
  intros H. induction H as [|x l [y Hy] _ IH]; [reflexivity|].
  cbn [omap list_omap]. rewrite Hy. cbn. f_equal. exact IH.
Qed.

Lemma find_index {A} (new : list (nat * A)) (i : nat) :
  i ∈ new.*1 ->
  exists a, find (fun p => Nat.eqb (fst p) i) new = Some (i, a) /\ (i, a) ∈ new.
Proof.
  intros Hin. apply list_elem_of_fmap in Hin as ([j a] & Hj & Hin). cbn in Hj. subst j.
  destruct (find (fun p => Nat.eqb (fst p) i) new) as [[j b]|] eqn:Hfind.
  - apply find_some in Hfind as [Hb Hj]. cbn in Hj. apply Nat.eqb_eq in Hj. subst j.
    exists b. split; [reflexivity|]. apply list_elem_of_In. assumption.
  - apply list_elem_of_In in Hin.
    pose proof (find_none _ _ Hfind _ Hin) as Hn. cbn in Hn.
    rewrite Nat.eqb_refl in Hn. discriminate.
Qed.

Lemma pickIndexed_elem order fileUrls i url :
  (i, url) ∈ Limited.pickIndexed order fileUrls <-> i ∈ order /\ fileUrls !! i = Some url.
Proof.
  unfold Limited.pickIndexed. rewrite list_elem_of_omap. split.
  - intros (j & Hj & Hsome). destruct (fileUrls !! j) as [u|] eqn:Hu; [|discriminate].
    cbn in Hsome. injection Hsome as <- <-. auto.
  - intros [Hi Hu]. exists i. rewrite Hu. auto.
Qed.

End LimitedVariant.

(** X16: when the variant with the limiter returns, it returns one record
    for each URL of the list, in the order of the list whatever the order in
    which the uploads completed; the record at the place of a URL bears
    the file name of that URL and is in the table. *)
Theorem limited_results_follow_input_order (env : Env) (fuel : nat) (order : list nat)
    (fileUrls : list string) (w : World) (files : list File) :
  (forall i, (i < length fileUrls)%nat -> i ∈ order) ->
  (Limited.uploadFiles env fuel order fileUrls w).1 = Ok files ->
  length files = length fileUrls
  /\ forall i url,
       fileUrls !! i = Some url ->
       exists file,
         files !! i = Some file
         /\ file_name file = fileNameOf env url
         /\ file ∈ table (Limited.uploadFiles env fuel order fileUrls w).2.
Proof.
  intros Horder Hok.
  pose proof (limited_outcome env fuel order fileUrls w) as H. unfold wp in H.
  rewrite Hok in H. destruct H as (_ & _ & new & Ht & HF & ->).
  assert (Hidx : forall i url, fileUrls !! i = Some url ->
            exists file, find (fun p => Nat.eqb (fst p) i) new = Some (i, file)
                         /\ (i, file) ∈ new /\ file_name file = fileNameOf env url).
  { intros i url Hu.
    assert (Hi : (i, url) ∈ Limited.pickIndexed order fileUrls).
    { apply pickIndexed_elem. split; [|assumption].
      apply Horder. apply lookup_lt_Some in Hu. assumption. }
    apply list_elem_of_lookup in Hi as (k & Hk).
    destruct (Forall2_lookup_l _ _ _ _ _ HF Hk) as ([j file] & Hnew & Hj & _).
    cbn in Hj. subst j.
    destruct (find_index new i) as (a & Hfind & Hin).
    { apply list_elem_of_fmap. exists (i, file). split; [reflexivity|].
      apply list_elem_of_lookup. eauto. }
    exists a. split; [assumption|]. split; [assumption|].
    apply list_elem_of_lookup in Hin as (k' & Hk').
    destruct (Forall2_lookup_r _ _ _ _ _ HF Hk') as ([i' url'] & Htask & Hi' & Hname).
    cbn in Hi', Hname. subst i'.
    assert (Hin' : (i, url') ∈ Limited.pickIndexed order fileUrls)
      by (apply list_elem_of_lookup; eauto).
    apply pickIndexed_elem in Hin' as [_ Hu']. congruence. }
  assert (Htotal : Forall (fun i => is_Some (snd <$> find (fun p => Nat.eqb (fst p) i) new))
                     (seq 0 (length fileUrls))).
  { apply Forall_forall. intros i Hi. apply elem_of_seq in Hi.
    destruct (lookup_lt_is_Some_2 fileUrls i) as [url Hu]; [lia|].
    destruct (Hidx i url Hu) as (file & -> & _). cbn. eauto. }
  unfold Limited.inInputOrder. split.
  - rewrite omap_length_total by assumption. apply length_seq.
  - intros i url Hu. destruct (Hidx i url Hu) as (file & Hfind & Hin & Hname).
    exists file. rewrite omap_lookup_total by assumption.
    rewrite lookup_seq_lt by (apply lookup_lt_Some in Hu; assumption).
    cbn. rewrite Hfind. cbn. split; [reflexivity|]. split; [assumption|].
    rewrite Ht. apply elem_of_app. right.
    apply list_elem_of_fmap. exists (i, file). auto.
Qed.

(** Three uploads that complete in the order third, first, second. *)
Lemma limited_results_follow_input_order_witness :
  exists files,
    (Limited.uploadFiles Demo.env 3 [2; 0; 1]%nat Demo.threeUrls Demo.world).1 = Ok files
    /\ file_name <$> files = ["a.pdf"; "b.pdf"; "c.pdf"]
    /\ file_name
       <$> table (Limited.uploadFiles Demo.env 3 [2; 0; 1]%nat Demo.threeUrls Demo.world).2
       = ["c.pdf"; "a.pdf"; "b.pdf"]
    /\ length files = length Demo.threeUrls
    /\ forall i url,
         Demo.threeUrls !! i = Some url ->
         exists file,
           files !! i = Some file
           /\ file_name file = fileNameOf Demo.env url
           /\ file ∈ table (Limited.uploadFiles Demo.env 3 [2; 0; 1]%nat Demo.threeUrls
                              Demo.world).2.
Proof.
  eexists. split; [vm_compute; reflexivity|].
  split; [vm_compute; reflexivity|]. split; [vm_compute; reflexivity|].
  apply (limited_results_follow_input_order Demo.env 3 [2; 0; 1]%nat Demo.threeUrls
           Demo.world).
  - intros i Hi. cbn in Hi.
    destruct i as [|[|[|i]]]; [| | |lia];
      repeat (apply elem_of_cons; first [left; reflexivity | right]).
  - vm_compute. reflexivity.
Defined.

Section Controllers.

Lemma http_errors_pass (c : M (list File)) w :
  (forall e, (c w).1 = Throw e -> exists status, http_status e = Some status) ->
  FileController.uploadFiles c w = c w /\ FileControllerPlain.uploadFiles c w = c w.
Proof.
  intros H. unfold FileController.uploadFiles, FileControllerPlain.uploadFiles, try_catch.
  destruct (c w) as [[files|e|] w1]; [auto| |auto].
  destruct (H e eq_refl) as (status & Hs).
  unfold FileController.isHttpException. rewrite Hs. auto.
Qed.

Lemma limited_throws_400 env fuel order fileUrls w e :
  (Limited.uploadFiles env fuel order fileUrls w).1 = Throw e -> http_status e = Some 400.
Proof.
  intros H. pose proof (limited_outcome env fuel order fileUrls w) as Ho.
  unfold wp in Ho. rewrite H in Ho. exact Ho.
Qed.

Lemma batched_throws_400 env fuel order fileUrls w e :
  (Batched.uploadFiles env fuel order fileUrls w).1 = Throw e -> http_status e = Some 400.
Proof.
  intros H. pose proof (batched_outcome env fuel order fileUrls w) as Ho.
  unfold wp in Ho. rewrite H in Ho. destruct Ho as (_ & _ & _ & items & -> & _). reflexivity.
Qed.

Lemma pick_nil order : Batched.pick order [] = [].
Proof. unfold Batched.pick. induction order as [|i order IH]; [reflexivity|exact IH]. Qed.

Lemma slices_shape fuel batchSize fileUrls :
  (0 < batchSize)%nat -> (length fileUrls <= fuel)%nat ->
  Forall (fun slice => (1 <= length slice <= batchSize)%nat)
    (Batched.slices fuel batchSize fileUrls)
  /\ (length fileUrls <= length (Batched.slices fuel batchSize fileUrls) * batchSize
      < length fileUrls + batchSize)%nat.
Proof.
  intros Hpos. revert fileUrls.
  induction fuel as [|fuel IH]; intros [|url rest] Hlen; cbn [Batched.slices length] in *;
    try (split; [constructor|lia]); try lia.
  destruct (IH (drop batchSize (url :: rest))) as [HF Hn];
    [rewrite length_drop; cbn [length]; lia|].
  rewrite length_drop in Hn. cbn [length] in Hn.
  split.
  - constructor; [|exact HF]. rewrite length_take. cbn [length]. lia.
  - cbn [length]. rewrite Nat.mul_succ_l.
    set (L := length (Batched.slices fuel batchSize (drop batchSize (url :: rest)))) in *.
    destruct (le_lt_dec batchSize (S (length rest))) as [Hle|Hlt]; [lia|].
    assert (L = 0%nat) as -> by (destruct L; [reflexivity|cbn in Hn; lia]).
    lia.
Qed.

End Controllers.

(** X17: the variant with batches requests each URL once and returns
    exactly the records that were written, in the order in which the
    uploads completed.  It throws only when there were uploads and every
    one of them failed: a 400 that lists every URL, in completion order,
    with the table as it was. *)
Theorem batched_returns_successes_lists_failures (env : Env) (fuel : nat)
    (order : list nat) (fileUrls : list string) (w : World) :
  let run := Batched.uploadFiles env fuel order fileUrls w in
  let tasks := Batched.tasks env order fileUrls in
  match run.1 with
  | Ok files =>
      table run.2 = table w ++ files
      /\ http_requests run.2 = http_requests w ++ tasks
      /\ (length files <= length tasks)%nat
      /\ (files = [] -> tasks = [])
      /\ Forall (fun file => exists url, url ∈ tasks /\ file_name file = fileNameOf env url)
           files
  | Throw e =>
      table run.2 = table w
      /\ http_requests run.2 = http_requests w ++ tasks
      /\ tasks <> []
      /\ exists failedUploads,
           e = HttpExceptionObj "All file uploads failed" failedUploads 400
           /\ failedUploads.*1 = tasks
  | Diverge => True
  end.
Proof. cbn zeta. apply (batched_outcome env fuel order fileUrls w). Qed.

(** X18: an empty list is an error for the variant with the limiter, a
    400 raised before anything else happens, and an empty result for the
    variant with batches, which only writes to the log. *)
Theorem empty_list_at_the_services (env : Env) (fuel : nat) (order : list nat) (w : World) :
  Limited.uploadFiles env fuel order [] w
  = (Throw (HttpException "No file URLs provided" 400), w)
  /\ exists lines,
       Batched.uploadFiles env fuel order [] w
       = (Ok [], mkWorld (fs w) (table w) (timers w) (log w ++ lines) (http_requests w)
                   (drive_requests w) (credentials w) (drive_ready w) (oauth_calls w)
                   (refreshes w) (uploads w) (db_calls w) (rand_calls w) (opening w)
                   (streams w) (drive_bodies w)).
Proof.
  split; [reflexivity|].
  unfold Batched.uploadFiles, Batched.tasks. cbn [length Batched.slices concat].
  rewrite pick_nil. rewrite andb_false_r.
  eexists. cbv [mbind M_bind mret M_ret logger modify Batched.settle with_log].
  cbn. rewrite <- app_assoc. reflexivity.
Qed.

(** X19: neither controller ever uses its fallback with the services of
    the repository: each of the two variants of [uploadFiles] throws
    nothing but HTTP exceptions with status 400, which both controllers
    rethrow as they are, so the controller is the service. *)
Theorem controllers_add_nothing (env : Env) (fuel : nat) (order : list nat)
    (fileUrls : list string) (w : World) :
  let limited := Limited.uploadFiles env fuel order fileUrls in
  let batched := Batched.uploadFiles env fuel order fileUrls in
  (forall e, (limited w).1 = Throw e \/ (batched w).1 = Throw e -> http_status e = Some 400)
  /\ FileController.uploadFiles limited w = limited w
  /\ FileControllerPlain.uploadFiles limited w = limited w
  /\ FileController.uploadFiles batched w = batched w
  /\ FileControllerPlain.uploadFiles batched w = batched w.
Proof.
  cbn zeta.
  assert (Hl : forall e, (Limited.uploadFiles env fuel order fileUrls w).1 = Throw e ->
                         exists status, http_status e = Some status)
    by (intros e He; exists 400; eapply limited_throws_400; eassumption).
  assert (Hb : forall e, (Batched.uploadFiles env fuel order fileUrls w).1 = Throw e ->
                         exists status, http_status e = Some status)
    by (intros e He; exists 400; eapply batched_throws_400; eassumption).
  split; [intros e [He|He]; [eapply limited_throws_400|eapply batched_throws_400];
          eassumption|].
  destruct (http_errors_pass _ w Hl) as [H1 H2].
  destruct (http_errors_pass _ w Hb) as [H3 H4]. auto.
Qed.


(** X21: the slicing loop of the variant with batches loses and repeats
    nothing: for a positive batch size the slices, put end to end, are the
    list; each slice holds between one and [batchSize] URLs, and there are
    no more slices than are needed.  So the uploads started are the URLs
    of the list, picked in completion order. *)
Theorem slices_partition_the_list (env : Env) (order : list nat) (fileUrls : list string) :
  (0 < MAX_CONCURRENT_UPLOADS env)%nat ->
  let batches := Batched.slices (length fileUrls) (MAX_CONCURRENT_UPLOADS env) fileUrls in
  concat batches = fileUrls
  /\ Forall (fun slice => (1 <= length slice <= MAX_CONCURRENT_UPLOADS env)%nat) batches
  /\ (length fileUrls <= length batches * MAX_CONCURRENT_UPLOADS env
      < length fileUrls + MAX_CONCURRENT_UPLOADS env)%nat
  /\ Batched.tasks env order fileUrls = Batched.pick order fileUrls.
Proof.
  intros Hpos. cbn zeta.
  pose proof (slices_concat (length fileUrls) (MAX_CONCURRENT_UPLOADS env) fileUrls Hpos
                (Nat.le_refl _)) as Hc.
  destruct (slices_shape (length fileUrls) (MAX_CONCURRENT_UPLOADS env) fileUrls Hpos
              (Nat.le_refl _)) as [HF Hn].
  split; [exact Hc|]. split; [exact HF|]. split; [exact Hn|].
  unfold Batched.tasks. rewrite Hc. reflexivity.
Qed.

(** Seven URLs in batches of three: 3, 3 and 1. *)
Lemma slices_partition_the_list_witness :
  let fileUrls := ["u1"; "u2"; "u3"; "u4"; "u5"; "u6"; "u7"] in
  let batches := Batched.slices (length fileUrls) (MAX_CONCURRENT_UPLOADS Demo.env) fileUrls in
  batches = [["u1"; "u2"; "u3"]; ["u4"; "u5"; "u6"]; ["u7"]]
  /\ concat batches = fileUrls
  /\ Forall (fun slice => (1 <= length slice <= MAX_CONCURRENT_UPLOADS Demo.env)%nat) batches
  /\ (length fileUrls <= length batches * MAX_CONCURRENT_UPLOADS Demo.env
      < length fileUrls + MAX_CONCURRENT_UPLOADS Demo.env)%nat
  /\ Batched.tasks Demo.env [0; 6; 3]%nat fileUrls = Batched.pick [0; 6; 3]%nat fileUrls.
Proof.
  cbn zeta. split; [reflexivity|].
  apply (slices_partition_the_list Demo.env [0; 6; 3]%nat
           ["u1"; "u2"; "u3"; "u4"; "u5"; "u6"; "u7"]).
  cbn. lia.
Defined.

(** ** Listing and file names *)

Section Listing.
Import FileQueries.

#[local] Instance newerFirst_total : Total newerFirst.
Proof. intros a b. unfold newerFirst. lia. Qed.

Lemma getAllFiles_run w :
  getAllFiles w = (Ok (merge_sort newerFirst (table w)), w).
Proof. reflexivity. Qed.

Lemma listing_sorted rows : Sorted newerFirst (merge_sort newerFirst rows).
Proof. apply Sorted_merge_sort. exact newerFirst_total. Qed.

End Listing.

Section FileNames.

Lemma split_nonempty sep s : split sep s <> [].
Proof.
  destruct s as [|c s]; cbn [split]; [discriminate|].
  destruct (Ascii.eqb c sep); [discriminate|]. destruct (split sep s); discriminate.
Qed.

Lemma split_pieces_without_separator sep s :
  Forall (fun piece => str_includes (String sep EmptyString) piece = false) (split sep s).
Proof.
  induction s as [|c s IH]; cbn [split].
  - constructor; [reflexivity|constructor].
  - destruct (Ascii.eqb c sep) eqn:Hc.
    + constructor; [reflexivity|exact IH].
    + pose proof (split_nonempty sep s) as Hne.
      destruct (split sep s) as [|h t]; [contradiction|].
      apply Forall_cons in IH as [Hh Ht].
      constructor; [|assumption].
      cbn [str_includes startsWith]. rewrite Ascii.eqb_sym, Hc. cbn [andb orb]. exact Hh.
Qed.

Lemma split_trailing_separator sep s :
  last (split sep (s +:+ String sep EmptyString)) = Some EmptyString.
Proof.
  assert (H : exists h t, split sep (s +:+ String sep EmptyString) = h :: t
                          /\ t <> [] /\ last t = Some EmptyString).
  { induction s as [|c s (h & t & Hs & Hne & Hl)].
    - change (EmptyString +:+ String sep EmptyString) with (String sep EmptyString).
      cbn [split]. rewrite Ascii.eqb_refl. exists EmptyString, [EmptyString]. auto.
    - change (String c s +:+ String sep EmptyString)
        with (String c (s +:+ String sep EmptyString)).
      cbn [split]. rewrite Hs. destruct (Ascii.eqb c sep).
      + exists EmptyString, (h :: t). split; [reflexivity|]. split; [discriminate|].
        destruct t; [contradiction|exact Hl].
      + exists (String c h), t. auto. }
  destruct H as (h & t & -> & Hne & Hl). destruct t; [contradiction|exact Hl].
Qed.

End FileNames.

(** X22: what the listing shows after an upload.  After a successful
    upload the listing holds the new record together with the rows that
    were there before, newest first, and reading it changes nothing;
    after an upload that failed the listing is what it was. *)
Theorem upload_then_listing (env : Env) (fuel : nat) (url : string) (w : World) :
  let run := FileService.uploadSingleFile env fuel url w in
  let before := (FileControllerPlain.getAllFiles w).1 in
  let after := FileControllerPlain.getAllFiles run.2 in
  after.2 = run.2
  /\ match run.1 with
     | Ok file =>
         exists rows,
           after.1 = Ok rows /\ rows ≡ₚ file :: table w
           /\ Sorted FileQueries.newerFirst rows
     | _ => after.1 = before
     end.
Proof.
  cbn zeta. unfold FileControllerPlain.getAllFiles. rewrite !getAllFiles_run. cbn [fst snd].
  split; [reflexivity|].
  pose proof (uploadSingleFile_spec env fuel url w) as Hs. unfold wp in Hs.
  destruct (FileService.uploadSingleFile env fuel url w) as [[file|e|] w1]; cbn [fst snd] in *.
  - destruct Hs as (Ht & _). eexists. split; [reflexivity|]. split; [|apply listing_sorted].
    rewrite merge_sort_Permutation, Ht. symmetry. apply Permutation_cons_append.
  - destruct Hs as (-> & _). reflexivity.
  - rewrite Hs. reflexivity.
Qed.

(** X23: the file name taken from a URL is always there and is a single
    path segment: extraction never throws, the name is never empty and
    holds no slash, and it is unknown-file when the URL does not parse or
    its path ends in a slash.  Extraction touches neither the temp files
    nor the table. *)
Theorem file_name_is_one_segment (env : Env) (url : string) (w : World) :
  let run := FileService.extractFileNameFromUrl env url w in
  run.1 = Ok (fileNameOf env url)
  /\ fs run.2 = fs w /\ table run.2 = table w
  /\ fileNameOf env url <> ""
  /\ str_includes "/" (fileNameOf env url) = false
  /\ match URL_pathname env url with
     | None => fileNameOf env url = "unknown-file"
     | Some urlPath =>
         (forall dir, urlPath = dir +:+ "/" -> fileNameOf env url = "unknown-file")
         /\ (fileNameOf env url = "unknown-file"
             \/ Some (fileNameOf env url) = last (split "/" urlPath))
     end.
Proof.
  cbn zeta.
  pose proof (extractFileNameFromUrl_outcome env url w) as Ho. unfold wp in Ho.
  destruct Ho as (Hr & _ & _ & Hfs & Ht & _).
  split; [exact Hr|]. split; [exact Hfs|]. split; [exact Ht|].
  unfold fileNameOf. destruct (URL_pathname env url) as [urlPath|]; cbn zeta;
    [|split; [discriminate|split; reflexivity]].
  unfold pop.
  pose proof (split_pieces_without_separator "/" urlPath) as Hp.
  destruct (last (split "/" urlPath)) as [fileName|] eqn:Hl; cbn [truthy default].
  - destruct (String.eqb_spec fileName "") as [->|Hne]; cbn [negb].
    + split; [discriminate|]. split; [reflexivity|]. split; [reflexivity|]. left. reflexivity.
    + split; [exact Hne|]. split.
      * rewrite Forall_forall in Hp. apply Hp.
        apply last_Some in Hl as (l' & ->). apply elem_of_app. right.
        apply elem_of_cons. left. reflexivity.
      * split; [|right; reflexivity].
        intros dir ->. rewrite split_trailing_separator in Hl. congruence.
  - split; [discriminate|]. split; [reflexivity|]. split; [reflexivity|]. left. reflexivity.
Qed.
